(** * BeagleBone Black I2C bus (bbb-i2c.hpp / bbb-i2c.cpp)

    A shallow embedding of [bbbi2c::I2CException], [bbbi2c::I2CNotFoundException]
    and [bbbi2c::I2CBus], and the properties of its session discipline.

    The C++ methods are written as programs over a small set of primitive
    actions: the platform calls the source makes ([::open], [ioctl], [::read],
    [::write], [::close], [time]), the accesses to the member [file] and to
    [errno], and the two operations of [std::mutex].  A program is then run
    in two ways: by one thread against a platform ([run]), and by two threads
    under an arbitrary schedule ([exec]).

    Integer widths are those of the target named in the README (BeagleBone
    Black, 32-bit ARM Linux): [int], [size_t] and [ssize_t] are 32 bits wide,
    so [int x = ::read(...)] converts nothing, while [int len = dat.size()]
    and the [size_t] parameter of [::read]/[::write] wrap, and the wrap is
    written out. *)

From Stdlib Require Import ZArith List String Ascii Strings.Byte Bool Lia Arith.

Import ListNotations.

Local Open Scope string_scope.
Local Open Scope Z_scope.

(** ** Platform constants (Linux headers, not part of the repository) *)

Definition O_RDWR    : Z := 2.       (* fcntl.h *)
Definition I2C_SLAVE : Z := 1795.    (* linux/i2c-dev.h, 0x0703 *)
Definition EINTR     : Z := 4.       (* errno.h *)
Definition BBB_I2C0_FILE : string := "/dev/i2c-0".
Definition BBB_I2C1_FILE : string := "/dev/i2c-1".
Definition BBB_I2C2_FILE : string := "/dev/i2c-2".

(** ** Integer conversions of the target *)

(** [int] -> [size_t]: the third argument of [::read] and [::write]. *)
Definition size_t_of_int (n : Z) : Z := n mod 2 ^ 32.

(** [size_t] -> [int]: [int len = dat.size()]. *)
Definition int_of_size_t (n : Z) : Z :=
  let m := n mod 2 ^ 32 in if m <? 2 ^ 31 then m else m - 2 ^ 32.

Definition INT_MAX : Z := 2 ^ 31 - 1.

(** [uint8_t] -> [int] / [unsigned int] (integral promotion). *)
Definition uint8 (b : byte) : Z := Z.of_N (Byte.to_N b).

(** ** I2CException *)

Inductive exception_type : Type :=
| T_I2CException
| T_I2CNotFoundException.

(** The three data members of the class, and the dynamic type of the thrown
    object. *)
Record I2CException : Type := mkException {
  exc_type   : exception_type;
  message    : string;
  procname   : string;
  timeof_exc : Z
}.

Definition what (e : I2CException) : string := message e.
Definition why  (e : I2CException) : string := message e.
Definition who  (e : I2CException) : string := procname e.
Definition when (e : I2CException) : Z      := timeof_exc e.

(** ** Primitive actions *)

Inductive syscall : Type :=
| sys_open  (path : string) (flags : Z)
| sys_ioctl (fd request arg : Z)
| sys_read  (fd count : Z)
| sys_write (fd : Z) (buf : list byte) (count : Z)
| sys_close (fd : Z)
| sys_time.

Inductive action : Type :=
| Sys (c : syscall)
| LoadFile
| StoreFile (v : Z)
| LoadErrno
| StoreErrno (v : Z)
| MtxLock
| MtxUnlock.

(** What an action gives back.  A platform call gives its return value
    [ret], the value [err] it leaves in [errno] when it fails, and for
    [::read] the [bytes] it copied to the caller's buffer.  A load gives the
    loaded value in [ret]. *)
Record reply : Type := mkReply {
  ret   : Z;
  err   : Z;
  bytes : list byte
}.

Definition value (v : Z) : reply := mkReply v 0 [].
Definition done : reply := value 0.

(** ** Programs *)

Inductive prog (A : Type) : Type :=
| Ret   (a : A)
| Throw (e : I2CException)
| Spin                                   (* a loop that has not ended yet *)
| Do    (a : action) (k : reply -> prog A).

Arguments Ret {A} a.
Arguments Throw {A} e.
Arguments Spin {A}.
Arguments Do {A} a k.

Fixpoint bind {A B : Type} (p : prog A) (f : A -> prog B) : prog B :=
  match p with
  | Ret a   => f a
  | Throw e => Throw e
  | Spin    => Spin
  | Do a k  => Do a (fun r => bind (k r) f)
  end.

Declare Scope prog_scope.
Delimit Scope prog_scope with prog.

Notation "x <- p ;; q" := (bind p (fun x => q))
  (at level 100, p at next level, right associativity) : prog_scope.

Notation "p ;; q" := (bind p (fun _ => q))
  (at level 100, right associativity) : prog_scope.

Local Open Scope prog_scope.

Definition call (c : syscall) : prog reply := Do (Sys c) (fun r => Ret r).
Definition load_file  : prog Z := Do LoadFile  (fun r => Ret (ret r)).
Definition load_errno : prog Z := Do LoadErrno (fun r => Ret (ret r)).
Definition store_file  (v : Z) : prog unit := Do (StoreFile v)  (fun _ => Ret tt).
Definition store_errno (v : Z) : prog unit := Do (StoreErrno v) (fun _ => Ret tt).

(** [std::lock_guard<std::mutex> lck(mtx); body]: the constructor locks, the
    destructor unlocks when the scope is left, by return or by exception. *)
Fixpoint lock_guard_scope {A : Type} (body : prog A) : prog A :=
  match body with
  | Ret a   => Do MtxUnlock (fun _ => Ret a)
  | Throw e => Do MtxUnlock (fun _ => Throw e)
  | Spin    => Spin
  | Do a k  => Do a (fun r => lock_guard_scope (k r))
  end.

Definition lock_guard {A : Type} (body : prog A) : prog A :=
  Do MtxLock (fun _ => lock_guard_scope body).

(** [TEMP_FAILURE_RETRY (expression)] of glibc's unistd.h:
      do __result = (long int) (expression);
      while (__result == -1L && errno == EINTR);
    [fuel] bounds the number of evaluations the model follows. *)
Fixpoint TEMP_FAILURE_RETRY (fuel : nat) (expression : prog Z) : prog Z :=
  match fuel with
  | O => Spin
  | S fuel' =>
      result <- expression ;;
      errno <- load_errno ;;
      if (result =? -1) && (errno =? EINTR)
      then TEMP_FAILURE_RETRY fuel' expression
      else Ret result
  end.

(** ** Constructors of the exception classes *)

(** I2CException::I2CException(const string& msg, const string& proc) *)
Definition new_I2CException (msg proc : string) : prog I2CException :=
  t <- call sys_time ;;
  Ret {| exc_type := T_I2CException;
         message := msg; procname := proc; timeof_exc := ret t |}.

(** I2CNotFoundException::I2CNotFoundException(msg, proc) : I2CException(msg, proc) *)
Definition new_I2CNotFoundException (msg proc : string) : prog I2CException :=
  e <- new_I2CException msg proc ;;
  Ret {| exc_type := T_I2CNotFoundException;
         message := message e; procname := procname e;
         timeof_exc := timeof_exc e |}.

(** [ss << "0x" << hex << uppercase << setfill('0') << setw(2) << (unsigned int)addr]
    for a [uint8_t]: the value is below 256, so exactly two digits come out. *)
Definition hex_digit (n : N) : ascii :=
  if (n <? 10)%N then ascii_of_N (48 + n) else ascii_of_N (55 + n).

Definition hex_upper_w2 (n : N) : string :=
  String (hex_digit (n / 16)) (String (hex_digit (n mod 16)) EmptyString).

(** The expression [::close(file)], with its read of the member [file]. *)
Definition close_file : prog Z :=
  file <- load_file ;; r <- call (sys_close file) ;; Ret (ret r).

(** ** I2CBus *)

Section I2CBus.

(** [const char* busfile], set once by the constructor. *)
Variable busfile : string.

(** void I2CBus::Close()
    [fuel] is the fuel of the TEMP_FAILURE_RETRY in it. *)
Definition Close (fuel : nat) : prog unit :=
  store_errno 0 ;;
  file <- load_file ;;
  if negb (file =? -1) then
    closeresult <- close_file ;;
    (if closeresult <? 0 then
       errno <- load_errno ;;
       if errno =? EINTR then
         TEMP_FAILURE_RETRY fuel close_file ;;
         Ret tt
       else Ret tt
     else Ret tt) ;;
    store_file (-1)
  else Ret tt.

(** I2CBus::~I2CBus() *)
Definition I2CBus_destructor (fuel : nat) : prog unit := Close fuel.

(** void I2CBus::Open(uint8_t addr) *)
Definition Open (fuel : nat) (addr : byte) : prog unit :=
  r <- call (sys_open busfile O_RDWR) ;;
  store_file (ret r) ;;
  file <- load_file ;;
  if file <? 0 then
    iexc <- new_I2CException "I2CBus::Open(addr)"
                             ("Unable to open I2C Bus file " ++ busfile) ;;
    Throw iexc
  else
    file <- load_file ;;
    r <- call (sys_ioctl file I2C_SLAVE (uint8 addr)) ;;
    let ioresult := ret r in
    if ioresult <? 0 then
      Close fuel ;;
      nfexc <- new_I2CNotFoundException "I2CBus::Open(addr)"
                 ("Unable to find device address " ++ "0x"
                  ++ hex_upper_w2 (Byte.to_N addr)) ;;
      Throw nfexc
    else Ret tt.

(** void I2CBus::Read(uint8_t* data, int len, uint8_t addr)
    [data] is the caller's buffer, held by the running thread. *)
Definition Read (fuel : nat) (len : Z) (addr : byte) : prog unit :=
  lock_guard (
    Open fuel addr ;;
    file <- load_file ;;
    r <- call (sys_read file (size_t_of_int len)) ;;
    let recvd := ret r in
    Close fuel ;;
    if negb (recvd =? len) then
      iexc <- new_I2CException "I2CBus::Read(data, len, addr)" "Read length error." ;;
      Throw iexc
    else Ret tt).

(** void I2CBus::Write(uint8_t* data, int len, uint8_t addr) *)
Definition Write (fuel : nat) (data : list byte) (len : Z) (addr : byte)
  : prog unit :=
  lock_guard (
    Open fuel addr ;;
    file <- load_file ;;
    r <- call (sys_write file data (size_t_of_int len)) ;;
    let sent := ret r in
    Close fuel ;;
    if negb (sent =? len) then
      iexc <- new_I2CException "I2CBus::Write(data, len, addr)" "Write length error." ;;
      Throw iexc
    else Ret tt).

(** [dat.c_str()]: the bytes of the string followed by the terminator. *)
Definition c_str (dat : string) : list byte := (list_byte_of_string dat ++ [x00])%list.

(** [dat.size()] *)
Definition size (dat : string) : Z := Z.of_nat (String.length dat).

(** void I2CBus::Write(const string& dat, uint8_t addr) *)
Definition Write_string (fuel : nat) (dat : string) (addr : byte) : prog unit :=
  lock_guard (
    let len := int_of_size_t (size dat) in
    Open fuel addr ;;
    file <- load_file ;;
    r <- call (sys_write file (c_str dat) (size_t_of_int len)) ;;
    let sent := ret r in
    Close fuel ;;
    if negb (sent =? len) then
      iexc <- new_I2CException "I2CBus::Write(dat, addr)" "Write length error." ;;
      Throw iexc
    else Ret tt).

(** void I2CBus::Xfer(uint8_t* odat, int olen, uint8_t* idat, int ilen, uint8_t i2caddr)
    [idat] is the caller's receive buffer, held by the running thread. *)
Definition Xfer (fuel : nat) (odat : list byte) (olen ilen : Z)
           (i2caddr : byte) : prog unit :=
  lock_guard (
    Open fuel i2caddr ;;
    file <- load_file ;;
    r <- call (sys_write file odat (size_t_of_int olen)) ;;
    let count := ret r in
    if negb (count =? olen) then
      Close fuel ;;
      iexc <- new_I2CException
                "I2CConnection::Xfer(odat, olen, idat, ilen, i2caddr)"
                "Write length error." ;;
      Throw iexc
    else
      file <- load_file ;;
      r <- call (sys_read file (size_t_of_int ilen)) ;;
      let count := ret r in
      Close fuel ;;
      if negb (count =? ilen) then
        iexc <- new_I2CException
                  "I2CConnection::Xfer(odat, olen, idat, ilen, i2caddr)"
                  "Read length error." ;;
        Throw iexc
      else Ret tt).

End I2CBus.

(** ** One thread running a program *)

Definition event : Type := (syscall * reply)%type.

(** The platform (the operating system's I2C character-device driver) is
    not part of the repository: it is any function that answers a call, given
    the calls and answers so far. *)
Definition Platform : Type := list event -> syscall -> reply.

(** The member [file] and the mutex of the bus, the [errno] and the receive
    buffer of the running thread, and the platform calls made so far. *)
Record state : Type := mkState {
  file  : Z;
  mtx   : bool;
  errno : Z;
  data  : list byte;
  trace : list event
}.

(** I2CBus::I2CBus(const char* bus): [file = -1], the mutex is free. *)
Definition I2CBus (errno0 : Z) (data0 : list byte) (trace0 : list event) : state :=
  {| file := -1; mtx := false; errno := errno0; data := data0; trace := trace0 |}.

(** [::read] copies the bytes it transferred to the start of the buffer. *)
Definition overwrite (src dst : list byte) : list byte :=
  (src ++ skipn (List.length src) dst)%list.

(** The state after platform call [c] was answered by [r]: the call is
    logged, a failed call leaves its error in [errno], and [::read] has
    copied what it transferred into the buffer. *)
Definition after (c : syscall) (r : reply) (s : state) : state :=
  {| file := file s; mtx := mtx s;
     errno := if ret r <? 0 then err r else errno s;
     data := match c with
             | sys_read _ _ => overwrite (bytes r) (data s)
             | _ => data s
             end;
     trace := (trace s ++ [(c, r)])%list |}.

Definition with_errno (e : Z) (s : state) : state :=
  {| file := file s; mtx := mtx s; errno := e; data := data s; trace := trace s |}.

Definition with_file (v : Z) (s : state) : state :=
  {| file := v; mtx := mtx s; errno := errno s; data := data s; trace := trace s |}.

Definition unlocked (s : state) : state :=
  {| file := file s; mtx := false; errno := errno s; data := data s; trace := trace s |}.

Definition locked (s : state) : state :=
  {| file := file s; mtx := true; errno := errno s; data := data s; trace := trace s |}.

Definition perform (P : Platform) (a : action) (s : state) : option (reply * state) :=
  match a with
  | Sys c        => let r := P (trace s) c in Some (r, after c r s)
  | LoadFile     => Some (value (file s), s)
  | StoreFile v  => Some (done, with_file v s)
  | LoadErrno    => Some (value (errno s), s)
  | StoreErrno v => Some (done, with_errno v s)
  | MtxLock      => if mtx s then None else Some (done, locked s)
  | MtxUnlock    => Some (done, unlocked s)
  end.

Inductive outcome (A : Type) : Type :=
| Returned (a : A)
| Raised   (e : I2CException)
| Spinning                      (* still in TEMP_FAILURE_RETRY when the fuel ended *)
| Blocked.                      (* waiting for a mutex that is held *)

Arguments Returned {A} a.
Arguments Raised {A} e.
Arguments Spinning {A}.
Arguments Blocked {A}.

Fixpoint run {A : Type} (P : Platform) (p : prog A) (s : state) : outcome A * state :=
  match p with
  | Ret a   => (Returned a, s)
  | Throw e => (Raised e, s)
  | Spin    => (Spinning, s)
  | Do a k  =>
      match perform P a s with
      | Some (r, s') => run P (k r) s'
      | None => (Blocked, s)
      end
  end.

(** A platform that answers its n-th call with the n-th reply of a script. *)
Definition scripted (script : list reply) : Platform :=
  fun h _ => nth (List.length h) script done.

Definition ok (v : Z) : reply := mkReply v 0 [].
Definition fail (e : Z) : reply := mkReply (-1) e [].
Definition got (bs : list byte) : reply := mkReply (Z.of_nat (List.length bs)) 0 bs.

(** Sequencing of results: what follows is run only after a return. *)
Definition and_then {A B : Type} (x : outcome A * state)
           (f : A -> state -> outcome B * state) : outcome B * state :=
  match x with
  | (Returned a, s) => f a s
  | (Raised e, s)   => (Raised e, s)
  | (Spinning, s)   => (Spinning, s)
  | (Blocked, s)    => (Blocked, s)
  end.

(** Leaving the scope of the [lock_guard]: by return or by exception the
    mutex is released. *)
Definition released {A : Type} (x : outcome A * state) : outcome A * state :=
  match x with
  | (Returned a, s) => (Returned a, unlocked s)
  | (Raised e, s)   => (Raised e, unlocked s)
  | (Spinning, s)   => (Spinning, s)
  | (Blocked, s)    => (Blocked, s)
  end.

(** The exception object built and thrown in state [s]: its time stamp is
    the platform's answer to [time(nullptr)]. *)
Definition raise_at {A : Type} (P : Platform) (ty : exception_type)
           (msg proc : string) (s : state) : outcome A * state :=
  let t := P (trace s) sys_time in
  (Raised (mkException ty msg proc (ret t)), after sys_time t s).

(** The state after one call of [::close(file)] answered by [r]. *)
Definition closed_once (r : reply) (s : state) : state :=
  after (sys_close (file s)) r s.

(** ** Reading a trace *)

Definition is_open  (c : syscall) : bool := match c with sys_open _ _ => true | _ => false end.
Definition is_ioctl (c : syscall) : bool := match c with sys_ioctl _ _ _ => true | _ => false end.
Definition is_read  (c : syscall) : bool := match c with sys_read _ _ => true | _ => false end.
Definition is_write (c : syscall) : bool := match c with sys_write _ _ _ => true | _ => false end.
Definition is_close (c : syscall) : bool := match c with sys_close _ => true | _ => false end.
Definition is_time  (c : syscall) : bool := match c with sys_time => true | _ => false end.

(** The calls of one kind in a trace, and how many there are. *)
Definition calls (kind : syscall -> bool) (t : list event) : list event :=
  filter (fun e => kind (fst e)) t.

Definition count (kind : syscall -> bool) (t : list event) : nat :=
  List.length (calls kind t).

(** The platform calls made between state [s] and a later state [s']. *)
Definition since (s s' : state) : list event :=
  skipn (List.length (trace s)) (trace s').

(** A list of calls of [::close(fd)]. *)
Definition closes_of (fd : Z) (cl : list event) : Prop :=
  Forall (fun e => fst e = sys_close fd) cl.

(** The values returned by the calls of one kind. *)
Definition reported (kind : syscall -> bool) (t : list event) : list Z :=
  map (fun e => ret (snd e)) (calls kind t).

(** A call of the kind failed (returned a negative value). *)
Definition failed (kind : syscall -> bool) (t : list event) : bool :=
  existsb (fun r => r <? 0) (reported kind t).

(** ** The platform's side of [::close] and [::open] *)

(** [::close] failed with [-1] and left [EINTR] in [errno]: the condition
    under which TEMP_FAILURE_RETRY evaluates its expression again. *)
Definition interrupted (r : reply) : bool := (ret r =? -1) && (err r =? EINTR).

(** The history after [n] consecutive calls of [::close(fd)] from history [h]. *)
Fixpoint retries (P : Platform) (fd : Z) (n : nat) (h : list event) : list event :=
  match n with
  | O => h
  | S n' => retries P fd n' (h ++ [(sys_close fd, P h (sys_close fd))])%list
  end.

(** The platform's answer to the call of [::close(fd)] that follows [n]
    earlier ones. *)
Definition nth_close (P : Platform) (fd : Z) (h : list event) (n : nat) : reply :=
  P (retries P fd n h) (sys_close fd).

(** Whatever came before, at most [k] calls of [::close] in a row are
    interrupted. *)
Definition close_settles (P : Platform) (k : nat) : Prop :=
  forall h fd, exists n, (n <= k)%nat /\ interrupted (nth_close P fd h n) = false.

(** [::open] gives a descriptor or [-1] (POSIX). *)
Definition open_posix (P : Platform) : Prop :=
  forall h path flags, -1 <= ret (P h (sys_open path flags)).

(** * Sessions *)

(** ** Sessions with one transfer *)

(** [Read] and the two [Write]s differ only in the platform call they make
    between [Open] and [Close], and in the two strings they hand to the
    constructor of the exception. *)
Definition transfer (busfile : string) (fuel : nat) (c : Z -> syscall) (len : Z)
           (addr : byte) (arg1 arg2 : string) : prog unit :=
  lock_guard (
    Open busfile fuel addr ;;
    file <- load_file ;;
    r <- call (c file) ;;
    Close fuel ;;
    if negb (ret r =? len) then
      iexc <- new_I2CException arg1 arg2 ;; Throw iexc
    else Ret tt).

Definition Open_arg1 : string := "I2CBus::Open(addr)".

Definition Open_no_bus (busfile : string) : string :=
  "Unable to open I2C Bus file " ++ busfile.

Definition Open_no_device (addr : byte) : string :=
  "Unable to find device address " ++ "0x" ++ hex_upper_w2 (Byte.to_N addr).

Definition Xfer_arg1 : string := "I2CConnection::Xfer(odat, olen, idat, ilen, i2caddr)".

Section TransferResult.

Variable busfile : string.
Variable P : Platform.
Variable c : Z -> syscall.
Variable len : Z.
Variable addr : byte.
Variables arg1 arg2 : string.
Variable s : state.

(** The platform calls of the session and the platform's answers. *)
Let c1 := sys_open busfile O_RDWR.
Let r1 := P (trace s) c1.
Let fd := ret r1.
Let c2 := sys_ioctl fd I2C_SLAVE (uint8 addr).
Let r2 := P (trace s ++ [(c1, r1)])%list c2.
Let c3 := c fd.
Let r3 := P (trace s ++ [(c1, r1); (c2, r2)])%list c3.

(** Every way a session with one transfer can end. *)
Inductive transfer_result : outcome unit -> state -> Prop :=
| transfer_no_bus (rt : reply) (s' : state) :
    fd < 0 ->
    rt = P (trace s ++ [(c1, r1)])%list sys_time ->
    trace s' = (trace s ++ [(c1, r1); (sys_time, rt)])%list ->
    file s' = fd -> mtx s' = false -> data s' = data s ->
    transfer_result
      (Raised (mkException T_I2CException Open_arg1 (Open_no_bus busfile) (ret rt))) s'
| transfer_no_device (cl : list event) (rt : reply) (s' : state) :
    0 <= fd -> ret r2 < 0 ->
    closes_of fd cl -> cl <> [] ->
    rt = P (trace s ++ [(c1, r1); (c2, r2)] ++ cl)%list sys_time ->
    trace s' = (trace s ++ [(c1, r1); (c2, r2)] ++ cl ++ [(sys_time, rt)])%list ->
    file s' = -1 -> mtx s' = false -> data s' = data s ->
    transfer_result
      (Raised (mkException T_I2CNotFoundException Open_arg1 (Open_no_device addr) (ret rt))) s'
| transfer_mismatch (cl : list event) (rt : reply) (s' : state) :
    0 <= fd -> 0 <= ret r2 -> ret r3 <> len ->
    closes_of fd cl -> cl <> [] ->
    rt = P (trace s ++ [(c1, r1); (c2, r2); (c3, r3)] ++ cl)%list sys_time ->
    trace s' = (trace s ++ [(c1, r1); (c2, r2); (c3, r3)] ++ cl ++ [(sys_time, rt)])%list ->
    file s' = -1 -> mtx s' = false -> data s' = data (after c3 r3 s) ->
    transfer_result (Raised (mkException T_I2CException arg1 arg2 (ret rt))) s'
| transfer_done (cl : list event) (s' : state) :
    0 <= fd -> 0 <= ret r2 -> ret r3 = len ->
    closes_of fd cl -> cl <> [] ->
    trace s' = (trace s ++ [(c1, r1); (c2, r2); (c3, r3)] ++ cl)%list ->
    file s' = -1 -> mtx s' = false -> data s' = data (after c3 r3 s) ->
    transfer_result (Returned tt) s'
| transfer_spinning (s' : state) :
    0 <= fd ->
    transfer_result Spinning s'.

End TransferResult.

(** ** Sessions of [Xfer] *)

Section XferResult.

Variable busfile : string.
Variable P : Platform.
Variable odat : list byte.
Variables olen ilen : Z.
Variable i2caddr : byte.
Variable s : state.

(** The platform calls of the session and the platform's answers. *)
Let c1 := sys_open busfile O_RDWR.
Let r1 := P (trace s) c1.
Let fd := ret r1.
Let c2 := sys_ioctl fd I2C_SLAVE (uint8 i2caddr).
Let r2 := P (trace s ++ [(c1, r1)])%list c2.
Let c3 := sys_write fd odat (size_t_of_int olen).
Let r3 := P (trace s ++ [(c1, r1); (c2, r2)])%list c3.
Let c4 := sys_read fd (size_t_of_int ilen).
Let r4 := P (trace s ++ [(c1, r1); (c2, r2); (c3, r3)])%list c4.

(** Every way a session of [Xfer] can end. *)
Inductive Xfer_result : outcome unit -> state -> Prop :=
| Xfer_no_bus (rt : reply) (s' : state) :
    fd < 0 ->
    rt = P (trace s ++ [(c1, r1)])%list sys_time ->
    trace s' = (trace s ++ [(c1, r1); (sys_time, rt)])%list ->
    file s' = fd -> mtx s' = false -> data s' = data s ->
    Xfer_result
      (Raised (mkException T_I2CException Open_arg1 (Open_no_bus busfile) (ret rt))) s'
| Xfer_no_device (cl : list event) (rt : reply) (s' : state) :
    0 <= fd -> ret r2 < 0 ->
    closes_of fd cl -> cl <> [] ->
    rt = P (trace s ++ [(c1, r1); (c2, r2)] ++ cl)%list sys_time ->
    trace s' = (trace s ++ [(c1, r1); (c2, r2)] ++ cl ++ [(sys_time, rt)])%list ->
    file s' = -1 -> mtx s' = false -> data s' = data s ->
    Xfer_result
      (Raised (mkException T_I2CNotFoundException Open_arg1
                           (Open_no_device i2caddr) (ret rt))) s'
| Xfer_short_write (cl : list event) (rt : reply) (s' : state) :
    0 <= fd -> 0 <= ret r2 -> ret r3 <> olen ->
    closes_of fd cl -> cl <> [] ->
    rt = P (trace s ++ [(c1, r1); (c2, r2); (c3, r3)] ++ cl)%list sys_time ->
    trace s' = (trace s ++ [(c1, r1); (c2, r2); (c3, r3)] ++ cl ++ [(sys_time, rt)])%list ->
    file s' = -1 -> mtx s' = false -> data s' = data s ->
    Xfer_result
      (Raised (mkException T_I2CException Xfer_arg1 "Write length error." (ret rt))) s'
| Xfer_short_read (cl : list event) (rt : reply) (s' : state) :
    0 <= fd -> 0 <= ret r2 -> ret r3 = olen -> ret r4 <> ilen ->
    closes_of fd cl -> cl <> [] ->
    rt = P (trace s ++ [(c1, r1); (c2, r2); (c3, r3); (c4, r4)] ++ cl)%list sys_time ->
    trace s' = (trace s ++ [(c1, r1); (c2, r2); (c3, r3); (c4, r4)] ++ cl
                        ++ [(sys_time, rt)])%list ->
    file s' = -1 -> mtx s' = false -> data s' = overwrite (bytes r4) (data s) ->
    Xfer_result
      (Raised (mkException T_I2CException Xfer_arg1 "Read length error." (ret rt))) s'
| Xfer_done (cl : list event) (s' : state) :
    0 <= fd -> 0 <= ret r2 -> ret r3 = olen -> ret r4 = ilen ->
    closes_of fd cl -> cl <> [] ->
    trace s' = (trace s ++ [(c1, r1); (c2, r2); (c3, r3); (c4, r4)] ++ cl)%list ->
    file s' = -1 -> mtx s' = false -> data s' = overwrite (bytes r4) (data s) ->
    Xfer_result (Returned tt) s'
| Xfer_spinning (s' : state) :
    0 <= fd ->
    Xfer_result Spinning s'.

End XferResult.

(** * Vocabulary of the properties *)

(** Program [p], run from [s], checks the count that its platform call of
    the given kind reports against [len]: it returns only when the count is
    [len], and it throws an [I2CException] when the count is another. *)
Definition length_checked (P : Platform) (p : prog unit) (kind : syscall -> bool)
           (len : Z) (s : state) : Prop :=
  let o := fst (run P p s) in
  let t := since s (snd (run P p s)) in
  (o = Returned tt -> reported kind t = [len])
  /\ (forall n, In n (reported kind t) -> n <> len ->
      o <> Returned tt
      /\ exists e, o = Raised e /\ exc_type e = T_I2CException).

(** The calls [t] of a session that ended in the binding failure: the handle
    that [::open] gave was bound without success, then handed to [::close],
    and only then was the exception built. *)
Definition closed_before_raise (t : list event) : Prop :=
  exists path flags r1 c2 r2 cl rt,
    t = ([(sys_open path flags, r1); (c2, r2)] ++ cl ++ [(sys_time, rt)])%list
    /\ is_ioctl c2 = true /\ ret r2 < 0
    /\ closes_of (ret r1) cl /\ cl <> [].

(** Program [p], run from [s], throws [I2CNotFoundException] exactly when
    its [ioctl] failed, and has then closed the handle. *)
Definition not_found_law (P : Platform) (p : prog unit) (s : state) : Prop :=
  let o := fst (run P p s) in
  let s' := snd (run P p s) in
  (failed is_ioctl (since s s') = true <->
   exists e, o = Raised e /\ exc_type e = T_I2CNotFoundException)
  /\ (failed is_ioctl (since s s') = true ->
      file s' = -1 /\ closed_before_raise (since s s')).

(** Program [p], a session on the device at [addr], run from [s] on a
    platform whose [::open] gives a descriptor: the second platform call is
    the [ioctl] that configures the address; when the platform answers it
    with a negative value the session hands the descriptor to [::close],
    throws the [I2CNotFoundException] of [Open] and makes no other call;
    when the platform accepts the address every exception of the session
    is the generic one. *)
Definition binding_law (busfile : string) (P : Platform) (p : prog unit)
           (addr : byte) (s : state) : Prop :=
  let c1 := sys_open busfile O_RDWR in
  let r1 := P (trace s) c1 in
  let fd := ret r1 in
  let c2 := sys_ioctl fd I2C_SLAVE (uint8 addr) in
  let r2 := P (trace s ++ [(c1, r1)])%list c2 in
  let o := fst (run P p s) in
  let s' := snd (run P p s) in
  0 <= fd ->
  (exists rest, since s s' = (c1, r1) :: (c2, r2) :: rest)
  /\ (ret r2 < 0 ->
      exists cl rt,
        o = Raised (mkException T_I2CNotFoundException "I2CBus::Open(addr)"
                      ("Unable to find device address 0x"
                         ++ hex_upper_w2 (Byte.to_N addr)) (ret rt))
        /\ since s s' = ([(c1, r1); (c2, r2)] ++ cl ++ [(sys_time, rt)])%list
        /\ closes_of fd cl /\ cl <> []
        /\ file s' = -1 /\ mtx s' = false)
  /\ (0 <= ret r2 -> forall e, o = Raised e -> exc_type e = T_I2CException).

(** Program [p], run from [s], ends by return or by exception, and leaves
    the handle closed: [file == -1]. *)
Definition closed_after (P : Platform) (p : prog unit) (s : state) : Prop :=
  let o := fst (run P p s) in
  let s' := snd (run P p s) in
  (o = Returned tt \/ exists e, o = Raised e) /\ file s' = -1.

(** The calls [t] of a session end with [::close] on the handle [fd],
    perhaps repeated, and then the one call of [time] made by the
    constructor of the exception: the handle was closed before the exception
    was built and thrown.  [phase] are the calls before. *)
Definition closed_then_raised (fd : Z) (phase t : list event) : Prop :=
  exists cl rt,
    t = (phase ++ cl ++ [(sys_time, rt)])%list /\ closes_of fd cl /\ cl <> [].

Definition Xfer_phases (busfile : string) (P : Platform) (fuel : nat)
           (odat : list byte) (olen ilen : Z) (i2caddr : byte) (s : state) : Prop :=
  let o := fst (run P (Xfer busfile fuel odat olen ilen i2caddr) s) in
  let s' := snd (run P (Xfer busfile fuel odat olen ilen i2caddr) s) in
  let t := since s s' in
  (* the read is attempted only after a write that reported [olen] *)
  (calls is_read t <> [] -> reported is_write t = [olen])
  (* a write that reports another count: generic failure, no read, handle closed *)
  /\ (forall n, In n (reported is_write t) -> n <> olen ->
      (exists e, o = Raised e /\ exc_type e = T_I2CException)
      /\ calls is_read t = []
      /\ file s' = -1
      /\ exists r1 r2 r3,
          closed_then_raised (ret r1)
            [(sys_open busfile O_RDWR, r1);
             (sys_ioctl (ret r1) I2C_SLAVE (uint8 i2caddr), r2);
             (sys_write (ret r1) odat (size_t_of_int olen), r3)] t)
  (* a read that reports another count: handle closed, then generic failure *)
  /\ (forall m, In m (reported is_read t) -> m <> ilen ->
      (exists e, o = Raised e /\ exc_type e = T_I2CException)
      /\ file s' = -1
      /\ exists r1 r2 r3 r4,
          closed_then_raised (ret r1)
            [(sys_open busfile O_RDWR, r1);
             (sys_ioctl (ret r1) I2C_SLAVE (uint8 i2caddr), r2);
             (sys_write (ret r1) odat (size_t_of_int olen), r3);
             (sys_read (ret r1) (size_t_of_int ilen), r4)] t).

(** [Xfer], run from [s] on a platform that gives a descriptor and accepts
    the address, by the platform's answers to the [::write] and to the
    [::read]: a write count other than [olen] gives [::close] and the generic
    exception with no [::read]; a write count [olen] is followed by the
    [::read], and a read count other than [ilen] gives [::close] and the
    generic exception; both counts as asked give [::close] and a return. *)
Definition Xfer_answers (busfile : string) (P : Platform) (fuel : nat)
           (odat : list byte) (olen ilen : Z) (i2caddr : byte) (s : state) : Prop :=
  let c1 := sys_open busfile O_RDWR in
  let r1 := P (trace s) c1 in
  let fd := ret r1 in
  let c2 := sys_ioctl fd I2C_SLAVE (uint8 i2caddr) in
  let r2 := P (trace s ++ [(c1, r1)])%list c2 in
  let c3 := sys_write fd odat (size_t_of_int olen) in
  let r3 := P (trace s ++ [(c1, r1); (c2, r2)])%list c3 in
  let c4 := sys_read fd (size_t_of_int ilen) in
  let r4 := P (trace s ++ [(c1, r1); (c2, r2); (c3, r3)])%list c4 in
  let o := fst (run P (Xfer busfile fuel odat olen ilen i2caddr) s) in
  let s' := snd (run P (Xfer busfile fuel odat olen ilen i2caddr) s) in
  0 <= fd -> 0 <= ret r2 ->
  (ret r3 <> olen ->
   exists cl rt,
     o = Raised (mkException T_I2CException
                   "I2CConnection::Xfer(odat, olen, idat, ilen, i2caddr)"
                   "Write length error." (ret rt))
     /\ since s s' = ([(c1, r1); (c2, r2); (c3, r3)] ++ cl ++ [(sys_time, rt)])%list
     /\ closes_of fd cl /\ cl <> []
     /\ calls is_read (since s s') = []
     /\ file s' = -1 /\ data s' = data s)
  /\ (ret r3 = olen -> ret r4 <> ilen ->
      exists cl rt,
        o = Raised (mkException T_I2CException
                      "I2CConnection::Xfer(odat, olen, idat, ilen, i2caddr)"
                      "Read length error." (ret rt))
        /\ since s s' = ([(c1, r1); (c2, r2); (c3, r3); (c4, r4)] ++ cl
                           ++ [(sys_time, rt)])%list
        /\ closes_of fd cl /\ cl <> []
        /\ file s' = -1)
  /\ (ret r3 = olen -> ret r4 = ilen ->
      exists cl,
        o = Returned tt
        /\ since s s' = ([(c1, r1); (c2, r2); (c3, r3); (c4, r4)] ++ cl)%list
        /\ closes_of fd cl /\ cl <> []
        /\ file s' = -1 /\ data s' = overwrite (bytes r4) (data s)).

(** The reading of the specification: after a first [::close] that was
    interrupted, [Close] calls [::close] once more and returns, so that two
    calls are made in all. *)
Definition retried_exactly_once (P : Platform) (fuel : nat) (s : state) : Prop :=
  let r0 := P (trace s) (sys_close (file s)) in
  file s <> -1 -> ret r0 < 0 -> err r0 = EINTR ->
  fst (run P (Close fuel) s) = Returned tt
  /\ count is_close (since s (snd (run P (Close fuel) s))) = 2%nat.

(** No platform call of the session other than [::close] is made twice. *)
Definition called_at_most_once (P : Platform) (p : prog unit) (s : state) : Prop :=
  let t := since s (snd (run P p s)) in
  (count is_open t <= 1)%nat /\ (count is_ioctl t <= 1)%nat
  /\ (count is_read t <= 1)%nat /\ (count is_write t <= 1)%nat.

(** Two results that differ at most in the [message] member of the
    exception (where the throw sites put the name of the operation). *)
Definition same_failure (x y : outcome unit * state) : Prop :=
  snd x = snd y
  /\ match fst x, fst y with
     | Returned _, Returned _ => True
     | Raised e1, Raised e2 =>
         exc_type e1 = exc_type e2 /\ procname e1 = procname e2
         /\ timeof_exc e1 = timeof_exc e2
     | Spinning, Spinning => True
     | Blocked, Blocked => True
     | _, _ => False
     end.

Definition Write_string_law (busfile : string) (P : Platform) (fuel : nat)
           (dat : string) (addr : byte) (s : state) : Prop :=
  let o := fst (run P (Write_string busfile fuel dat addr) s) in
  let s' := snd (run P (Write_string busfile fuel dat addr) s) in
  let t := since s s' in
  (* what is handed to [::write]: the payload and its length *)
  (forall c r, In (c, r) (calls is_write t) ->
               exists fd, c = sys_write fd (c_str dat) (size dat))
  /\ firstn (Z.to_nat (size dat)) (c_str dat) = list_byte_of_string dat
  (* the count that [::write] reports is checked against that length *)
  /\ length_checked P (Write_string busfile fuel dat addr) is_write (size dat) s
  /\ ((exists e, o = Raised e /\ exc_type e = T_I2CException
                 /\ procname e = "Write length error.")
      <-> exists n, reported is_write t = [n] /\ n <> size dat)
  (* as [Write(data, len, addr)] does on the same bytes and length *)
  /\ same_failure (run P (Write_string busfile fuel dat addr) s)
                  (run P (Write busfile fuel (c_str dat) (size dat) addr) s).

Definition failed_Read_keeps_bytes (busfile : string) (P : Platform) (fuel : nat)
           (len : Z) (addr : byte) (s : state) : Prop :=
  let o := fst (run P (Read busfile fuel len addr) s) in
  let s' := snd (run P (Read busfile fuel len addr) s) in
  forall e,
    o = Raised e -> procname e = "Read length error." ->
    exists fd r,
      calls is_read (since s s') = [(sys_read fd (size_t_of_int len), r)]
      /\ ret r <> len
      /\ data s' = overwrite (bytes r) (data s)
      /\ firstn (List.length (bytes r)) (data s') = bytes r
      /\ skipn (List.length (bytes r)) (data s')
         = skipn (List.length (bytes r)) (data s).

(** ** The convenience variant of [Xfer] *)



(** ** Platforms of the scenarios *)

(** Scenario A of the specification: the transfer of one byte is reported
    whole. *)
Definition scenario_A : Platform := scripted [ok 3; ok 0; got [x2a]; ok 0].

(** Scenario B of the specification: a read of four bytes of which the
    platform delivers two. *)
Definition scenario_B : Platform :=
  scripted [ok 3; ok 0; got [x01; x02]; ok 0; ok 1000].

(** Scenario C of the specification: no device acknowledges address 0x77. *)
Definition scenario_C : Platform := scripted [ok 3; fail 121; ok 0; ok 1000].

(** Scenario D of the specification: the write of one byte and the read of
    two both succeed. *)
Definition scenario_D : Platform := scripted [ok 3; ok 0; ok 1; got [x0a; x0b]; ok 0].

(** Scenario E of the specification: the write of [Xfer] reports no byte. *)
Definition scenario_E : Platform := scripted [ok 3; ok 0; ok 0; ok 0; ok 1000].

(** A platform on which the first two calls of [::close] are interrupted. *)
Definition interrupted_twice : Platform :=
  scripted [fail EINTR; fail EINTR; ok 0].

(** A bus in the middle of a session: descriptor 3 is open. *)
Definition in_session : state :=
  {| file := 3; mtx := true; errno := 0; data := []; trace := [] |}.

(** A platform that reports two bytes written. *)
Definition two_bytes_written : Platform := scripted [ok 3; ok 0; ok 2; ok 0].

(** * Two threads on one bus *)

Inductive thread : Type := T1 | T2.

Definition other (t : thread) : thread :=
  match t with T1 => T2 | T2 => T1 end.

(** What a thread owns: the rest of its program, its [errno], and the
    buffer it passed to the operation. *)
Record thread_state : Type := mkThread {
  t_prog  : prog unit;
  t_errno : Z;
  t_data  : list byte
}.

(** The bus ([file], the mutex) and the platform's log are shared;
    [c_callers] tells which thread made each call of [c_trace]. *)
Record config : Type := mkConfig {
  c_file    : Z;
  c_mtx     : bool;
  c_trace   : list event;
  c_callers : list thread;
  c_T1      : thread_state;
  c_T2      : thread_state
}.

Definition thread_of (t : thread) (g : config) : thread_state :=
  match t with T1 => c_T1 g | T2 => c_T2 g end.

(** The state that thread [t] sees. *)
Definition view (t : thread) (g : config) : state :=
  {| file := c_file g; mtx := c_mtx g;
     errno := t_errno (thread_of t g); data := t_data (thread_of t g);
     trace := c_trace g |}.

(** The configuration after thread [t] did action [a] and went from its
    view to [s'], with [p] left to run. *)
Definition commit (t : thread) (a : action) (s' : state) (p : prog unit)
           (g : config) : config :=
  let th := {| t_prog := p; t_errno := errno s'; t_data := data s' |} in
  {| c_file := file s'; c_mtx := mtx s'; c_trace := trace s';
     c_callers := match a with
                  | Sys _ => (c_callers g ++ [t])%list
                  | _ => c_callers g
                  end;
     c_T1 := match t with T1 => th | T2 => c_T1 g end;
     c_T2 := match t with T1 => c_T2 g | T2 => th end |}.

(** One step of thread [t]: its next action, when it has one and is not
    blocked by the mutex. *)
Definition step (P : Platform) (t : thread) (g : config) : config :=
  match t_prog (thread_of t g) with
  | Do a k =>
      match perform P a (view t g) with
      | Some (r, s') => commit t a s' (k r) g
      | None => g
      end
  | _ => g
  end.

(** A schedule names the thread that runs next, step after step. *)
Definition exec (P : Platform) (schedule : list thread) (g : config) : config :=
  fold_left (fun g t => step P t g) schedule g.

(** Two threads about to call [p1] and [p2] on a bus just constructed. *)
Definition start (p1 p2 : prog unit) (errno1 errno2 : Z) (data1 data2 : list byte)
  : config :=
  {| c_file := -1; c_mtx := false; c_trace := []; c_callers := [];
     c_T1 := mkThread p1 errno1 data1;
     c_T2 := mkThread p2 errno2 data2 |}.

(** The public operations of a bus. *)
Inductive public_operation (busfile : string) : prog unit -> Prop :=
| call_Read (fuel : nat) (len : Z) (addr : byte) :
    public_operation busfile (Read busfile fuel len addr)
| call_Write (fuel : nat) (data : list byte) (len : Z) (addr : byte) :
    public_operation busfile (Write busfile fuel data len addr)
| call_Write_string (fuel : nat) (dat : string) (addr : byte) :
    public_operation busfile (Write_string busfile fuel dat addr)
| call_Xfer (fuel : nat) (odat : list byte) (olen ilen : Z) (i2caddr : byte) :
    public_operation busfile (Xfer busfile fuel odat olen ilen i2caddr).

(** The platform calls with their callers. *)
Definition calls_by (g : config) : list (thread * event) :=
  combine (c_callers g) (c_trace g).

(** All the calls of one thread come before all the calls of the other. *)
Definition no_interleaving (g : config) : Prop :=
  List.length (c_callers g) = List.length (c_trace g)
  /\ exists first l1 l2,
      calls_by g = (l1 ++ l2)%list
      /\ Forall (fun x => fst x = first) l1
      /\ Forall (fun x => fst x = other first) l2.

(** What is left of a program that ran to outcome [o]. *)
Definition ended_as (o : outcome unit) (p : prog unit) : Prop :=
  match o with
  | Returned a => p = Ret a
  | Raised e   => p = Throw e
  | Spinning   => p = Spin
  | Blocked    => exists k, p = Do MtxLock k
  end.

(** ** The shape of a program with respect to the mutex *)

Definition touches_mutex (a : action) : bool :=
  match a with MtxLock | MtxUnlock => true | _ => false end.

(** No locking or unlocking inside. *)
Fixpoint lockfree {A : Type} (p : prog A) : Prop :=
  match p with
  | Do a k => touches_mutex a = false /\ forall r, lockfree (k r)
  | _ => True
  end.

Definition finished {A : Type} (p : prog A) : Prop :=
  match p with Ret _ | Throw _ => True | _ => False end.

(** Inside the scope of the [lock_guard]: actions that leave the mutex
    alone, up to the unlock that ends the program. *)
Fixpoint holding {A : Type} (p : prog A) : Prop :=
  match p with
  | Do MtxUnlock k => forall r, finished (k r)
  | Do MtxLock _ => False
  | Do _ k => forall r, holding (k r)
  | Spin => True
  | Ret _ | Throw _ => False
  end.

(** About to construct the [lock_guard]. *)
Definition waiting {A : Type} (p : prog A) : Prop :=
  match p with
  | Do MtxLock k => forall r, holding (k r)
  | _ => False
  end.

(** ** The invariant of the two-thread runs *)

Definition prog_of (t : thread) (g : config) : prog unit := t_prog (thread_of t g).

(** The calls of one thread, then the calls of the other. *)
Definition serial (l : list thread) : Prop :=
  exists a n m, l = (repeat a n ++ repeat (other a) m)%list.

Record invariant (g : config) : Prop := mkInvariant {
  (* each thread is before, inside or after its session *)
  inv_phase : forall t,
      waiting (prog_of t g) \/ holding (prog_of t g) \/ finished (prog_of t g);
  (* the mutex is held exactly while one thread is inside its session *)
  inv_free : c_mtx g = false -> forall t, ~ holding (prog_of t g);
  inv_excl : forall t, holding (prog_of t g) -> ~ holding (prog_of (other t) g);
  (* a thread before its session has made no call *)
  inv_waiting : forall t, waiting (prog_of t g) -> ~ In t (c_callers g);
  (* the calls of the thread inside its session are the last ones *)
  inv_holding : forall t,
      holding (prog_of t g) ->
      exists m n, c_callers g = (repeat (other t) m ++ repeat t n)%list;
  inv_serial : serial (c_callers g);
  inv_length : List.length (c_callers g) = List.length (c_trace g)
}.

(** Two writes of different payloads, the threads taking turns step by step. *)
Definition taking_turns : list thread :=
  List.concat (repeat [T1; T2] 40).

Definition two_writes : Platform :=
  scripted [ok 3; ok 0; ok 2; ok 0; ok 3; ok 0; ok 3; ok 0].

(** * Vocabulary of the further properties *)

(** ** The text of the address *)

(** The value of an uppercase hexadecimal digit. *)
Definition hex_value (a : ascii) : option N :=
  let n := N_of_ascii a in
  if ((48 <=? n) && (n <=? 57))%N then Some (n - 48)%N
  else if ((65 <=? n) && (n <=? 70))%N then Some (n - 55)%N
  else None.

(** The number that two uppercase hexadecimal digits write. *)
Definition parse_hex2 (s : string) : option N :=
  match s with
  | String a (String b EmptyString) =>
      match hex_value a, hex_value b with
      | Some x, Some y => Some (16 * x + y)%N
      | _, _ => None
      end
  | _ => None
  end.

(** ** Descriptors and calls *)

(** The descriptor a platform call is made on. *)
Definition fd_of (c : syscall) : option Z :=
  match c with
  | sys_ioctl fd _ _ | sys_read fd _ | sys_write fd _ _ | sys_close fd => Some fd
  | sys_open _ _ | sys_time => None
  end.

(** The test of [Close] after its first [::close(file)]:
    [closeresult < 0] and [errno == EINTR]. *)
Definition close_interrupted (r : reply) : bool := (ret r <? 0) && (err r =? EINTR).

(** A platform that never interrupts [::close]. *)
Definition never_interrupts (P : Platform) : Prop :=
  forall h fd, close_interrupted (P h (sys_close fd)) = false.

Definition INT_MIN : Z := - 2 ^ 31.

(** ** Laws of the sessions *)

(** Program [p], run from [s] on bus [busfile] when [::open] fails: the
    generic exception with the text that names the bus file, no platform
    call but that [::open] and the [time] of the exception, the mutex
    released. *)
Definition bus_unavailable_law (busfile : string) (P : Platform) (p : prog unit)
           (s : state) : Prop :=
  let r1 := P (trace s) (sys_open busfile O_RDWR) in
  let o := fst (run P p s) in
  let s' := snd (run P p s) in
  ret r1 < 0 ->
  exists rt,
    o = Raised (mkException T_I2CException "I2CBus::Open(addr)"
                            ("Unable to open I2C Bus file " ++ busfile) (ret rt))
    /\ since s s' = [(sys_open busfile O_RDWR, r1); (sys_time, rt)]
    /\ file s' = ret r1 /\ mtx s' = false /\ data s' = data s.

(** Program [p] and the mutex: called while the mutex is held it only
    waits; called with the mutex free it is never blocked, and when it ends
    the mutex is free again. *)
Definition mutex_law (P : Platform) (p : prog unit) (s : state) : Prop :=
  (mtx s = true -> run P p s = (Blocked, s))
  /\ (mtx s = false ->
      fst (run P p s) <> Blocked
      /\ (fst (run P p s) <> Spinning -> mtx (snd (run P p s)) = false)).

(** Every call of the session that is made on a descriptor is made on the
    one that the [::open] of the session returned. *)
Definition own_descriptor_law (busfile : string) (P : Platform) (p : prog unit)
           (s : state) : Prop :=
  let fd0 := ret (P (trace s) (sys_open busfile O_RDWR)) in
  forall c r fd,
    In (c, r) (since s (snd (run P p s))) -> fd_of c = Some fd -> fd = fd0.

(** The session makes one call of [::close] when [::open] gave a
    descriptor, and none when [::open] failed; it ends whatever the fuel. *)
Definition closes_once_law (busfile : string) (P : Platform) (p : prog unit)
           (s : state) : Prop :=
  let r1 := P (trace s) (sys_open busfile O_RDWR) in
  let o := fst (run P p s) in
  let s' := snd (run P p s) in
  (o = Returned tt \/ exists e, o = Raised e)
  /\ count is_close (since s s') = (if ret r1 <? 0 then 0%nat else 1%nat)
  /\ (0 <= ret r1 -> In (sys_close (ret r1)) (map fst (since s s'))).

(** The time stamp of an exception thrown by a session on [busfile] is
    the answer to the last platform call of the operation, its only call of
    [time].  When [::open] gave a descriptor that call comes after the calls
    of [::close] on the descriptor, the only ones of the operation, and
    [file] is [-1]; when [::open] failed it follows the [::open]. *)
Definition time_stamp_law (busfile : string) (P : Platform) (p : prog unit)
           (s : state) : Prop :=
  let c1 := sys_open busfile O_RDWR in
  let r1 := P (trace s) c1 in
  forall e,
    fst (run P p s) = Raised e ->
    exists calls rt,
      since s (snd (run P p s)) = (calls ++ [(sys_time, rt)])%list
      /\ count is_time calls = 0%nat
      /\ when e = ret rt
      /\ (ret r1 < 0 -> calls = [(c1, r1)])
      /\ (0 <= ret r1 ->
          file (snd (run P p s)) = -1
          /\ exists before cl,
              calls = (before ++ cl)%list
              /\ count is_close before = 0%nat
              /\ closes_of (ret r1) cl /\ cl <> []).

(** A platform on which the bus file cannot be opened. *)
Definition no_bus : Platform := scripted [fail 2; ok 1000].

(** A platform on which [::close] fails with an error other than [EINTR]
    (5 is [EIO]). *)
Definition close_fails : Platform := scripted [fail 5].

(** A platform on which [::read] fails. *)
Definition read_fails : Platform := scripted [ok 3; ok 0; fail 5; ok 0].

(** Call [e] is made on descriptor [fd], or on none. *)
Definition on_descriptor (fd : Z) (e : event) : Prop :=
  forall fd', fd_of (fst e) = Some fd' -> fd' = fd.

(** From [s] to [s'] the platform was called only on descriptor [fd]. *)
Definition extends_on (fd : Z) (s s' : state) : Prop :=
  exists ext, trace s' = (trace s ++ ext)%list /\ Forall (on_descriptor fd) ext.

(** ** [Close] when [::close] is not interrupted *)

(** The state that [Close] leaves when its first [::close(file)] is not
    interrupted: [errno] was reset, [::close] was called once, [file] is [-1]. *)
Definition quiet_close (P : Platform) (s : state) : state :=
  with_file (-1) (closed_once (P (trace s) (sys_close (file s))) (with_errno 0 s)).

(** [Close], run on an open handle when the platform does not interrupt
    [::close]: one call, no retry, no exception even when [::close] failed;
    only [errno] tells. *)
Definition Close_quiet_law (P : Platform) (fuel : nat) (s : state) : Prop :=
  let r := P (trace s) (sys_close (file s)) in
  let o := fst (run P (Close fuel) s) in
  let s' := snd (run P (Close fuel) s) in
  o = Returned tt
  /\ since s s' = [(sys_close (file s), r)]
  /\ file s' = -1
  /\ errno s' = (if ret r <? 0 then err r else 0)
  /\ mtx s' = mtx s /\ data s' = data s.

(** ** What is left in [errno] *)

(** A platform on which [::close] and [time] always succeed. *)
Definition close_and_time_succeed (P : Platform) : Prop :=
  forall h, (forall fd, 0 <= ret (P h (sys_close fd))) /\ 0 <= ret (P h sys_time).

(** The [errno] that program [p], run from [s], leaves to its caller: the
    error of [::open] when [::open] failed, and [0] in every other case,
    whatever [ioctl], [::read] or [::write] had left there. *)
Definition errno_law (busfile : string) (P : Platform) (p : prog unit)
           (s : state) : Prop :=
  let r1 := P (trace s) (sys_open busfile O_RDWR) in
  let s' := snd (run P p s) in
  (ret r1 < 0 -> errno s' = err r1) /\ (0 <= ret r1 -> errno s' = 0).

(** ** A negative length *)

(** Program [p] is a session called with a negative [len] on a device that
    answers: [c fd] is the transfer it asks the platform for, [name] and
    [text] are the two arguments of its length error.  The transfer is made;
    the session returns normally exactly when the platform call returned
    [len], that is, when it failed with that value; and whatever else the
    call returned, the session throws its length error. *)
Definition negative_length_law (busfile : string) (P : Platform) (p : prog unit)
           (c : Z -> syscall) (name text : string) (len : Z) (addr : byte)
           (s : state) : Prop :=
  let c1 := sys_open busfile O_RDWR in
  let r1 := P (trace s) c1 in
  let fd := ret r1 in
  let c2 := sys_ioctl fd I2C_SLAVE (uint8 addr) in
  let r2 := P (trace s ++ [(c1, r1)])%list c2 in
  let r3 := P (trace s ++ [(c1, r1); (c2, r2)])%list (c fd) in
  0 <= fd -> 0 <= ret r2 ->
  In (c fd, r3) (since s (snd (run P p s)))
  /\ (ret r3 = len -> ret r3 < 0 /\ fst (run P p s) = Returned tt)
  /\ (ret r3 <> len ->
      exists rt,
        fst (run P p s) = Raised (mkException T_I2CException name text (ret rt))
        /\ In (sys_time, rt) (since s (snd (run P p s)))).

(** A platform on which no device answers: [ioctl] fails (121 is
    [EREMOTEIO]), every other call succeeds. *)
Definition device_absent : Platform :=
  fun _ c =>
    match c with
    | sys_open _ _ => ok 3
    | sys_ioctl _ _ _ => fail 121
    | sys_time => ok 1000
    | _ => ok 0
    end.

(** ** The life of a bus object *)

(** A call of [::close] on descriptor [fd]. *)
Definition is_close_of (fd : Z) (c : syscall) : bool :=
  match c with sys_close fd' => fd' =? fd | _ => false end.

(** A bus object on which [p] is called in state [s] and which is then
    destroyed: the operation ends and leaves [file == -1]; the destructor
    returns without a platform call; over the whole life [::close] is
    called once when [::open] gave a descriptor and not at all when it
    failed, so no descriptor is closed twice. *)
Definition lifecycle_law (busfile : string) (P : Platform) (p : prog unit)
           (fuel : nat) (s : state) : Prop :=
  let r1 := P (trace s) (sys_open busfile O_RDWR) in
  let x := run P p s in
  let y := run P (I2CBus_destructor fuel) (snd x) in
  (fst x = Returned tt \/ exists e, fst x = Raised e)
  /\ file (snd x) = -1
  /\ fst y = Returned tt
  /\ since (snd x) (snd y) = []
  /\ file (snd y) = -1 /\ mtx (snd y) = false
  /\ count is_close (since s (snd y)) = (if ret r1 <? 0 then 0%nat else 1%nat)
  /\ forall fd, (count (is_close_of fd) (since s (snd y)) <= 1)%nat.

(** ** Concurrent runs and sequential runs *)

(** The run of [schedule] from [g0] ends in the configuration of a run in
    which one thread takes all its steps first, and in which the second
    thread moves only after the first has finished. *)
Definition serializable (P : Platform) (g0 : config) (schedule : list thread) : Prop :=
  exists a n m,
    exec P schedule g0 = exec P (repeat a n ++ repeat (other a) m)%list g0
    /\ (m = 0%nat \/ finished (prog_of a (exec P (repeat a n) g0))).

(** What the second caller sees when the first has ended in [s]: the bus
    and the platform's log as they were left, its own [errno] and buffer. *)
Definition handover (s : state) (th : thread_state) : state :=
  {| file := file s; mtx := mtx s; errno := t_errno th; data := t_data th;
     trace := trace s |}.

(** Configuration [g] is what calling the operation of thread [a] and then,
    on the bus it left, the operation of the other thread gives from [g0]:
    the same bus, log, buffers, [errno]s and outcomes. *)
Definition sequential_result (P : Platform) (a : thread) (g0 g : config) : Prop :=
  let xa := run P (prog_of a g0) (view a g0) in
  let xb := run P (prog_of (other a) g0)
                (handover (snd xa) (thread_of (other a) g0)) in
  view (other a) g = snd xb
  /\ t_errno (thread_of a g) = errno (snd xa)
  /\ t_data (thread_of a g) = data (snd xa)
  /\ ended_as (fst xa) (prog_of a g)
  /\ ended_as (fst xb) (prog_of (other a) g).

(** ** A [::close] that is always interrupted *)

(** Every call of [::close] fails with [EINTR]. *)
Definition always_interrupts (P : Platform) : Prop :=
  forall h fd, interrupted (P h (sys_close fd)) = true.

(** Program [p], run from [s], is still in the retry loop of [Close] when
    the fuel ends, whatever the fuel, with the mutex held: every public
    operation called then only waits. *)
Definition stuck_law (busfile : string) (P : Platform) (p : prog unit)
           (s : state) : Prop :=
  let o := fst (run P p s) in
  let s' := snd (run P p s) in
  o = Spinning /\ mtx s' = true
  /\ forall p', public_operation busfile p' -> run P p' s' = (Blocked, s').

(** A platform on which [::close] is interrupted every time. *)
Definition close_always_interrupted : Platform :=
  fun _ c =>
    match c with
    | sys_open _ _ => ok 3
    | sys_close _ => fail EINTR
    | _ => ok 0
    end.

(** ** The exceptions of the public operations *)

(** The exceptions that a public operation on [busfile] and the device at
    [addr] can throw: the two of [Open], told apart by their type, and the
    generic one of a length check, built from one of the pairs [errors] of
    the operation.  ([message] holds the first argument of the constructor,
    [procname] the second.) *)
Definition in_catalogue (busfile : string) (addr : byte)
           (errors : list (string * string)) (e : I2CException) : Prop :=
  (exc_type e = T_I2CException /\ message e = "I2CBus::Open(addr)"
   /\ procname e = "Unable to open I2C Bus file " ++ busfile)
  \/ (exc_type e = T_I2CNotFoundException /\ message e = "I2CBus::Open(addr)"
      /\ procname e = "Unable to find device address 0x"
                        ++ hex_upper_w2 (Byte.to_N addr))
  \/ (exc_type e = T_I2CException /\ In (message e, procname e) errors).

(** The pairs of arguments of the two length errors of [Xfer], as written
    at its throw sites. *)
Definition Xfer_errors : list (string * string) :=
  [("I2CConnection::Xfer(odat, olen, idat, ilen, i2caddr)", "Write length error.");
   ("I2CConnection::Xfer(odat, olen, idat, ilen, i2caddr)", "Read length error.")].

(** Program [p], a session with the one transfer [c fd] checked against
    [len], run from [s]: every exception it throws is in the catalogue of
    [addr] and of its one pair [(name, text)]; and which one it throws is
    decided by the platform's answers to [::open], to the [ioctl] and to the
    transfer. *)
Definition exceptions_law (busfile : string) (P : Platform) (p : prog unit)
           (c : Z -> syscall) (name text : string) (len : Z) (addr : byte)
           (s : state) : Prop :=
  let c1 := sys_open busfile O_RDWR in
  let r1 := P (trace s) c1 in
  let fd := ret r1 in
  let c2 := sys_ioctl fd I2C_SLAVE (uint8 addr) in
  let r2 := P (trace s ++ [(c1, r1)])%list c2 in
  let r3 := P (trace s ++ [(c1, r1); (c2, r2)])%list (c fd) in
  let o := fst (run P p s) in
  (forall e, o = Raised e -> in_catalogue busfile addr [(name, text)] e)
  /\ (fd < 0 ->
      exists e, o = Raised e /\ exc_type e = T_I2CException
                /\ message e = "I2CBus::Open(addr)"
                /\ procname e = "Unable to open I2C Bus file " ++ busfile)
  /\ (0 <= fd -> ret r2 < 0 ->
      exists e, o = Raised e /\ exc_type e = T_I2CNotFoundException
                /\ message e = "I2CBus::Open(addr)"
                /\ procname e = "Unable to find device address 0x"
                                  ++ hex_upper_w2 (Byte.to_N addr))
  /\ (0 <= fd -> 0 <= ret r2 -> ret r3 <> len ->
      exists e, o = Raised e /\ exc_type e = T_I2CException
                /\ message e = name /\ procname e = text)
  /\ (0 <= fd -> 0 <= ret r2 -> ret r3 = len -> o = Returned tt).

(** The same for [Xfer], with its two transfers and its two length errors. *)
Definition Xfer_exceptions_law (busfile : string) (P : Platform) (fuel : nat)
           (odat : list byte) (olen ilen : Z) (i2caddr : byte) (s : state) : Prop :=
  let c1 := sys_open busfile O_RDWR in
  let r1 := P (trace s) c1 in
  let fd := ret r1 in
  let c2 := sys_ioctl fd I2C_SLAVE (uint8 i2caddr) in
  let r2 := P (trace s ++ [(c1, r1)])%list c2 in
  let c3 := sys_write fd odat (size_t_of_int olen) in
  let r3 := P (trace s ++ [(c1, r1); (c2, r2)])%list c3 in
  let c4 := sys_read fd (size_t_of_int ilen) in
  let r4 := P (trace s ++ [(c1, r1); (c2, r2); (c3, r3)])%list c4 in
  let name := "I2CConnection::Xfer(odat, olen, idat, ilen, i2caddr)" in
  let o := fst (run P (Xfer busfile fuel odat olen ilen i2caddr) s) in
  (forall e, o = Raised e -> in_catalogue busfile i2caddr Xfer_errors e)
  /\ (fd < 0 ->
      exists e, o = Raised e /\ exc_type e = T_I2CException
                /\ message e = "I2CBus::Open(addr)"
                /\ procname e = "Unable to open I2C Bus file " ++ busfile)
  /\ (0 <= fd -> ret r2 < 0 ->
      exists e, o = Raised e /\ exc_type e = T_I2CNotFoundException
                /\ message e = "I2CBus::Open(addr)"
                /\ procname e = "Unable to find device address 0x"
                                  ++ hex_upper_w2 (Byte.to_N i2caddr))
  /\ (0 <= fd -> 0 <= ret r2 -> ret r3 <> olen ->
      exists e, o = Raised e /\ exc_type e = T_I2CException
                /\ message e = name /\ procname e = "Write length error.")
  /\ (0 <= fd -> 0 <= ret r2 -> ret r3 = olen -> ret r4 <> ilen ->
      exists e, o = Raised e /\ exc_type e = T_I2CException
                /\ message e = name /\ procname e = "Read length error.")
  /\ (0 <= fd -> 0 <= ret r2 -> ret r3 = olen -> ret r4 = ilen ->
      o = Returned tt).

(** * Laws of the model *)

(** ** Laws of [run] *)

Lemma run_bind {A B : Type} (P : Platform) (p : prog A) (f : A -> prog B) :
  forall s,
    run P (bind p f) s = and_then (run P p s) (fun a s' => run P (f a) s').
Proof.
  induction p as [a | e | | a k IH]; intros s; simpl; try reflexivity.
  destruct (perform P a s) as [[r s'] | ]; [apply IH | reflexivity].
Qed.

Lemma run_lock_guard_scope {A : Type} (P : Platform) (body : prog A) :
  forall s, run P (lock_guard_scope body) s = released (run P body s).
Proof.
  induction body as [a | e | | a k IH]; intros s; simpl; try reflexivity.
  destruct (perform P a s) as [[r s'] | ]; [apply IH | reflexivity].
Qed.

Lemma run_lock_guard {A : Type} (P : Platform) (body : prog A) (s : state) :
  mtx s = false ->
  run P (lock_guard body) s = released (run P body (locked s)).
Proof.
  intros Hm. unfold lock_guard. simpl. rewrite Hm.
  apply run_lock_guard_scope.
Qed.

Lemma run_lock_guard_held {A : Type} (P : Platform) (body : prog A) (s : state) :
  mtx s = true -> run P (lock_guard body) s = (Blocked, s).
Proof. intros Hm. unfold lock_guard. simpl. rewrite Hm. reflexivity. Qed.

Lemma run_call (P : Platform) (c : syscall) (s : state) :
  run P (call c) s = (Returned (P (trace s) c), after c (P (trace s) c) s).
Proof. reflexivity. Qed.

Lemma run_throw_I2CException {A : Type} (P : Platform) (msg proc : string) (s : state) :
  run P (iexc <- new_I2CException msg proc ;; Throw (A := A) iexc) s =
  raise_at P T_I2CException msg proc s.
Proof. reflexivity. Qed.

Lemma run_throw_I2CNotFoundException {A : Type} (P : Platform) (msg proc : string)
      (s : state) :
  run P (nfexc <- new_I2CNotFoundException msg proc ;; Throw (A := A) nfexc) s =
  raise_at P T_I2CNotFoundException msg proc s.
Proof. reflexivity. Qed.

(** ** Traces *)

Lemma retries_snoc (P : Platform) (fd : Z) (n : nat) : forall h,
  retries P fd (S n) h =
  (retries P fd n h ++ [(sys_close fd, nth_close P fd h n)])%list.
Proof.
  induction n as [| n IH]; intros h.
  - reflexivity.
  - change (retries P fd (S (S n)) h)
      with (retries P fd (S n) (h ++ [(sys_close fd, P h (sys_close fd))])).
    rewrite IH. reflexivity.
Qed.

Lemma retries_app (P : Platform) (fd : Z) (n : nat) : forall h,
  exists cl, retries P fd n h = (h ++ cl)%list
             /\ List.length cl = n
             /\ Forall (fun e => fst e = sys_close fd) cl.
Proof.
  induction n as [| n IH]; intros h.
  - exists []. rewrite app_nil_r. repeat split. constructor.
  - destruct (IH h) as (cl & Hcl & Hlen & Hall).
    exists (cl ++ [(sys_close fd, nth_close P fd h n)])%list.
    rewrite retries_snoc, Hcl, <- app_assoc. repeat split.
    + rewrite length_app, Hlen. simpl. lia.
    + apply Forall_app. split; [assumption | repeat constructor].
Qed.

Lemma nth_close_shift (P : Platform) (fd : Z) (h : list event) (n : nat) :
  nth_close P fd h (S n) =
  nth_close P fd (h ++ [(sys_close fd, P h (sys_close fd))])%list n.
Proof. reflexivity. Qed.

Lemma interrupted_errno (r : reply) (e : Z) :
  (ret r =? -1) && ((if ret r <? 0 then err r else e) =? EINTR) = interrupted r.
Proof.
  unfold interrupted. destruct (ret r =? -1) eqn:H; [| reflexivity].
  apply Z.eqb_eq in H. rewrite H. reflexivity.
Qed.

Lemma since_app (s s' : state) (ext : list event) :
  trace s' = (trace s ++ ext)%list -> since s s' = ext.
Proof.
  intros H. unfold since. rewrite H, skipn_app, skipn_all, Nat.sub_diag.
  reflexivity.
Qed.

Lemma calls_app (kind : syscall -> bool) (a b : list event) :
  calls kind (a ++ b) = (calls kind a ++ calls kind b)%list.
Proof. apply filter_app. Qed.

Lemma calls_closes (kind : syscall -> bool) (fd : Z) (cl : list event) :
  kind (sys_close fd) = false -> closes_of fd cl -> calls kind cl = [].
Proof.
  intros Hk Hcl. induction Hcl as [| e cl He _ IH]; [reflexivity |].
  unfold calls in *. simpl. rewrite He, Hk. exact IH.
Qed.

Lemma calls_closes_all (fd : Z) (cl : list event) :
  closes_of fd cl -> calls is_close cl = cl.
Proof.
  intros Hcl. induction Hcl as [| e cl He _ IH]; [reflexivity |].
  unfold calls in *. simpl. rewrite He. simpl. rewrite IH. reflexivity.
Qed.

(** Computes [calls kind] on the calls of a session. *)
Ltac calls_of_session :=
  repeat match goal with
         | H : trace ?s' = (trace ?s ++ _)%list |- context [since ?s ?s'] =>
             rewrite (since_app s s' _ H)
         end;
  unfold failed, count, reported;
  repeat rewrite calls_app;
  repeat match goal with
         | H : closes_of ?fd ?cl |- context [calls ?kind ?cl] =>
             first [ rewrite (calls_closes kind fd cl eq_refl H)
                   | rewrite (calls_closes_all fd cl H) ]
         end;
  cbn [calls filter fst snd is_open is_ioctl is_read is_write is_close is_time
       app map List.length existsb].

(** ** The retry loop of [Close] *)

Lemma run_close_file (P : Platform) (s : state) :
  run P close_file s =
  (Returned (ret (P (trace s) (sys_close (file s)))),
   closed_once (P (trace s) (sys_close (file s))) s).
Proof. reflexivity. Qed.

Lemma retry_step (P : Platform) (fuel : nat) (s : state) :
  run P (TEMP_FAILURE_RETRY (S fuel) close_file) s =
  let r := P (trace s) (sys_close (file s)) in
  if interrupted r
  then run P (TEMP_FAILURE_RETRY fuel close_file) (closed_once r s)
  else (Returned (ret r), closed_once r s).
Proof.
  cbn [TEMP_FAILURE_RETRY]. rewrite run_bind, run_close_file.
  cbn -[TEMP_FAILURE_RETRY Z.eqb Z.ltb]. rewrite interrupted_errno.
  destruct (interrupted _); reflexivity.
Qed.

Lemma retry_partial (P : Platform) (fuel : nat) : forall s,
  exists o s',
    run P (TEMP_FAILURE_RETRY fuel close_file) s = (o, s')
    /\ file s' = file s /\ mtx s' = mtx s /\ data s' = data s
    /\ (exists n, (n <= fuel)%nat /\ trace s' = retries P (file s) n (trace s))
    /\ (o = Spinning \/ exists z, o = Returned z).
Proof.
  induction fuel as [| fuel IH]; intros s.
  - exists Spinning, s. split; [reflexivity |]. do 3 (split; [reflexivity |]).
    split; [exists 0%nat; split; [lia | reflexivity] | left; reflexivity].
  - rewrite retry_step. cbv zeta.
    destruct (interrupted (P (trace s) (sys_close (file s)))).
    + destruct (IH (closed_once (P (trace s) (sys_close (file s))) s))
        as (o & s' & Hrun & Hf & Hm & Hd & (n & Hn & Ht) & Ho).
      exists o, s'. split; [exact Hrun |]. do 3 (split; [assumption |]).
      split; [exists (S n); split; [lia | exact Ht] | exact Ho].
    + eexists _, _. split; [reflexivity |]. do 3 (split; [reflexivity |]).
      split; [exists 1%nat; split; [lia | reflexivity] | right; eauto].
Qed.

Lemma retry_total (P : Platform) : forall n fuel s,
  (forall j, (j < n)%nat -> interrupted (nth_close P (file s) (trace s) j) = true) ->
  interrupted (nth_close P (file s) (trace s) n) = false ->
  (n < fuel)%nat ->
  exists z s',
    run P (TEMP_FAILURE_RETRY fuel close_file) s = (Returned z, s')
    /\ file s' = file s /\ mtx s' = mtx s /\ data s' = data s
    /\ trace s' = retries P (file s) (S n) (trace s).
Proof.
  induction n as [| n IH]; intros fuel s Hint Hlast Hfuel;
    (destruct fuel as [| fuel]; [lia |]); rewrite retry_step; cbv zeta.
  - unfold nth_close in Hlast. simpl in Hlast. rewrite Hlast.
    eexists _, _. split; [reflexivity |]. do 3 (split; [reflexivity |]). reflexivity.
  - assert (H0 : interrupted (P (trace s) (sys_close (file s))) = true)
      by (apply (Hint 0%nat); lia).
    rewrite H0.
    destruct (IH fuel (closed_once (P (trace s) (sys_close (file s))) s))
      as (z & s' & Hrun & Hf & Hm & Hd & Ht).
    + intros j Hj. simpl. rewrite <- nth_close_shift. apply Hint. lia.
    + simpl. rewrite <- nth_close_shift. exact Hlast.
    + lia.
    + exists z, s'. split; [exact Hrun |]. do 3 (split; [assumption |]). exact Ht.
Qed.

Lemma retry_returns (P : Platform) : forall n fuel s,
  interrupted (nth_close P (file s) (trace s) n) = false ->
  (n < fuel)%nat ->
  exists z s', run P (TEMP_FAILURE_RETRY fuel close_file) s = (Returned z, s').
Proof.
  induction n as [| n IH]; intros fuel s Hlast Hfuel;
    (destruct fuel as [| fuel]; [lia |]); rewrite retry_step; cbv zeta.
  - unfold nth_close in Hlast. simpl in Hlast. rewrite Hlast. eauto.
  - destruct (interrupted (P (trace s) (sys_close (file s)))); [| eauto].
    apply IH; [| lia]. simpl. rewrite <- nth_close_shift. exact Hlast.
Qed.

(** ** [Close] *)

Section CloseFacts.

Variable P : Platform.

Lemma Close_not_open (fuel : nat) (s : state) :
  file s = -1 -> run P (Close fuel) s = (Returned tt, with_errno 0 s).
Proof.
  intros Hf. unfold Close. cbn -[Z.eqb].
  destruct (file s =? -1) eqn:E; [reflexivity |].
  apply Z.eqb_neq in E. contradiction.
Qed.

(** [Close] on an open handle: the first [::close(file)], and the retry
    loop when it was interrupted. *)
Lemma Close_open (fuel : nat) (s : state) :
  file s <> -1 ->
  run P (Close fuel) s =
  let r := P (trace s) (sys_close (file s)) in
  let s1 := closed_once r (with_errno 0 s) in
  if (ret r <? 0) && (err r =? EINTR) then
    and_then (run P (TEMP_FAILURE_RETRY fuel close_file) s1)
             (fun _ s2 => (Returned tt, with_file (-1) s2))
  else (Returned tt, with_file (-1) s1).
Proof.
  intros Hf. apply Z.eqb_neq in Hf. unfold Close.
  rewrite run_bind. cbn -[Z.eqb Z.ltb TEMP_FAILURE_RETRY close_file bind].
  rewrite run_bind. cbn -[Z.eqb Z.ltb TEMP_FAILURE_RETRY close_file bind].
  rewrite Hf. cbn [negb].
  rewrite run_bind, run_close_file. cbn [with_errno file trace and_then].
  rewrite run_bind.
  destruct (ret (P (trace s) (sys_close (file s))) <? 0) eqn:Hret;
    [| reflexivity].
  rewrite run_bind. cbn -[Z.eqb Z.ltb TEMP_FAILURE_RETRY close_file bind].
  rewrite Hret.
  destruct (err (P (trace s) (sys_close (file s))) =? EINTR) eqn:Herr;
    [| reflexivity].
  cbn [andb]. rewrite run_bind.
  unfold with_errno.
  destruct (run P (TEMP_FAILURE_RETRY fuel close_file) _) as [[z | e | |] s2];
    reflexivity.
Qed.

(** What [Close] does in every case: it returns with [file == -1], or it
    is still retrying; it never throws, never touches the mutex or the
    buffer, and calls nothing but [::close(file)]. *)
Lemma Close_summary (fuel : nat) (s : state) :
  exists o s' n,
    run P (Close fuel) s = (o, s')
    /\ mtx s' = mtx s /\ data s' = data s
    /\ trace s' = retries P (file s) n (trace s)
    /\ (n <= S fuel)%nat
    /\ (file s <> -1 -> (1 <= n)%nat)
    /\ (o = Returned tt /\ file s' = -1 \/ o = Spinning /\ file s <> -1).
Proof.
  destruct (Z.eq_dec (file s) (-1)) as [Hf | Hf].
  - rewrite (Close_not_open fuel s Hf).
    exists (Returned tt), (with_errno 0 s), 0%nat.
    split; [reflexivity |]. do 3 (split; [reflexivity |]).
    split; [lia |]. split; [contradiction |].
    left; split; [reflexivity | exact Hf].
  - rewrite (Close_open fuel s Hf). cbv zeta.
    destruct ((ret _ <? 0) && (err _ =? EINTR)).
    + destruct (retry_partial P fuel
                  (closed_once (P (trace s) (sys_close (file s))) (with_errno 0 s)))
        as (o & s' & Hrun & Hfile & Hm & Hd & (n & Hn & Ht) & Ho).
      rewrite Hrun.
      destruct Ho as [-> | [z ->]]; cbn [and_then].
      * exists Spinning, s', (S n).
        split; [reflexivity |]. do 3 (split; [assumption |]).
        split; [lia |]. split; [lia |]. right; split; [reflexivity | exact Hf].
      * exists (Returned tt), (with_file (-1) s'), (S n).
        split; [reflexivity |]. do 3 (split; [assumption |]).
        split; [lia |]. split; [lia |]. left; split; reflexivity.
    + eexists _, _, 1%nat. split; [reflexivity |]. do 3 (split; [reflexivity |]).
      split; [lia |]. split; [lia |]. left; split; reflexivity.
Qed.

(** The same, with the calls of [::close] as a list. *)
Lemma Close_cases (fuel : nat) (s : state) :
  exists o s' cl,
    run P (Close fuel) s = (o, s')
    /\ mtx s' = mtx s /\ data s' = data s
    /\ trace s' = (trace s ++ cl)%list
    /\ closes_of (file s) cl
    /\ (file s <> -1 -> cl <> [])
    /\ (o = Returned tt /\ file s' = -1 \/ o = Spinning /\ file s <> -1).
Proof.
  destruct (Close_summary fuel s)
    as (o & s' & n & Hrun & Hm & Hd & Ht & _ & Hn & Ho).
  destruct (retries_app P (file s) n (trace s)) as (cl & Hcl & Hlen & Hall).
  exists o, s', cl. split; [exact Hrun |]. do 2 (split; [assumption |]).
  split; [congruence |]. split; [exact Hall |]. split; [| exact Ho].
  intros Hf ->. specialize (Hn Hf). simpl in Hlen. lia.
Qed.

(** On a platform that stops interrupting, enough fuel lets [Close] return. *)
Lemma Close_returns (k fuel : nat) (s : state) :
  close_settles P k -> (k < fuel)%nat ->
  exists s', run P (Close fuel) s = (Returned tt, s').
Proof.
  intros Hk Hfuel.
  destruct (Z.eq_dec (file s) (-1)) as [Hf | Hf].
  - rewrite (Close_not_open fuel s Hf). eauto.
  - rewrite (Close_open fuel s Hf). cbv zeta.
    destruct ((ret _ <? 0) && (err _ =? EINTR)); [| eauto].
    set (s1 := closed_once _ _).
    destruct (Hk (trace s1) (file s1)) as (n & Hn & Hlast).
    destruct (retry_returns P n fuel s1 Hlast) as (z & s' & Hrun); [lia |].
    rewrite Hrun. cbn [and_then]. eauto.
Qed.

End CloseFacts.

Lemma Close_never_throws (P : Platform) (fuel : nat) (s : state) (e : I2CException) :
  fst (run P (Close fuel) s) <> Raised e.
Proof.
  destruct (Close_summary P fuel s) as (o & s' & n & Hrun & _ & _ & _ & _ & _ & Ho).
  rewrite Hrun. cbn [fst]. destruct Ho as [[-> _] | [-> _]]; discriminate.
Qed.

Lemma count_closes (P : Platform) (fd : Z) (n : nat) (s s' : state) :
  trace s' = retries P fd n (trace s) ->
  count is_close (since s s') = n.
Proof.
  intros Ht. destruct (retries_app P fd n (trace s)) as (cl & Hcl & Hlen & Hall).
  rewrite Hcl in Ht. rewrite (since_app s s' cl Ht).
  unfold count. rewrite (calls_closes_all fd cl Hall). exact Hlen.
Qed.

(** ** [Open] *)

Section OpenFacts.

Variable busfile : string.
Variable P : Platform.

Lemma Open_run (fuel : nat) (addr : byte) (s : state) :
  run P (Open busfile fuel addr) s =
  let c1 := sys_open busfile O_RDWR in
  let r1 := P (trace s) c1 in
  let s1 := with_file (ret r1) (after c1 r1 s) in
  if ret r1 <? 0 then
    raise_at P T_I2CException "I2CBus::Open(addr)"
             ("Unable to open I2C Bus file " ++ busfile) s1
  else
    let c2 := sys_ioctl (ret r1) I2C_SLAVE (uint8 addr) in
    let r2 := P (trace s1) c2 in
    let s2 := after c2 r2 s1 in
    if ret r2 <? 0 then
      and_then (run P (Close fuel) s2)
               (fun _ s3 =>
                  raise_at P T_I2CNotFoundException "I2CBus::Open(addr)"
                           ("Unable to find device address " ++ "0x"
                            ++ hex_upper_w2 (Byte.to_N addr)) s3)
    else (Returned tt, s2).
Proof.
  unfold Open. rewrite run_bind, run_call. cbn [and_then].
  rewrite run_bind. cbn [store_file run perform and_then].
  rewrite run_bind. cbn [load_file run perform and_then with_file file ret value].
  cbv zeta.
  destruct (ret (P (trace s) (sys_open busfile O_RDWR)) <? 0) eqn:Hopen.
  - apply run_throw_I2CException.
  - rewrite run_bind. cbn [load_file run perform and_then with_file file ret value].
    rewrite run_bind, run_call. cbn [and_then].
    destruct (ret (P _ (sys_ioctl _ _ _)) <? 0) eqn:Hioctl; [| reflexivity].
    rewrite run_bind. reflexivity.
Qed.

End OpenFacts.

(** ** Sessions with one transfer *)

Lemma Read_transfer (busfile : string) (fuel : nat) (len : Z) (addr : byte) :
  Read busfile fuel len addr =
  transfer busfile fuel (fun fd => sys_read fd (size_t_of_int len)) len addr
           "I2CBus::Read(data, len, addr)" "Read length error.".
Proof. reflexivity. Qed.

Lemma Write_transfer (busfile : string) (fuel : nat) (dat : list byte) (len : Z)
      (addr : byte) :
  Write busfile fuel dat len addr =
  transfer busfile fuel (fun fd => sys_write fd dat (size_t_of_int len)) len addr
           "I2CBus::Write(data, len, addr)" "Write length error.".
Proof. reflexivity. Qed.

Lemma Write_string_transfer (busfile : string) (fuel : nat) (dat : string)
      (addr : byte) :
  Write_string busfile fuel dat addr =
  transfer busfile fuel
           (fun fd => sys_write fd (c_str dat)
                                (size_t_of_int (int_of_size_t (size dat))))
           (int_of_size_t (size dat)) addr
           "I2CBus::Write(dat, addr)" "Write length error.".
Proof. reflexivity. Qed.

(** Side conditions of the case lemmas: facts in the context, and traces
    that are equal up to the bracketing of [++]. *)
Ltac session_side :=
  try eassumption; try reflexivity;
  try (match goal with
       | H : ?x <> -1 -> ?cl <> [] |- ?cl <> [] => apply H; lia
       end);
  try (cbn [trace unlocked locked after with_file with_errno file data mtx];
       repeat match goal with
              | H : trace ?s = _ |- context [trace ?s] => rewrite H
              | H : data ?s = _ |- context [data ?s] => rewrite H
              | H : mtx ?s = _ |- context [mtx ?s] => rewrite H
              end;
       cbn [trace unlocked locked after with_file with_errno file data mtx];
       rewrite <- ?app_assoc; cbn [app];
       reflexivity).

Section TransferFacts.

Variable busfile : string.
Variable P : Platform.
Variable c : Z -> syscall.
Variable len : Z.
Variable addr : byte.
Variables arg1 arg2 : string.
Variable s : state.

(** The platform calls of the session and the platform's answers. *)
Let c1 := sys_open busfile O_RDWR.
Let r1 := P (trace s) c1.
Let fd := ret r1.
Let c2 := sys_ioctl fd I2C_SLAVE (uint8 addr).
Let r2 := P (trace s ++ [(c1, r1)])%list c2.
Let c3 := c fd.
Let r3 := P (trace s ++ [(c1, r1); (c2, r2)])%list c3.

Lemma transfer_run (fuel : nat) :
  mtx s = false ->
  run P (transfer busfile fuel c len addr arg1 arg2) s =
  released
    (and_then (run P (Open busfile fuel addr) (locked s))
       (fun _ s2 =>
          let c3 := c (file s2) in
          let r3 := P (trace s2) c3 in
          and_then (run P (Close fuel) (after c3 r3 s2))
            (fun _ s4 =>
               if ret r3 =? len then (Returned tt, s4)
               else raise_at P T_I2CException arg1 arg2 s4))).
Proof.
  intros Hm. unfold transfer. rewrite (run_lock_guard P _ s Hm). f_equal.
  rewrite run_bind.
  destruct (run P (Open busfile fuel addr) (locked s)) as [[[] | e | |] s2];
    cbn [and_then]; try reflexivity.
  rewrite run_bind. cbn [load_file run perform and_then ret value].
  rewrite run_bind, run_call. cbn [and_then].
  rewrite run_bind. cbv zeta.
  destruct (run P (Close fuel) _) as [[[] | e | |] s4];
    cbn [and_then]; try reflexivity.
  destruct (ret _ =? len); reflexivity.
Qed.

Lemma transfer_cases (fuel : nat) :
  mtx s = false ->
  transfer_result busfile P c len addr arg1 arg2 s
                  (fst (run P (transfer busfile fuel c len addr arg1 arg2) s))
                  (snd (run P (transfer busfile fuel c len addr arg1 arg2) s)).
Proof.
  intros Hm. rewrite (transfer_run fuel Hm), Open_run. cbv zeta.
  cbn [locked trace with_file after file ret].
  fold c1. fold r1. fold fd. fold c2.
  destruct (fd <? 0) eqn:Hopen.
  { apply Z.ltb_lt in Hopen. cbn [raise_at and_then released fst snd].
    eapply transfer_no_bus; session_side. }
  apply Z.ltb_ge in Hopen.
  fold r2.
  destruct (ret r2 <? 0) eqn:Hioctl.
  { apply Z.ltb_lt in Hioctl.
    match goal with
    | |- context [run P (Close fuel) ?s2] =>
        destruct (Close_cases P fuel s2)
          as (o & s3 & cl & Hrun & Hmtx & Hdata & Htrace & Hcl & Hne & Ho);
          rewrite Hrun
    end.
    cbn [file with_file after] in Hcl, Hne.
    destruct Ho as [[-> Hfile] | [-> Hfile]]; cbn [and_then raise_at released fst snd].
    - eapply transfer_no_device with (cl := cl); session_side.
    - apply transfer_spinning. exact Hopen. }
  apply Z.ltb_ge in Hioctl.
  cbn [and_then file with_file after trace locked].
  rewrite <- app_assoc. cbn [app]. fold c3. fold r3.
  match goal with
  | |- context [run P (Close fuel) ?s3] =>
      destruct (Close_cases P fuel s3)
        as (o & s4 & cl & Hrun & Hmtx & Hdata & Htrace & Hcl & Hne & Ho);
        rewrite Hrun
  end.
  cbn [file with_file after] in Hcl, Hne.
  destruct Ho as [[-> Hfile] | [-> Hfile]]; cbn [and_then released fst snd];
    [| apply transfer_spinning; exact Hopen].
  match goal with
  | |- context [ret ?r =? len] => destruct (ret r =? len) eqn:Hlen
  end; cbn [raise_at released fst snd].
  - apply Z.eqb_eq in Hlen.
    eapply transfer_done with (cl := cl); session_side.
  - apply Z.eqb_neq in Hlen.
    eapply transfer_mismatch with (cl := cl); session_side.
Qed.

(** With enough fuel on a platform that stops interrupting [::close], the
    session ends. *)
Lemma transfer_ends (k fuel : nat) :
  close_settles P k -> (k < fuel)%nat -> mtx s = false ->
  fst (run P (transfer busfile fuel c len addr arg1 arg2) s) <> Spinning.
Proof.
  intros Hk Hfuel Hm. rewrite (transfer_run fuel Hm), Open_run. cbv zeta.
  destruct (ret _ <? 0); [discriminate |].
  destruct (ret _ <? 0).
  - match goal with
    | |- context [run P (Close fuel) ?s2] =>
        destruct (Close_returns P k fuel s2 Hk Hfuel) as (s3 & ->)
    end.
    discriminate.
  - cbn [and_then]. cbv zeta.
    match goal with
    | |- context [run P (Close fuel) ?s2] =>
        destruct (Close_returns P k fuel s2 Hk Hfuel) as (s3 & ->)
    end.
    cbn [and_then]. destruct (ret _ =? len); discriminate.
Qed.

End TransferFacts.

(** ** Sessions of [Xfer] *)

Section XferFacts.

Variable busfile : string.
Variable P : Platform.
Variable odat : list byte.
Variables olen ilen : Z.
Variable i2caddr : byte.
Variable s : state.

(** The platform calls of the session and the platform's answers. *)
Let c1 := sys_open busfile O_RDWR.
Let r1 := P (trace s) c1.
Let fd := ret r1.
Let c2 := sys_ioctl fd I2C_SLAVE (uint8 i2caddr).
Let r2 := P (trace s ++ [(c1, r1)])%list c2.
Let c3 := sys_write fd odat (size_t_of_int olen).
Let r3 := P (trace s ++ [(c1, r1); (c2, r2)])%list c3.
Let c4 := sys_read fd (size_t_of_int ilen).
Let r4 := P (trace s ++ [(c1, r1); (c2, r2); (c3, r3)])%list c4.

Lemma Xfer_run (fuel : nat) :
  mtx s = false ->
  run P (Xfer busfile fuel odat olen ilen i2caddr) s =
  released
    (and_then (run P (Open busfile fuel i2caddr) (locked s))
       (fun _ s2 =>
          let c3 := sys_write (file s2) odat (size_t_of_int olen) in
          let r3 := P (trace s2) c3 in
          let s3 := after c3 r3 s2 in
          if ret r3 =? olen then
            let c4 := sys_read (file s3) (size_t_of_int ilen) in
            let r4 := P (trace s3) c4 in
            and_then (run P (Close fuel) (after c4 r4 s3))
              (fun _ s5 =>
                 if ret r4 =? ilen then (Returned tt, s5)
                 else raise_at P T_I2CException Xfer_arg1 "Read length error." s5)
          else
            and_then (run P (Close fuel) s3)
              (fun _ s4 =>
                 raise_at P T_I2CException Xfer_arg1 "Write length error." s4))).
Proof.
  intros Hm. unfold Xfer. rewrite (run_lock_guard P _ s Hm). f_equal.
  rewrite run_bind.
  destruct (run P (Open busfile fuel i2caddr) (locked s)) as [[[] | e | |] s2];
    cbn [and_then]; try reflexivity.
  rewrite run_bind. cbn [load_file run perform and_then ret value].
  rewrite run_bind, run_call. cbn [and_then]. cbv zeta.
  destruct (ret _ =? olen); cbn [negb].
  - rewrite run_bind. cbn [load_file run perform and_then ret value].
    rewrite run_bind, run_call. cbn [and_then].
    rewrite run_bind.
    destruct (run P (Close fuel) _) as [[[] | e | |] s5];
      cbn [and_then]; try reflexivity.
    destruct (ret _ =? ilen); reflexivity.
  - rewrite run_bind.
    destruct (run P (Close fuel) _) as [[[] | e | |] s4]; reflexivity.
Qed.

Lemma Xfer_cases (fuel : nat) :
  mtx s = false ->
  Xfer_result busfile P odat olen ilen i2caddr s
              (fst (run P (Xfer busfile fuel odat olen ilen i2caddr) s))
              (snd (run P (Xfer busfile fuel odat olen ilen i2caddr) s)).
Proof.
  intros Hm. rewrite (Xfer_run fuel Hm), Open_run. cbv zeta.
  cbn [locked trace with_file after file ret].
  fold c1. fold r1. fold fd. fold c2.
  destruct (fd <? 0) eqn:Hopen.
  { apply Z.ltb_lt in Hopen. cbn [raise_at and_then released fst snd].
    eapply Xfer_no_bus; session_side. }
  apply Z.ltb_ge in Hopen.
  fold r2.
  destruct (ret r2 <? 0) eqn:Hioctl.
  { apply Z.ltb_lt in Hioctl.
    match goal with
    | |- context [run P (Close fuel) ?s2] =>
        destruct (Close_cases P fuel s2)
          as (o & s3 & cl & Hrun & Hmtx & Hdata & Htrace & Hcl & Hne & Ho);
          rewrite Hrun
    end.
    cbn [file with_file after] in Hcl, Hne.
    destruct Ho as [[-> Hfile] | [-> Hfile]]; cbn [and_then raise_at released fst snd].
    - eapply Xfer_no_device with (cl := cl); session_side.
    - apply Xfer_spinning. exact Hopen. }
  apply Z.ltb_ge in Hioctl.
  cbn [and_then file with_file after trace locked].
  rewrite <- app_assoc. cbn [app]. fold c3.
  match goal with
  | |- context [ret ?r =? olen] => destruct (ret r =? olen) eqn:Hwr
  end.
  - apply Z.eqb_eq in Hwr.
    rewrite <- app_assoc. cbn [app]. fold c4.
    match goal with
    | |- context [run P (Close fuel) ?s3] =>
        destruct (Close_cases P fuel s3)
          as (o & s5 & cl & Hrun & Hmtx & Hdata & Htrace & Hcl & Hne & Ho);
          rewrite Hrun
    end.
    cbn [file with_file after] in Hcl, Hne.
    destruct Ho as [[-> Hfile] | [-> Hfile]]; cbn [and_then released fst snd];
      [| apply Xfer_spinning; exact Hopen].
    match goal with
    | |- context [ret ?r =? ilen] => destruct (ret r =? ilen) eqn:Hrd
    end; cbn [raise_at released fst snd].
    + apply Z.eqb_eq in Hrd.
      eapply Xfer_done with (cl := cl); session_side.
    + apply Z.eqb_neq in Hrd.
      eapply Xfer_short_read with (cl := cl); session_side.
  - apply Z.eqb_neq in Hwr.
    match goal with
    | |- context [run P (Close fuel) ?s3] =>
        destruct (Close_cases P fuel s3)
          as (o & s4 & cl & Hrun & Hmtx & Hdata & Htrace & Hcl & Hne & Ho);
          rewrite Hrun
    end.
    cbn [file with_file after] in Hcl, Hne.
    destruct Ho as [[-> Hfile] | [-> Hfile]]; cbn [and_then raise_at released fst snd];
      [| apply Xfer_spinning; exact Hopen].
    eapply Xfer_short_write with (cl := cl); session_side.
Qed.

Lemma Xfer_ends (k fuel : nat) :
  close_settles P k -> (k < fuel)%nat -> mtx s = false ->
  fst (run P (Xfer busfile fuel odat olen ilen i2caddr) s) <> Spinning.
Proof.
  intros Hk Hfuel Hm. rewrite (Xfer_run fuel Hm), Open_run. cbv zeta.
  destruct (ret _ <? 0); [discriminate |].
  destruct (ret _ <? 0).
  - match goal with
    | |- context [run P (Close fuel) ?s2] =>
        destruct (Close_returns P k fuel s2 Hk Hfuel) as (s3 & ->)
    end.
    discriminate.
  - cbn [and_then]. cbv zeta.
    destruct (ret _ =? olen).
    + match goal with
      | |- context [run P (Close fuel) ?s2] =>
          destruct (Close_returns P k fuel s2 Hk Hfuel) as (s3 & ->)
      end.
      cbn [and_then]. destruct (ret _ =? ilen); discriminate.
    + match goal with
      | |- context [run P (Close fuel) ?s2] =>
          destruct (Close_returns P k fuel s2 Hk Hfuel) as (s3 & ->)
      end.
      discriminate.
Qed.

End XferFacts.

(** ** Scripted platforms *)

(** A script without an interrupted answer never interrupts [::close]. *)
Lemma scripted_settles (script : list reply) :
  forallb (fun r => negb (interrupted r)) script = true ->
  close_settles (scripted script) 0.
Proof.
  intros H h fd. exists 0%nat. split; [lia |].
  unfold nth_close, scripted. cbn [retries].
  destruct (nth_in_or_default (List.length h) script done) as [Hin | ->].
  - rewrite forallb_forall in H. apply negb_true_iff. apply H. exact Hin.
  - reflexivity.
Qed.

Lemma scripted_open_posix (script : list reply) :
  forallb (fun r => -1 <=? ret r) script = true -> open_posix (scripted script).
Proof.
  intros H h path flags. unfold scripted.
  destruct (nth_in_or_default (List.length h) script done) as [Hin | ->].
  - rewrite forallb_forall in H. apply Z.leb_le. apply H. exact Hin.
  - cbn. lia.
Qed.

(** ** The laws of the sessions *)

Lemma transfer_length_checked (busfile : string) (P : Platform) (k fuel : nat)
      (c : Z -> syscall) (kind : syscall -> bool) (len : Z) (addr : byte)
      (arg1 arg2 : string) (s : state) :
  (forall fd, kind (c fd) = true) ->
  kind (sys_open busfile O_RDWR) = false ->
  (forall fd, kind (sys_ioctl fd I2C_SLAVE (uint8 addr)) = false) ->
  (forall fd, kind (sys_close fd) = false) ->
  kind sys_time = false ->
  close_settles P k -> (k < fuel)%nat -> mtx s = false ->
  length_checked P (transfer busfile fuel c len addr arg1 arg2) kind len s.
Proof.
  intros Kc Ko Ki Kcl Kt Hk Hfuel Hm.
  pose proof (transfer_cases busfile P c len addr arg1 arg2 s fuel Hm) as Hc.
  pose proof (transfer_ends busfile P c len addr arg1 arg2 s k fuel Hk Hfuel Hm) as He.
  unfold length_checked.
  destruct (run P (transfer busfile fuel c len addr arg1 arg2) s) as [o s'].
  cbn [fst snd] in *.
  inversion Hc; subst; clear Hc;
    repeat match goal with
           | H : trace ?s' = (trace ?s ++ _)%list |- context [since ?s ?s'] =>
               rewrite (since_app s s' _ H)
           end;
    unfold reported; repeat rewrite calls_app;
    repeat match goal with
           | H : closes_of ?fd ?cl |- context [calls kind ?cl] =>
               rewrite (calls_closes kind fd cl (Kcl fd) H)
           end;
    unfold calls; cbn [filter fst snd app map];
    rewrite ?Kc, ?Ko, ?Ki, ?Kt; cbn [app map In snd].
  - split; [discriminate | intros n []].
  - split; [discriminate | intros n []].
  - split; [discriminate |]. intros n _ _. split; [discriminate | eauto].
  - split; [reflexivity |]. intros n [<- | []] Hn. contradiction.
  - contradiction.
Qed.

Lemma transfer_not_found_law (busfile : string) (P : Platform) (k fuel : nat)
      (c : Z -> syscall) (len : Z) (addr : byte) (arg1 arg2 : string) (s : state) :
  (forall fd, is_ioctl (c fd) = false) ->
  close_settles P k -> (k < fuel)%nat -> mtx s = false ->
  not_found_law P (transfer busfile fuel c len addr arg1 arg2) s.
Proof.
  intros Kc Hk Hfuel Hm.
  pose proof (transfer_cases busfile P c len addr arg1 arg2 s fuel Hm) as Hc.
  pose proof (transfer_ends busfile P c len addr arg1 arg2 s k fuel Hk Hfuel Hm) as He.
  unfold not_found_law.
  destruct (run P (transfer busfile fuel c len addr arg1 arg2) s) as [o s'].
  cbn [fst snd] in *.
  inversion Hc as [rt s1 Hfd | cl rt s1 Hfd Hio | cl rt s1 Hfd Hio | cl s1 Hfd Hio
                   | s1 Hfd];
    subst; clear Hc; calls_of_session; rewrite ?Kc;
    cbn [app map existsb snd orb].
  - split; [split |]; try discriminate. intros (e & [= <-] & Hty). discriminate.
  - apply Z.ltb_lt in Hio. rewrite Hio. cbn [orb]. apply Z.ltb_lt in Hio.
    split; [split; eauto |].
    intros _. split; [assumption |].
    eexists _, _, _, _, _, cl, _. split; [reflexivity |].
    repeat split; assumption.
  - apply Z.ltb_ge in Hio. rewrite Hio. cbn [orb].
    split; [split |]; try discriminate. intros (e & [= <-] & Hty). discriminate.
  - apply Z.ltb_ge in Hio. rewrite Hio. cbn [orb].
    split; [split |]; try discriminate. intros (e & [=] & _).
  - contradiction.
Qed.

Lemma Xfer_not_found_law (busfile : string) (P : Platform) (k fuel : nat)
      (odat : list byte) (olen ilen : Z) (i2caddr : byte) (s : state) :
  close_settles P k -> (k < fuel)%nat -> mtx s = false ->
  not_found_law P (Xfer busfile fuel odat olen ilen i2caddr) s.
Proof.
  intros Hk Hfuel Hm.
  pose proof (Xfer_cases busfile P odat olen ilen i2caddr s fuel Hm) as Hc.
  pose proof (Xfer_ends busfile P odat olen ilen i2caddr s k fuel Hk Hfuel Hm) as He.
  unfold not_found_law.
  destruct (run P (Xfer busfile fuel odat olen ilen i2caddr) s) as [o s'].
  cbn [fst snd] in *.
  inversion Hc as [rt s1 Hfd | cl rt s1 Hfd Hio | cl rt s1 Hfd Hio | cl rt s1 Hfd Hio
                   | cl s1 Hfd Hio | s1 Hfd];
    subst; clear Hc; calls_of_session; cbn [app map existsb snd orb].
  - split; [split |]; try discriminate. intros (e & [= <-] & Hty). discriminate.
  - apply Z.ltb_lt in Hio. rewrite Hio. cbn [orb]. apply Z.ltb_lt in Hio.
    split; [split; eauto |].
    intros _. split; [assumption |].
    eexists _, _, _, _, _, cl, _. split; [reflexivity |].
    repeat split; assumption.
  - apply Z.ltb_ge in Hio. rewrite Hio. cbn [orb].
    split; [split |]; try discriminate. intros (e & [= <-] & Hty). discriminate.
  - apply Z.ltb_ge in Hio. rewrite Hio. cbn [orb].
    split; [split |]; try discriminate. intros (e & [= <-] & Hty). discriminate.
  - apply Z.ltb_ge in Hio. rewrite Hio. cbn [orb].
    split; [split |]; try discriminate. intros (e & [=] & _).
  - contradiction.
Qed.

Lemma transfer_binding_law (busfile : string) (P : Platform) (k fuel : nat)
      (c : Z -> syscall) (len : Z) (addr : byte) (arg1 arg2 : string) (s : state) :
  close_settles P k -> (k < fuel)%nat -> mtx s = false ->
  binding_law busfile P (transfer busfile fuel c len addr arg1 arg2) addr s.
Proof.
  intros Hk Hfuel Hm. unfold binding_law. cbv zeta. intros Hfd0.
  pose proof (transfer_cases busfile P c len addr arg1 arg2 s fuel Hm) as Hc.
  pose proof (transfer_ends busfile P c len addr arg1 arg2 s k fuel Hk Hfuel Hm) as He.
  destruct (run P (transfer busfile fuel c len addr arg1 arg2) s) as [o s'].
  cbn [fst snd] in *.
  inversion Hc as [rt s1 Hfd Hrt Ht Hf Hm' Hd
                  | cl rt s1 Hfd Hio Hcl Hne Hrt Ht Hf Hm' Hd
                  | cl rt s1 Hfd Hio Hr3 Hcl Hne Hrt Ht Hf Hm' Hd
                  | cl s1 Hfd Hio Hr3 Hcl Hne Ht Hf Hm' Hd
                  | s1 Hfd];
    subst; clear Hc; try lia; try contradiction;
    rewrite (since_app s s' _ Ht).
  - split; [eexists; reflexivity |]. split; [| intros; lia].
    intros _. exists cl; eexists. split; [reflexivity |]. split; [reflexivity |].
    split; [exact Hcl |]. split; [exact Hne |]. split; assumption.
  - split; [eexists; reflexivity |]. split; [intros; lia |].
    intros _ e [= <-]. reflexivity.
  - split; [eexists; reflexivity |]. split; [intros; lia |].
    intros _ e [=].
Qed.

Lemma Xfer_binding_law (busfile : string) (P : Platform) (k fuel : nat)
      (odat : list byte) (olen ilen : Z) (i2caddr : byte) (s : state) :
  close_settles P k -> (k < fuel)%nat -> mtx s = false ->
  binding_law busfile P (Xfer busfile fuel odat olen ilen i2caddr) i2caddr s.
Proof.
  intros Hk Hfuel Hm. unfold binding_law. cbv zeta. intros Hfd0.
  pose proof (Xfer_cases busfile P odat olen ilen i2caddr s fuel Hm) as Hc.
  pose proof (Xfer_ends busfile P odat olen ilen i2caddr s k fuel Hk Hfuel Hm) as He.
  destruct (run P (Xfer busfile fuel odat olen ilen i2caddr) s) as [o s'].
  cbn [fst snd] in *.
  inversion Hc as [rt s1 Hfd Hrt Ht Hf Hm' Hd
                  | cl rt s1 Hfd Hio Hcl Hne Hrt Ht Hf Hm' Hd
                  | cl rt s1 Hfd Hio Hr3 Hcl Hne Hrt Ht Hf Hm' Hd
                  | cl rt s1 Hfd Hio Hr3 Hr4 Hcl Hne Hrt Ht Hf Hm' Hd
                  | cl s1 Hfd Hio Hr3 Hr4 Hcl Hne Ht Hf Hm' Hd
                  | s1 Hfd];
    subst; clear Hc; try lia; try contradiction;
    rewrite (since_app s s' _ Ht).
  - split; [eexists; reflexivity |]. split; [| intros; lia].
    intros _. exists cl; eexists. split; [reflexivity |]. split; [reflexivity |].
    split; [exact Hcl |]. split; [exact Hne |]. split; assumption.
  - split; [eexists; reflexivity |]. split; [intros; lia |].
    intros _ e [= <-]. reflexivity.
  - split; [eexists; reflexivity |]. split; [intros; lia |].
    intros _ e [= <-]. reflexivity.
  - split; [eexists; reflexivity |]. split; [intros; lia |].
    intros _ e [=].
Qed.

Lemma Xfer_answers_hold (busfile : string) (P : Platform) (k fuel : nat)
      (odat : list byte) (olen ilen : Z) (i2caddr : byte) (s : state) :
  close_settles P k -> (k < fuel)%nat -> mtx s = false ->
  Xfer_answers busfile P fuel odat olen ilen i2caddr s.
Proof.
  intros Hk Hfuel Hm. unfold Xfer_answers. cbv zeta. intros Hfd0 Hio0.
  pose proof (Xfer_cases busfile P odat olen ilen i2caddr s fuel Hm) as Hc.
  pose proof (Xfer_ends busfile P odat olen ilen i2caddr s k fuel Hk Hfuel Hm) as He.
  destruct (run P (Xfer busfile fuel odat olen ilen i2caddr) s) as [o s'].
  cbn [fst snd] in *.
  inversion Hc as [rt s1 Hfd Hrt Ht Hf Hm' Hd
                  | cl rt s1 Hfd Hio Hcl Hne Hrt Ht Hf Hm' Hd
                  | cl rt s1 Hfd Hio Hr3 Hcl Hne Hrt Ht Hf Hm' Hd
                  | cl rt s1 Hfd Hio Hr3 Hr4 Hcl Hne Hrt Ht Hf Hm' Hd
                  | cl s1 Hfd Hio Hr3 Hr4 Hcl Hne Ht Hf Hm' Hd
                  | s1 Hfd];
    subst; clear Hc; try lia; try contradiction;
    rewrite (since_app s s' _ Ht).
  - split; [| split; intros; contradiction].
    intros _. exists cl; eexists. split; [reflexivity |]. split; [reflexivity |].
    split; [exact Hcl |]. split; [exact Hne |].
    split; [| split; assumption].
    rewrite !calls_app, (calls_closes is_read _ cl eq_refl Hcl). reflexivity.
  - split; [intros; contradiction |]. split; [| intros; contradiction].
    intros _ _. exists cl; eexists. split; [reflexivity |]. split; [reflexivity |].
    split; [exact Hcl |]. split; assumption.
  - split; [intros; contradiction |]. split; [intros; contradiction |].
    intros _ _. exists cl. split; [reflexivity |]. split; [reflexivity |].
    split; [exact Hcl |]. split; [exact Hne |]. split; assumption.
Qed.

Lemma transfer_closed_after (busfile : string) (P : Platform) (k fuel : nat)
      (c : Z -> syscall) (len : Z) (addr : byte) (arg1 arg2 : string) (s : state) :
  open_posix P -> close_settles P k -> (k < fuel)%nat -> mtx s = false ->
  closed_after P (transfer busfile fuel c len addr arg1 arg2) s.
Proof.
  intros Hposix Hk Hfuel Hm.
  pose proof (transfer_cases busfile P c len addr arg1 arg2 s fuel Hm) as Hc.
  pose proof (transfer_ends busfile P c len addr arg1 arg2 s k fuel Hk Hfuel Hm) as He.
  pose proof (Hposix (trace s) busfile O_RDWR) as Hfd.
  unfold closed_after.
  destruct (run P (transfer busfile fuel c len addr arg1 arg2) s) as [o s'].
  cbn [fst snd] in *.
  inversion Hc; subst; clear Hc; try contradiction;
    (split; [eauto | first [assumption | lia]]).
Qed.

Lemma Xfer_closed_after (busfile : string) (P : Platform) (k fuel : nat)
      (odat : list byte) (olen ilen : Z) (i2caddr : byte) (s : state) :
  open_posix P -> close_settles P k -> (k < fuel)%nat -> mtx s = false ->
  closed_after P (Xfer busfile fuel odat olen ilen i2caddr) s.
Proof.
  intros Hposix Hk Hfuel Hm.
  pose proof (Xfer_cases busfile P odat olen ilen i2caddr s fuel Hm) as Hc.
  pose proof (Xfer_ends busfile P odat olen ilen i2caddr s k fuel Hk Hfuel Hm) as He.
  pose proof (Hposix (trace s) busfile O_RDWR) as Hfd.
  unfold closed_after.
  destruct (run P (Xfer busfile fuel odat olen ilen i2caddr) s) as [o s'].
  cbn [fst snd] in *.
  inversion Hc; subst; clear Hc; try contradiction;
    (split; [eauto | first [assumption | lia]]).
Qed.

Lemma transfer_called_at_most_once (busfile : string) (P : Platform) (k fuel : nat)
      (c : Z -> syscall) (len : Z) (addr : byte) (arg1 arg2 : string) (s : state) :
  (forall fd, is_open (c fd) = false) -> (forall fd, is_ioctl (c fd) = false) ->
  close_settles P k -> (k < fuel)%nat -> mtx s = false ->
  called_at_most_once P (transfer busfile fuel c len addr arg1 arg2) s.
Proof.
  intros Ko Ki Hk Hfuel Hm.
  pose proof (transfer_cases busfile P c len addr arg1 arg2 s fuel Hm) as Hc.
  pose proof (transfer_ends busfile P c len addr arg1 arg2 s k fuel Hk Hfuel Hm) as He.
  unfold called_at_most_once.
  destruct (run P (transfer busfile fuel c len addr arg1 arg2) s) as [o s'].
  cbn [fst snd] in *.
  inversion Hc; subst; clear Hc; try contradiction;
    calls_of_session; rewrite ?Ko, ?Ki; cbn [app List.length];
    repeat split; try lia;
    match goal with
    | |- context [is_read (c ?fd)] => destruct (is_read (c fd)); cbn; lia
    | |- context [is_write (c ?fd)] => destruct (is_write (c fd)); cbn; lia
    end.
Qed.

Lemma Xfer_called_at_most_once (busfile : string) (P : Platform) (k fuel : nat)
      (odat : list byte) (olen ilen : Z) (i2caddr : byte) (s : state) :
  close_settles P k -> (k < fuel)%nat -> mtx s = false ->
  called_at_most_once P (Xfer busfile fuel odat olen ilen i2caddr) s.
Proof.
  intros Hk Hfuel Hm.
  pose proof (Xfer_cases busfile P odat olen ilen i2caddr s fuel Hm) as Hc.
  pose proof (Xfer_ends busfile P odat olen ilen i2caddr s k fuel Hk Hfuel Hm) as He.
  unfold called_at_most_once.
  destruct (run P (Xfer busfile fuel odat olen ilen i2caddr) s) as [o s'].
  cbn [fst snd] in *.
  inversion Hc; subst; clear Hc; try contradiction;
    calls_of_session; repeat split; lia.
Qed.

Lemma transfer_same_failure (busfile : string) (P : Platform) (fuel : nat)
      (c : Z -> syscall) (len : Z) (addr : byte) (arg1 arg1' arg2 : string)
      (s : state) :
  mtx s = false ->
  same_failure (run P (transfer busfile fuel c len addr arg1 arg2) s)
               (run P (transfer busfile fuel c len addr arg1' arg2) s).
Proof.
  intros Hm. rewrite !transfer_run by exact Hm.
  destruct (run P (Open busfile fuel addr) (locked s)) as [[[] | e | |] s2];
    cbn [and_then released]; try (split; cbn; auto; fail).
  cbv zeta.
  destruct (run P (Close fuel) _) as [[[] | e | |] s4];
    cbn [and_then released]; try (split; cbn; auto; fail).
  destruct (ret _ =? len); cbn [released raise_at]; split; cbn; auto.
Qed.

(** ** Strings and buffers *)

Lemma size_nonneg (dat : string) : 0 <= size dat.
Proof. unfold size. lia. Qed.

Lemma int_of_size_t_size (dat : string) :
  size dat <= INT_MAX -> int_of_size_t (size dat) = size dat.
Proof.
  intros H. pose proof (size_nonneg dat) as H0. unfold INT_MAX in H.
  unfold int_of_size_t. rewrite Z.mod_small by lia.
  destruct (size dat <? 2 ^ 31) eqn:E; [reflexivity |].
  apply Z.ltb_ge in E. lia.
Qed.

Lemma size_t_of_int_size (dat : string) :
  size dat <= INT_MAX -> size_t_of_int (size dat) = size dat.
Proof.
  intros H. pose proof (size_nonneg dat) as H0. unfold INT_MAX in H.
  unfold size_t_of_int. apply Z.mod_small. lia.
Qed.

Lemma length_list_byte_of_string (dat : string) :
  List.length (list_byte_of_string dat) = String.length dat.
Proof.
  unfold list_byte_of_string. rewrite length_map.
  induction dat as [| a dat IH]; cbn; [reflexivity | now rewrite IH].
Qed.

(** The first [dat.size()] bytes at [dat.c_str()] are the bytes of [dat]. *)
Lemma c_str_payload (dat : string) :
  firstn (Z.to_nat (size dat)) (c_str dat) = list_byte_of_string dat.
Proof.
  unfold size, c_str. rewrite Nat2Z.id, <- length_list_byte_of_string.
  rewrite firstn_app, firstn_all, Nat.sub_diag. cbn. apply app_nil_r.
Qed.

Lemma Write_string_as_transfer (busfile : string) (fuel : nat) (dat : string)
      (addr : byte) :
  size dat <= INT_MAX ->
  Write_string busfile fuel dat addr =
  transfer busfile fuel (fun fd => sys_write fd (c_str dat) (size dat)) (size dat)
           addr "I2CBus::Write(dat, addr)" "Write length error.".
Proof.
  intros H. rewrite Write_string_transfer.
  rewrite (int_of_size_t_size dat H), (size_t_of_int_size dat H). reflexivity.
Qed.

Lemma overwrite_firstn (src dst : list byte) :
  firstn (List.length src) (overwrite src dst) = src.
Proof.
  unfold overwrite. rewrite firstn_app, firstn_all, Nat.sub_diag. cbn.
  apply app_nil_r.
Qed.

Lemma overwrite_skipn (src dst : list byte) :
  skipn (List.length src) (overwrite src dst) = skipn (List.length src) dst.
Proof.
  unfold overwrite. rewrite skipn_app, skipn_all, Nat.sub_diag. reflexivity.
Qed.

Lemma overwrite_length (src dst : list byte) :
  (List.length src <= List.length dst)%nat ->
  List.length (overwrite src dst) = List.length dst.
Proof.
  intros H. unfold overwrite. rewrite length_app, length_skipn. lia.
Qed.

Lemma size_t_of_int_1 : size_t_of_int 1 = 1.
Proof. reflexivity. Qed.

(** ** Programs and the mutex *)

Lemma lockfree_bind {A B : Type} (p : prog A) (f : A -> prog B) :
  lockfree p -> (forall a, lockfree (f a)) -> lockfree (bind p f).
Proof.
  intros Hp Hf. induction p as [a | e | | a k IH]; cbn in *; auto.
  destruct Hp as [Ha Hk]. split; [exact Ha |]. intros r. apply IH. apply Hk.
Qed.

Lemma holding_lock_guard_scope {A : Type} (body : prog A) :
  lockfree body -> holding (lock_guard_scope body).
Proof.
  induction body as [a | e | | a k IH]; cbn; intros H; auto.
  destruct H as [Ha Hk].
  destruct a; try discriminate Ha; intros r; apply IH; apply Hk.
Qed.

Lemma waiting_lock_guard {A : Type} (body : prog A) :
  lockfree body -> waiting (lock_guard body).
Proof. intros H r. apply holding_lock_guard_scope. exact H. Qed.

Lemma lockfree_call (c : syscall) : lockfree (call c).
Proof. cbn. auto. Qed.

Lemma lockfree_load_file : lockfree load_file.
Proof. cbn. auto. Qed.

Lemma lockfree_load_errno : lockfree load_errno.
Proof. cbn. auto. Qed.

Lemma lockfree_store_file (v : Z) : lockfree (store_file v).
Proof. cbn. auto. Qed.

Lemma lockfree_store_errno (v : Z) : lockfree (store_errno v).
Proof. cbn. auto. Qed.

Lemma lockfree_throw_I2CException {A : Type} (msg proc : string) :
  lockfree (iexc <- new_I2CException msg proc ;; Throw (A := A) iexc).
Proof. cbn. auto. Qed.

Lemma lockfree_throw_I2CNotFoundException {A : Type} (msg proc : string) :
  lockfree (nfexc <- new_I2CNotFoundException msg proc ;; Throw (A := A) nfexc).
Proof. cbn. auto. Qed.

Lemma lockfree_close_file : lockfree close_file.
Proof. cbn. auto. Qed.

Lemma lockfree_TEMP_FAILURE_RETRY (fuel : nat) (expression : prog Z) :
  lockfree expression -> lockfree (TEMP_FAILURE_RETRY fuel expression).
Proof.
  intros He. induction fuel as [| fuel IH]; cbn [TEMP_FAILURE_RETRY]; [exact I |].
  apply lockfree_bind; [exact He | intros result].
  apply lockfree_bind; [apply lockfree_load_errno | intros errno].
  destruct ((result =? -1) && (errno =? EINTR)); [exact IH | exact I].
Qed.

Create HintDb lockfree.

#[local] Hint Resolve lockfree_call lockfree_load_file lockfree_load_errno
  lockfree_store_file lockfree_store_errno lockfree_close_file
  lockfree_TEMP_FAILURE_RETRY : lockfree.

(** Goes through a program statement by statement. *)
Ltac lockfree_steps :=
  repeat first
    [ exact I
    | apply lockfree_throw_I2CException
    | apply lockfree_throw_I2CNotFoundException
    | solve [auto with lockfree]
    | apply lockfree_bind; [| intros ?]
    | match goal with
      | |- lockfree (if ?b then _ else _) => destruct b
      | |- lockfree (let _ := _ in _) => cbv zeta
      end ].

Lemma lockfree_Close (fuel : nat) : lockfree (Close fuel).
Proof. unfold Close. lockfree_steps. Qed.

#[local] Hint Resolve lockfree_Close : lockfree.

Lemma lockfree_Open (busfile : string) (fuel : nat) (addr : byte) :
  lockfree (Open busfile fuel addr).
Proof. unfold Open. lockfree_steps. Qed.

#[local] Hint Resolve lockfree_Open : lockfree.

Lemma waiting_public_operation (busfile : string) (p : prog unit) :
  public_operation busfile p -> waiting p.
Proof.
  intros [fuel len addr | fuel data len addr | fuel dat addr
          | fuel odat olen ilen i2caddr];
    apply waiting_lock_guard; lockfree_steps.
Qed.

(** ** A thread that runs alone *)

Lemma exec_cons (P : Platform) (t : thread) (schedule : list thread) (g : config) :
  exec P (t :: schedule) g = exec P schedule (step P t g).
Proof. reflexivity. Qed.

Lemma exec_idle (P : Platform) (t : thread) (g : config) (m : nat) :
  step P t g = g -> exec P (repeat t m) g = g.
Proof.
  intros H. induction m as [| m IH]; [reflexivity |].
  cbn. rewrite H. exact IH.
Qed.

Lemma view_commit (t : thread) (a : action) (s' : state) (p : prog unit)
      (g : config) :
  view t (commit t a s' p g) = s'.
Proof. destruct t, s'; reflexivity. Qed.

Lemma thread_of_commit_other (t : thread) (a : action) (s' : state) (p : prog unit)
      (g : config) :
  thread_of (other t) (commit t a s' p g) = thread_of (other t) g.
Proof. destruct t; reflexivity. Qed.

(** The steps of one thread, when the other is never scheduled, are the
    run of its program: [exec] and [run] agree. *)
Lemma exec_alone (P : Platform) (t : thread) (p : prog unit) :
  forall g,
    t_prog (thread_of t g) = p ->
    exists n, forall m, (n <= m)%nat ->
      let g' := exec P (repeat t m) g in
      view t g' = snd (run P p (view t g))
      /\ ended_as (fst (run P p (view t g))) (t_prog (thread_of t g'))
      /\ thread_of (other t) g' = thread_of (other t) g.
Proof.
  induction p as [a | e | | a k IH]; intros g Hp.
  - exists 0%nat. intros m _. cbv zeta.
    rewrite exec_idle by (unfold step; rewrite Hp; reflexivity).
    cbn. auto.
  - exists 0%nat. intros m _. cbv zeta.
    rewrite exec_idle by (unfold step; rewrite Hp; reflexivity).
    cbn. auto.
  - exists 0%nat. intros m _. cbv zeta.
    rewrite exec_idle by (unfold step; rewrite Hp; reflexivity).
    cbn. auto.
  - cbn [run]. destruct (perform P a (view t g)) as [[r s1] |] eqn:Hperf.
    + destruct (IH r (commit t a s1 (k r) g)) as (n & Hn).
      { destruct t; reflexivity. }
      exists (S n). intros [| m] Hm; [lia |].
      change (repeat t (S m)) with (t :: repeat t m). rewrite exec_cons.
      assert (Hs : step P t g = commit t a s1 (k r) g)
        by (unfold step; rewrite Hp, Hperf; reflexivity).
      rewrite Hs.
      specialize (Hn m ltac:(lia)). cbv zeta in Hn.
      rewrite view_commit, thread_of_commit_other in Hn. exact Hn.
    + exists 0%nat. intros m _. cbv zeta.
      rewrite exec_idle by (unfold step; rewrite Hp, Hperf; reflexivity).
      cbn [fst snd ended_as]. split; [reflexivity |]. split; [| reflexivity].
      rewrite Hp. destruct a; try discriminate Hperf. eauto.
Qed.

(** ** Preservation of the invariant *)

Lemma other_other (t : thread) : other (other t) = t.
Proof. destruct t; reflexivity. Qed.

Lemma other_neq (t : thread) : other t <> t.
Proof. destruct t; discriminate. Qed.

Lemma waiting_not_holding {A : Type} (p : prog A) : waiting p -> holding p -> False.
Proof. destruct p as [a | e | | [] k]; cbn; auto. Qed.

Lemma finished_not_holding {A : Type} (p : prog A) : finished p -> holding p -> False.
Proof. destruct p as [a | e | | [] k]; cbn; auto. Qed.

Lemma finished_not_waiting {A : Type} (p : prog A) : finished p -> waiting p -> False.
Proof. destruct p as [a | e | | [] k]; cbn; auto. Qed.

Lemma all_by_other (t : thread) (l : list thread) :
  ~ In t l -> l = repeat (other t) (List.length l).
Proof.
  induction l as [| a l IH]; intros H; [reflexivity |].
  cbn. f_equal.
  - destruct a, t; try reflexivity; exfalso; apply H; left; reflexivity.
  - apply IH. intros Hin. apply H. right. exact Hin.
Qed.

Lemma repeat_snoc (t : thread) (n : nat) :
  (repeat t n ++ [t])%list = repeat t (S n).
Proof. symmetry. apply repeat_cons. Qed.

Lemma prog_of_commit_same (t : thread) (a : action) (s' : state) (p : prog unit)
      (g : config) :
  prog_of t (commit t a s' p g) = p.
Proof. destruct t; reflexivity. Qed.

Lemma prog_of_commit_other (t : thread) (a : action) (s' : state) (p : prog unit)
      (g : config) :
  prog_of (other t) (commit t a s' p g) = prog_of (other t) g.
Proof. destruct t; reflexivity. Qed.

(** Two threads: a thread is the one that steps, or the other. *)
Lemma thread_cases (t u : thread) : u = t \/ u = other t.
Proof. destruct t, u; auto. Qed.

Section Preservation.

Variable P : Platform.

(** The constructor of the [lock_guard] takes the free mutex. *)
Lemma invariant_lock (g : config) (t : thread) (k : reply -> prog unit) :
  invariant g -> prog_of t g = Do MtxLock k -> c_mtx g = false ->
  invariant (commit t MtxLock (locked (view t g)) (k done) g).
Proof.
  intros Hinv Hp Hm.
  assert (Hw : waiting (prog_of t g)).
  { destruct (inv_phase g Hinv t) as [Hw | [Hh | Hf]]; [exact Hw | |];
      rewrite Hp in *; contradiction. }
  assert (Hk : holding (k done)) by (rewrite Hp in Hw; apply Hw).
  constructor.
  - intros u. destruct (thread_cases t u) as [-> | ->].
    + rewrite prog_of_commit_same. auto.
    + rewrite prog_of_commit_other. apply (inv_phase g Hinv).
  - cbn. discriminate.
  - intros u. destruct (thread_cases t u) as [-> | ->].
    + rewrite prog_of_commit_same, prog_of_commit_other. intros _.
      apply (inv_free g Hinv Hm).
    + rewrite other_other, prog_of_commit_same, prog_of_commit_other.
      intros Hh. exfalso. exact (inv_free g Hinv Hm _ Hh).
  - intros u. destruct (thread_cases t u) as [-> | ->].
    + rewrite prog_of_commit_same. intros Hw'. exfalso.
      exact (waiting_not_holding _ Hw' Hk).
    + rewrite prog_of_commit_other. cbn. apply (inv_waiting g Hinv).
  - intros u. destruct (thread_cases t u) as [-> | ->].
    + intros _. cbn [commit c_callers].
      exists (List.length (c_callers g)), 0%nat. cbn [repeat]. rewrite app_nil_r.
      apply all_by_other. apply (inv_waiting g Hinv). exact Hw.
    + rewrite prog_of_commit_other. intros Hh. exfalso.
      exact (inv_free g Hinv Hm _ Hh).
  - cbn. apply (inv_serial g Hinv).
  - cbn. apply (inv_length g Hinv).
Qed.

(** The destructor of the [lock_guard] releases the mutex: the session of
    the thread is over. *)
Lemma invariant_unlock (g : config) (t : thread) (k : reply -> prog unit) :
  invariant g -> prog_of t g = Do MtxUnlock k -> holding (prog_of t g) ->
  invariant (commit t MtxUnlock (unlocked (view t g)) (k done) g).
Proof.
  intros Hinv Hp Hh.
  assert (Hf : finished (k done)) by (rewrite Hp in Hh; apply Hh).
  pose proof (inv_excl g Hinv t Hh) as Hother.
  constructor.
  - intros u. destruct (thread_cases t u) as [-> | ->].
    + rewrite prog_of_commit_same. auto.
    + rewrite prog_of_commit_other. apply (inv_phase g Hinv).
  - intros _ u. destruct (thread_cases t u) as [-> | ->].
    + rewrite prog_of_commit_same. intros Hh'.
      exact (finished_not_holding _ Hf Hh').
    + rewrite prog_of_commit_other. exact Hother.
  - intros u. destruct (thread_cases t u) as [-> | ->].
    + rewrite prog_of_commit_same. intros Hh'. exfalso.
      exact (finished_not_holding _ Hf Hh').
    + rewrite prog_of_commit_other. intros Hh'. contradiction.
  - intros u. destruct (thread_cases t u) as [-> | ->].
    + rewrite prog_of_commit_same. intros Hw. exfalso.
      exact (finished_not_waiting _ Hf Hw).
    + rewrite prog_of_commit_other. cbn. apply (inv_waiting g Hinv).
  - intros u. destruct (thread_cases t u) as [-> | ->].
    + rewrite prog_of_commit_same. intros Hh'. exfalso.
      exact (finished_not_holding _ Hf Hh').
    + rewrite prog_of_commit_other. intros Hh'. contradiction.
  - cbn. apply (inv_serial g Hinv).
  - cbn. apply (inv_length g Hinv).
Qed.

(** What an action other than lock and unlock does to the shared state. *)
Lemma perform_inside (a : action) (s s' : state) (r : reply) :
  touches_mutex a = false -> perform P a s = Some (r, s') ->
  mtx s' = mtx s
  /\ List.length (trace s')
     = (List.length (trace s) + match a with Sys _ => 1 | _ => 0 end)%nat.
Proof.
  intros Ha Hperf. destruct a; try discriminate Ha; cbn in Hperf;
    injection Hperf as <- <-; cbn; rewrite ?length_app; cbn;
    (split; [reflexivity | lia]).
Qed.

(** A step inside the session. *)
Lemma invariant_inside (g : config) (t : thread) (a : action)
      (k : reply -> prog unit) (r : reply) (s' : state) :
  invariant g -> prog_of t g = Do a k -> holding (prog_of t g) ->
  touches_mutex a = false -> perform P a (view t g) = Some (r, s') ->
  invariant (commit t a s' (k r) g).
Proof.
  intros Hinv Hp Hh Ha Hperf.
  assert (Hk : holding (k r)).
  { rewrite Hp in Hh. destruct a; try discriminate Ha; apply Hh. }
  pose proof (inv_excl g Hinv t Hh) as Hother.
  destruct (perform_inside a (view t g) s' r Ha Hperf) as [Hm Hlen].
  cbn [view mtx trace] in Hm, Hlen.
  assert (Hcallers : c_callers (commit t a s' (k r) g)
                     = (c_callers g ++ match a with Sys _ => [t] | _ => [] end)%list).
  { cbn. destruct a; rewrite ?app_nil_r; reflexivity. }
  destruct (inv_holding g Hinv t Hh) as (m & n & Hmn).
  assert (Hshape : exists n', c_callers (commit t a s' (k r) g)
                              = (repeat (other t) m ++ repeat t n')%list).
  { rewrite Hcallers, Hmn. destruct a;
      try (exists n; rewrite app_nil_r; reflexivity).
    exists (S n). rewrite <- app_assoc, repeat_snoc. reflexivity. }
  constructor.
  - intros u. destruct (thread_cases t u) as [-> | ->].
    + rewrite prog_of_commit_same. auto.
    + rewrite prog_of_commit_other. apply (inv_phase g Hinv).
  - cbn [commit c_mtx]. rewrite Hm. intros Hfree. exfalso.
    exact (inv_free g Hinv Hfree t Hh).
  - intros u. destruct (thread_cases t u) as [-> | ->].
    + rewrite prog_of_commit_same, prog_of_commit_other. intros _. exact Hother.
    + rewrite prog_of_commit_other. intros Hh'. contradiction.
  - intros u. destruct (thread_cases t u) as [-> | ->].
    + rewrite prog_of_commit_same. intros Hw. exfalso.
      exact (waiting_not_holding _ Hw Hk).
    + rewrite prog_of_commit_other, Hcallers. intros Hw Hin.
      apply in_app_or in Hin. destruct Hin as [Hin | Hin].
      * exact (inv_waiting g Hinv _ Hw Hin).
      * destruct a; cbn in Hin; try contradiction.
        destruct Hin as [Heq | []]. symmetry in Heq. exact (other_neq t Heq).
  - intros u. destruct (thread_cases t u) as [-> | ->].
    + intros _. destruct Hshape as (n' & Hn'). exists m, n'. exact Hn'.
    + rewrite prog_of_commit_other. intros Hh'. contradiction.
  - destruct Hshape as (n' & Hn'). rewrite Hn'.
    exists (other t), m, n'. rewrite other_other. reflexivity.
  - rewrite Hcallers. cbn [commit c_trace]. rewrite Hlen, length_app.
    rewrite (inv_length g Hinv). destruct a; reflexivity.
Qed.

End Preservation.

Lemma invariant_step (P : Platform) (t : thread) (g : config) :
  invariant g -> invariant (step P t g).
Proof.
  intros Hinv. unfold step.
  destruct (t_prog (thread_of t g)) as [[] | e | | a k] eqn:Hp; try exact Hinv.
  destruct (perform P a (view t g)) as [[r s'] |] eqn:Hperf; [| exact Hinv].
  change (prog_of t g = Do a k) in Hp.
  destruct (inv_phase g Hinv t) as [Hw | [Hh | Hf]].
  - rewrite Hp in Hw. destruct a; cbn in Hw; try contradiction.
    cbn in Hperf. destruct (c_mtx g) eqn:Hm; [discriminate |].
    injection Hperf as <- <-. apply invariant_lock; assumption.
  - destruct (touches_mutex a) eqn:Ha.
    + destruct a; try discriminate Ha.
      * rewrite Hp in Hh. contradiction.
      * cbn in Hperf. injection Hperf as <- <-.
        apply invariant_unlock; assumption.
    + apply (invariant_inside P g t a k r s'); assumption.
  - rewrite Hp in Hf. contradiction.
Qed.

Lemma invariant_exec (P : Platform) (schedule : list thread) :
  forall g, invariant g -> invariant (exec P schedule g).
Proof.
  induction schedule as [| t schedule IH]; intros g Hinv; [exact Hinv |].
  cbn. apply IH. apply invariant_step. exact Hinv.
Qed.

Lemma invariant_start (p1 p2 : prog unit) (errno1 errno2 : Z)
      (data1 data2 : list byte) :
  waiting p1 -> waiting p2 ->
  invariant (start p1 p2 errno1 errno2 data1 data2).
Proof.
  intros H1 H2. constructor.
  - intros []; left; assumption.
  - intros _ [] Hh; cbn in Hh;
      [exact (waiting_not_holding _ H1 Hh) | exact (waiting_not_holding _ H2 Hh)].
  - intros [] Hh; cbn in Hh; exfalso;
      [exact (waiting_not_holding _ H1 Hh) | exact (waiting_not_holding _ H2 Hh)].
  - intros t _ [].
  - intros [] Hh; cbn in Hh; exfalso;
      [exact (waiting_not_holding _ H1 Hh) | exact (waiting_not_holding _ H2 Hh)].
  - exists T1, 0%nat, 0%nat. reflexivity.
  - reflexivity.
Qed.

Lemma combine_repeat_fst (b : thread) (m : nat) : forall tr : list event,
  Forall (fun x => fst x = b) (combine (repeat b m) tr).
Proof.
  induction m as [| m IH]; intros [| e tr]; cbn; constructor; auto.
Qed.

Lemma combine_serial (a b : thread) (n m : nat) : forall tr : list event,
  exists l1 l2,
    combine (repeat a n ++ repeat b m) tr = (l1 ++ l2)%list
    /\ Forall (fun x => fst x = a) l1 /\ Forall (fun x => fst x = b) l2.
Proof.
  induction n as [| n IH]; intros tr.
  - exists [], (combine (repeat b m) tr). cbn.
    split; [reflexivity |]. split; [constructor | apply combine_repeat_fst].
  - destruct tr as [| e tr].
    + exists [], []. cbn. repeat split; constructor.
    + destruct (IH tr) as (l1 & l2 & Heq & H1 & H2).
      exists ((a, e) :: l1), l2. cbn. rewrite Heq.
      split; [reflexivity |]. split; [constructor; auto | exact H2].
Qed.

Lemma invariant_no_interleaving (g : config) : invariant g -> no_interleaving g.
Proof.
  intros Hinv. split; [apply (inv_length g Hinv) |].
  destruct (inv_serial g Hinv) as (a & n & m & Hs).
  destruct (combine_serial a (other a) n m (c_trace g)) as (l1 & l2 & Heq & H1 & H2).
  exists a, l1, l2. unfold calls_by. rewrite Hs. auto.
Qed.

(** * Properties *)

(** ** Transfer lengths *)

(** C1.  A call of [Read(data, len, addr)] or [Write(data, len, addr)] that
    returns has had its [::read] / [::write] report exactly [len] bytes; and
    whenever the reported count is not [len], the call does not return but
    throws an [I2CException] (the generic failure). *)
Theorem C1_transfer_length_checked
        (busfile : string) (P : Platform) (k fuel : nat) (s : state)
        (len : Z) (odata : list byte) (olen : Z) (addr : byte) :
  close_settles P k -> (k < fuel)%nat -> mtx s = false ->
  length_checked P (Read busfile fuel len addr) is_read len s
  /\ length_checked P (Write busfile fuel odata olen addr) is_write olen s.
Proof.
  intros Hk Hfuel Hm. split.
  - rewrite Read_transfer.
    apply transfer_length_checked with (k := k); auto.
  - rewrite Write_transfer.
    apply transfer_length_checked with (k := k); auto.
Qed.

Lemma C1_transfer_length_checked_witness :
  close_settles scenario_A 0 /\ (0 < 1)%nat /\ mtx (I2CBus 0 [x00] []) = false
  /\ length_checked scenario_A (Read BBB_I2C1_FILE 1 1 x50) is_read 1
                    (I2CBus 0 [x00] [])
  /\ length_checked scenario_A (Write BBB_I2C1_FILE 1 [x10] 1 x50) is_write 1
                    (I2CBus 0 [x00] []).
Proof.
  split; [apply scripted_settles; reflexivity |].
  split; [lia |]. split; [reflexivity |].
  apply (C1_transfer_length_checked BBB_I2C1_FILE scenario_A 0 1
           (I2CBus 0 [x00] []) 1 [x10] 1 x50).
  - apply scripted_settles; reflexivity.
  - lia.
  - reflexivity.
Defined.

(** ** Device not found *)

(** C2.  In every public operation a failed address configuration ([ioctl]
    returning a negative value) makes the operation throw
    [I2CNotFoundException], not the generic [I2CException]; that exception is
    thrown in no other case; and when it is thrown the handle that [Open] got
    from [::open] has been handed to [::close] first, and [file] is [-1].
    Stated twice: on the calls the operation made ([not_found_law]), and on
    the platform's answers ([binding_law]): once [::open] gave a descriptor
    the operation does call the [ioctl] with the address, and the platform's
    negative answer to it gives [::close] on that descriptor and then the
    [I2CNotFoundException] with the text of the address. *)
Theorem C2_binding_failure_is_not_found
        (busfile : string) (P : Platform) (k fuel : nat) (s : state)
        (len : Z) (odat : list byte) (olen : Z) (dat : string) (addr : byte) :
  close_settles P k -> (k < fuel)%nat -> mtx s = false ->
  (not_found_law P (Read busfile fuel len addr) s
   /\ binding_law busfile P (Read busfile fuel len addr) addr s)
  /\ (not_found_law P (Write busfile fuel odat olen addr) s
      /\ binding_law busfile P (Write busfile fuel odat olen addr) addr s)
  /\ (not_found_law P (Write_string busfile fuel dat addr) s
      /\ binding_law busfile P (Write_string busfile fuel dat addr) addr s)
  /\ (not_found_law P (Xfer busfile fuel odat olen len addr) s
      /\ binding_law busfile P (Xfer busfile fuel odat olen len addr) addr s).
Proof.
  intros Hk Hfuel Hm. split; [| split; [| split]]; split.
  - rewrite Read_transfer. apply transfer_not_found_law with (k := k); auto.
  - rewrite Read_transfer. apply transfer_binding_law with (k := k); auto.
  - rewrite Write_transfer. apply transfer_not_found_law with (k := k); auto.
  - rewrite Write_transfer. apply transfer_binding_law with (k := k); auto.
  - rewrite Write_string_transfer. apply transfer_not_found_law with (k := k); auto.
  - rewrite Write_string_transfer. apply transfer_binding_law with (k := k); auto.
  - apply Xfer_not_found_law with (k := k); auto.
  - apply Xfer_binding_law with (k := k); auto.
Qed.

Lemma C2_binding_failure_is_not_found_witness :
  close_settles scenario_C 0 /\ (0 < 1)%nat /\ mtx (I2CBus 0 [] []) = false
  /\ (not_found_law scenario_C (Read BBB_I2C1_FILE 1 4 x77) (I2CBus 0 [] [])
      /\ binding_law BBB_I2C1_FILE scenario_C (Read BBB_I2C1_FILE 1 4 x77) x77
                     (I2CBus 0 [] []))
  /\ (not_found_law scenario_C (Write BBB_I2C1_FILE 1 [x10] 1 x77) (I2CBus 0 [] [])
      /\ binding_law BBB_I2C1_FILE scenario_C (Write BBB_I2C1_FILE 1 [x10] 1 x77) x77
                     (I2CBus 0 [] []))
  /\ (not_found_law scenario_C (Write_string BBB_I2C1_FILE 1 "on" x77) (I2CBus 0 [] [])
      /\ binding_law BBB_I2C1_FILE scenario_C (Write_string BBB_I2C1_FILE 1 "on" x77)
                     x77 (I2CBus 0 [] []))
  /\ (not_found_law scenario_C (Xfer BBB_I2C1_FILE 1 [x10] 1 4 x77) (I2CBus 0 [] [])
      /\ binding_law BBB_I2C1_FILE scenario_C (Xfer BBB_I2C1_FILE 1 [x10] 1 4 x77) x77
                     (I2CBus 0 [] [])).
Proof.
  split; [apply scripted_settles; reflexivity |].
  split; [lia |]. split; [reflexivity |].
  apply (C2_binding_failure_is_not_found BBB_I2C1_FILE scenario_C 0 1 (I2CBus 0 [] [])).
  - apply scripted_settles; reflexivity.
  - lia.
  - reflexivity.
Defined.

(** ** The handle after a session *)

(** C3.  [Close] with no handle open ([file == -1]) returns at once: it
    calls nothing on the platform, and the bus ([file], the mutex) and the
    caller's buffer are as before (of the thread's state only [errno] is
    touched, by the [errno = 0] that opens the function).  And after [Read],
    either [Write] and [Xfer], by return or by exception, [file] is [-1]. *)
Theorem C3_handle_closed_after_every_call
        (busfile : string) (P : Platform) (k fuel : nat) (s : state)
        (len : Z) (odat : list byte) (olen : Z) (dat : string) (addr : byte) :
  open_posix P -> close_settles P k -> (k < fuel)%nat -> mtx s = false ->
  (forall fuel0 s0,
      file s0 = -1 ->
      exists s', run P (Close fuel0) s0 = (Returned tt, s')
                 /\ file s' = -1 /\ mtx s' = mtx s0 /\ data s' = data s0
                 /\ trace s' = trace s0 /\ errno s' = 0)
  /\ closed_after P (Read busfile fuel len addr) s
  /\ closed_after P (Write busfile fuel odat olen addr) s
  /\ closed_after P (Write_string busfile fuel dat addr) s
  /\ closed_after P (Xfer busfile fuel odat olen len addr) s.
Proof.
  intros Hposix Hk Hfuel Hm. split; [| split; [| split; [| split]]].
  - intros fuel0 s0 Hf. rewrite (Close_not_open P fuel0 s0 Hf).
    exists (with_errno 0 s0). cbn. repeat split. exact Hf.
  - rewrite Read_transfer. apply transfer_closed_after with (k := k); assumption.
  - rewrite Write_transfer. apply transfer_closed_after with (k := k); assumption.
  - rewrite Write_string_transfer. apply transfer_closed_after with (k := k); assumption.
  - apply Xfer_closed_after with (k := k); assumption.
Qed.

Lemma C3_handle_closed_after_every_call_witness :
  open_posix scenario_D /\ close_settles scenario_D 0 /\ (0 < 1)%nat
  /\ mtx (I2CBus 0 [x00; x00] []) = false
  /\ (exists s', run scenario_D (Close 1) (I2CBus 5 [x00; x00] []) = (Returned tt, s')
                 /\ file s' = -1 /\ trace s' = [] /\ errno s' = 0)
  /\ closed_after scenario_D (Xfer BBB_I2C1_FILE 1 [x00] 1 2 x50) (I2CBus 0 [x00; x00] []).
Proof.
  split; [apply scripted_open_posix; reflexivity |].
  split; [apply scripted_settles; reflexivity |].
  split; [lia |]. split; [reflexivity |].
  destruct (C3_handle_closed_after_every_call BBB_I2C1_FILE scenario_D 0 1
              (I2CBus 0 [x00; x00] []) 2 [x00] 1 "" x50)
    as (Hclose & _ & _ & _ & Hxfer).
  - apply scripted_open_posix; reflexivity.
  - apply scripted_settles; reflexivity.
  - lia.
  - reflexivity.
  - split; [| exact Hxfer].
    destruct (Hclose 1%nat (I2CBus 5 [x00; x00] []) eq_refl)
      as (s' & Hrun & Hf & _ & _ & Ht & He).
    exists s'. repeat split; assumption.
Defined.

(** ** The two phases of [Xfer] *)

Lemma Xfer_phases_hold (busfile : string) (P : Platform) (k fuel : nat) (s : state)
      (odat : list byte) (olen ilen : Z) (i2caddr : byte) :
  close_settles P k -> (k < fuel)%nat -> mtx s = false ->
  Xfer_phases busfile P fuel odat olen ilen i2caddr s.
Proof.
  intros Hk Hfuel Hm.
  pose proof (Xfer_cases busfile P odat olen ilen i2caddr s fuel Hm) as Hc.
  pose proof (Xfer_ends busfile P odat olen ilen i2caddr s k fuel Hk Hfuel Hm) as He.
  unfold Xfer_phases.
  destruct (run P (Xfer busfile fuel odat olen ilen i2caddr) s) as [o s'].
  cbn [fst snd] in *.
  inversion Hc as [rt s1 Hfd | cl rt s1 Hfd Hio | cl rt s1 Hfd Hio Hwr
                   | cl rt s1 Hfd Hio Hwr Hrd | cl s1 Hfd Hio Hwr Hrd | s1 Hfd];
    subst; clear Hc; try contradiction;
    match goal with
    | H : trace s' = (trace s ++ _)%list |- _ => rewrite (since_app s s' _ H)
    end;
    calls_of_session; cbn [In].
  - split; [intros Hne; exfalso; apply Hne; reflexivity |]. split; intros ? [].
  - split; [intros Hne; exfalso; apply Hne; reflexivity |]. split; intros ? [].
  - split; [intros Hne; exfalso; apply Hne; reflexivity |]. split; [| intros ? []].
    intros n [<- | []] _. split; [eauto |]. split; [reflexivity |].
    split; [assumption |]. eexists _, _, _, cl, _. split; [reflexivity |].
    split; assumption.
  - split; [intros _; rewrite Hwr; reflexivity |].
    split; [intros n [<- | []] Hn; contradiction |].
    intros m [<- | []] _. split; [eauto |]. split; [assumption |].
    eexists _, _, _, _, cl, _. split; [reflexivity |]. split; assumption.
  - split; [intros _; rewrite Hwr; reflexivity |].
    split; [intros n [<- | []] Hn; contradiction |].
    intros m [<- | []] Hm'. contradiction.
Qed.

(** C4.  In [Xfer(odat, olen, idat, ilen, i2caddr)] the [::read] is called
    only after the [::write] reported exactly [olen]; when the write reports
    another count the operation throws the generic [I2CException] with no
    call of [::read] and with the handle closed before the exception is
    built; when the write reports [olen] and the read reports a count other
    than [ilen], the handle is closed and then the generic exception is
    thrown.  Stated twice: on the calls that [Xfer] made ([Xfer_phases]),
    and on the platform's answers ([Xfer_answers]): once [::open] gave a
    descriptor and the address was accepted, [Xfer] does call [::write], and
    the platform's answers to the [::write] and to the [::read] decide
    between the two exceptions and the return. *)
Theorem C4_Xfer_write_then_read
        (busfile : string) (P : Platform) (k fuel : nat) (s : state)
        (odat : list byte) (olen ilen : Z) (i2caddr : byte) :
  close_settles P k -> (k < fuel)%nat -> mtx s = false ->
  Xfer_phases busfile P fuel odat olen ilen i2caddr s
  /\ Xfer_answers busfile P fuel odat olen ilen i2caddr s.
Proof.
  intros Hk Hfuel Hm. split.
  - apply Xfer_phases_hold with (k := k); assumption.
  - apply Xfer_answers_hold with (k := k); assumption.
Qed.

Lemma C4_Xfer_write_then_read_witness :
  close_settles scenario_E 0 /\ (0 < 1)%nat /\ mtx (I2CBus 0 [x00; x00] []) = false
  /\ Xfer_phases BBB_I2C1_FILE scenario_E 1 [x00] 1 2 x50 (I2CBus 0 [x00; x00] [])
  /\ Xfer_answers BBB_I2C1_FILE scenario_E 1 [x00] 1 2 x50 (I2CBus 0 [x00; x00] []).
Proof.
  split; [apply scripted_settles; reflexivity |].
  split; [lia |]. split; [reflexivity |].
  apply (C4_Xfer_write_then_read BBB_I2C1_FILE scenario_E 0 1).
  - apply scripted_settles; reflexivity.
  - lia.
  - reflexivity.
Defined.

(** ** What an exception tells *)

Lemma transfer_raised_strings (busfile : string) (P : Platform) (fuel : nat)
      (c : Z -> syscall) (len : Z) (addr : byte) (arg1 arg2 : string) (s : state)
      (e : I2CException) :
  mtx s = false ->
  fst (run P (transfer busfile fuel c len addr arg1 arg2) s) = Raised e ->
  (message e = Open_arg1 \/ message e = arg1)
  /\ (procname e = Open_no_bus busfile \/ procname e = Open_no_device addr
      \/ procname e = arg2).
Proof.
  intros Hm Hrun.
  pose proof (transfer_cases busfile P c len addr arg1 arg2 s fuel Hm) as Hc.
  rewrite Hrun in Hc. inversion Hc; subst; cbn; auto.
Qed.

(** In every exception that a public operation throws, [why()] is the name
    of a function and [who()] is the text of the error. *)
Lemma why_is_a_name_and_who_is_the_text
      (busfile : string) (P : Platform) (p : prog unit) (s : state)
      (e : I2CException) :
  public_operation busfile p -> mtx s = false ->
  fst (run P p s) = Raised e ->
  In (why e) [Open_arg1; "I2CBus::Read(data, len, addr)";
              "I2CBus::Write(data, len, addr)"; "I2CBus::Write(dat, addr)";
              Xfer_arg1]
  /\ (who e = Open_no_bus busfile
      \/ (exists addr, who e = Open_no_device addr)
      \/ who e = "Read length error." \/ who e = "Write length error.").
Proof.
  intros Hp Hm Hrun. unfold why, who.
  destruct Hp as [fuel len addr | fuel data len addr | fuel dat addr
                  | fuel odat olen ilen i2caddr].
  - rewrite Read_transfer in Hrun.
    destruct (transfer_raised_strings _ _ _ _ _ _ _ _ _ _ Hm Hrun)
      as [[-> | ->] [-> | [-> | ->]]]; cbn; intuition eauto.
  - rewrite Write_transfer in Hrun.
    destruct (transfer_raised_strings _ _ _ _ _ _ _ _ _ _ Hm Hrun)
      as [[-> | ->] [-> | [-> | ->]]]; cbn; intuition eauto.
  - rewrite Write_string_transfer in Hrun.
    destruct (transfer_raised_strings _ _ _ _ _ _ _ _ _ _ Hm Hrun)
      as [[-> | ->] [-> | [-> | ->]]]; cbn; intuition eauto.
  - pose proof (Xfer_cases busfile P odat olen ilen i2caddr s fuel Hm) as Hc.
    rewrite Hrun in Hc.
    inversion Hc; subst; cbn; intuition eauto.
Qed.

(** C5.  The exception that [Read(buf, 4, 0x50)] throws when [::read]
    reports two bytes: its time stamp is the platform's time, but [who()]
    gives the error message and [why()] and [what()] give the name of the
    operation, because every [throw] site passes the two strings to the
    constructor in the order (name, message) while the constructor takes
    (msg, proc). *)
Theorem C5_who_and_why_at_read_length_error :
  exists e s',
    run scenario_B (Read BBB_I2C1_FILE 1 4 x50) (I2CBus 0 [x00; x00; x00; x00] [])
    = (Raised e, s')
    /\ exc_type e = T_I2CException
    /\ who e = "Read length error."
    /\ why e = "I2CBus::Read(data, len, addr)"
    /\ what e = "I2CBus::Read(data, len, addr)"
    /\ when e = 1000.
Proof. eexists _, _. split; [reflexivity |]. repeat split. Qed.

(** ** Retrying [::close] *)

(** C6, as stated, fails: when the retry is interrupted as well, [Close]
    calls [::close] a third time. *)
Lemma C6_second_interrupt_is_retried_too :
  ~ retried_exactly_once interrupted_twice 3 in_session.
Proof.
  unfold retried_exactly_once. intros H.
  assert (Hc : count is_close (since in_session
                 (snd (run interrupted_twice (Close 3) in_session))) = 3%nat)
    by reflexivity.
  destruct H as [_ H2].
  - discriminate.
  - reflexivity.
  - reflexivity.
  - rewrite Hc in H2. discriminate.
Qed.

(** C6, amended.  When the first [::close] of [Close] fails with [EINTR],
    [Close] calls [::close] again and goes on calling it for as long as the
    call returns [-1] with [EINTR]: if the first [n] retries are interrupted
    and the next one is not, [n + 1] retries are made ([n + 2] calls in all),
    so exactly one retry when the retry itself is not interrupted.  Then
    [Close] returns with [file == -1]; it never throws.  No other platform
    call is repeated: a public operation calls [::open], [ioctl], [::read]
    and [::write] at most once each. *)
Theorem C6_close_retries_while_interrupted
        (busfile : string) (P : Platform) (n fuel : nat) (s : state) :
  let fd := file s in
  let r0 := P (trace s) (sys_close fd) in
  let h1 := (trace s ++ [(sys_close fd, r0)])%list in
  file s <> -1 -> ret r0 < 0 -> err r0 = EINTR ->
  (forall j, (j < n)%nat -> interrupted (nth_close P fd h1 j) = true) ->
  interrupted (nth_close P fd h1 n) = false ->
  (n < fuel)%nat ->
  (exists s',
      run P (Close fuel) s = (Returned tt, s')
      /\ file s' = -1
      /\ trace s' = retries P fd (n + 2) (trace s)
      /\ count is_close (since s s') = (n + 2)%nat)
  /\ (forall fuel0 s0 e, fst (run P (Close fuel0) s0) <> Raised e)
  /\ (forall k fuel0 s0 len odat olen dat addr,
         close_settles P k -> (k < fuel0)%nat -> mtx s0 = false ->
         called_at_most_once P (Read busfile fuel0 len addr) s0
         /\ called_at_most_once P (Write busfile fuel0 odat olen addr) s0
         /\ called_at_most_once P (Write_string busfile fuel0 dat addr) s0
         /\ called_at_most_once P (Xfer busfile fuel0 odat olen len addr) s0).
Proof.
  intros fd r0 h1 Hf Hret Herr Hint Hlast Hfuel.
  split; [| split].
  - rewrite (Close_open P fuel s Hf). cbv zeta. fold fd. fold r0.
    apply Z.ltb_lt in Hret. rewrite Hret.
    apply Z.eqb_eq in Herr. rewrite Herr. cbn [andb].
    destruct (retry_total P n fuel (closed_once r0 (with_errno 0 s)))
      as (z & s2 & Hrun & Hfile & _ & _ & Htrace); try assumption.
    rewrite Hrun. cbn [and_then].
    exists (with_file (-1) s2).
    assert (Ht : trace (with_file (-1) s2) = retries P fd (n + 2) (trace s)).
    { cbn [trace with_file]. rewrite Htrace.
      replace (n + 2)%nat with (S (S n)) by lia. reflexivity. }
    split; [reflexivity |]. split; [reflexivity |]. split; [exact Ht |].
    apply (count_closes P fd). exact Ht.
  - intros fuel0 s0 e. apply Close_never_throws.
  - intros k fuel0 s0 len odat olen dat addr Hk Hfuel0 Hm.
    split; [| split; [| split]].
    + rewrite Read_transfer. apply transfer_called_at_most_once with (k := k); auto.
    + rewrite Write_transfer. apply transfer_called_at_most_once with (k := k); auto.
    + rewrite Write_string_transfer.
      apply transfer_called_at_most_once with (k := k); auto.
    + apply Xfer_called_at_most_once with (k := k); auto.
Qed.

Lemma C6_close_retries_while_interrupted_witness :
  file in_session <> -1
  /\ ret (interrupted_twice [] (sys_close 3)) < 0
  /\ err (interrupted_twice [] (sys_close 3)) = EINTR
  /\ (exists s',
         run interrupted_twice (Close 2) in_session = (Returned tt, s')
         /\ file s' = -1
         /\ count is_close (since in_session s') = 3%nat).
Proof.
  split; [discriminate |]. split; [reflexivity |]. split; [reflexivity |].
  destruct (C6_close_retries_while_interrupted BBB_I2C1_FILE interrupted_twice 1 2
              in_session) as ((s' & Hrun & Hf & _ & Hc) & _).
  - discriminate.
  - reflexivity.
  - reflexivity.
  - intros j Hj. assert (j = 0%nat) as -> by lia. reflexivity.
  - reflexivity.
  - lia.
  - exists s'. repeat split; assumption.
Defined.

(** ** Two threads *)

(** C7.  When two threads call public operations on the same bus, then
    under every schedule of their steps and on every platform the calls of
    the two operations do not interleave: all the platform calls of one
    operation, from its [::open] to its last [::close], come before the
    first call of the other, because each operation constructs its
    [lock_guard] first and the guard's destructor is its last action. *)
Theorem C7_sessions_do_not_interleave
        (busfile : string) (P : Platform) (p1 p2 : prog unit)
        (schedule : list thread) (errno1 errno2 : Z) (data1 data2 : list byte) :
  public_operation busfile p1 -> public_operation busfile p2 ->
  no_interleaving (exec P schedule (start p1 p2 errno1 errno2 data1 data2)).
Proof.
  intros H1 H2. apply invariant_no_interleaving, invariant_exec, invariant_start;
    eapply waiting_public_operation; eassumption.
Qed.

Lemma C7_sessions_do_not_interleave_witness :
  public_operation BBB_I2C1_FILE (Write BBB_I2C1_FILE 1 [x01; x02] 2 x50)
  /\ public_operation BBB_I2C1_FILE (Write_string BBB_I2C1_FILE 1 "abc" x50)
  /\ no_interleaving
       (exec two_writes taking_turns
             (start (Write BBB_I2C1_FILE 1 [x01; x02] 2 x50)
                    (Write_string BBB_I2C1_FILE 1 "abc" x50) 0 0 [] [])).
Proof.
  split; [constructor |]. split; [constructor |].
  apply (C7_sessions_do_not_interleave BBB_I2C1_FILE); constructor.
Defined.

(** What that run looks like: the second thread opens the bus only after
    the first has closed it. *)
Example taking_turns_run :
  let g := exec two_writes taking_turns
                (start (Write BBB_I2C1_FILE 1 [x01; x02] 2 x50)
                       (Write_string BBB_I2C1_FILE 1 "abc" x50) 0 0 [] []) in
  map (fun x => (fst x, fst (snd x))) (calls_by g)
  = [(T1, sys_open BBB_I2C1_FILE O_RDWR); (T1, sys_ioctl 3 I2C_SLAVE 80);
     (T1, sys_write 3 [x01; x02] 2); (T1, sys_close 3);
     (T2, sys_open BBB_I2C1_FILE O_RDWR); (T2, sys_ioctl 3 I2C_SLAVE 80);
     (T2, sys_write 3 (c_str "abc") 3); (T2, sys_close 3)]
  /\ t_prog (c_T1 g) = Ret tt /\ t_prog (c_T2 g) = Ret tt
  /\ c_file g = -1 /\ c_mtx g = false.
Proof. vm_compute. repeat split. Qed.

(** Without the guard the schedule shows: two threads that call the
    protected [Open] directly, taking turns, have their calls interleaved. *)
Example unguarded_Open_interleaves :
  let g := exec (scripted [ok 3; ok 4; ok 0; ok 0]) taking_turns
                (start (Open BBB_I2C1_FILE 1 x50) (Open BBB_I2C1_FILE 1 x50)
                       0 0 [] []) in
  map (fun x => (fst x, fst (snd x))) (calls_by g)
  = [(T1, sys_open BBB_I2C1_FILE O_RDWR); (T2, sys_open BBB_I2C1_FILE O_RDWR);
     (T1, sys_ioctl 4 I2C_SLAVE 80); (T2, sys_ioctl 4 I2C_SLAVE 80)].
Proof. vm_compute. reflexivity. Qed.

(** ** The string overload of [Write] *)

(** C8.  [Write(dat, addr)] hands [::write] the bytes of the string and, as
    the count, its length [dat.size()]; it checks the count that [::write]
    reports against that length, and throws the generic exception with the
    text "Write length error." exactly when the two differ; state and
    failure are those of [Write(data, len, addr)] on the same bytes and
    length.  ([dat.size()] fits an [int]: on the target
    [std::string::max_size()] is [INT_MAX].) *)
Theorem C8_Write_string_uses_payload_length
        (busfile : string) (P : Platform) (k fuel : nat) (s : state)
        (dat : string) (addr : byte) :
  size dat <= INT_MAX ->
  close_settles P k -> (k < fuel)%nat -> mtx s = false ->
  Write_string_law busfile P fuel dat addr s.
Proof.
  intros Hsize Hk Hfuel Hm. unfold Write_string_law.
  split; [| split; [apply c_str_payload | split; [| split]]].
  - rewrite (Write_string_as_transfer busfile fuel dat addr Hsize).
    pose proof (transfer_cases busfile P
                  (fun fd => sys_write fd (c_str dat) (size dat)) (size dat) addr
                  "I2CBus::Write(dat, addr)" "Write length error." s fuel Hm) as Hc.
    pose proof (transfer_ends busfile P
                  (fun fd => sys_write fd (c_str dat) (size dat)) (size dat) addr
                  "I2CBus::Write(dat, addr)" "Write length error." s k fuel
                  Hk Hfuel Hm) as He.
    destruct (run P _ s) as [o s']. cbn [fst snd] in *.
    inversion Hc; subst; clear Hc; try contradiction; calls_of_session;
      first [ intros c r [[= <- <-] | []]; eauto; fail | intros c r []; fail ].
  - rewrite (Write_string_as_transfer busfile fuel dat addr Hsize).
    apply transfer_length_checked with (k := k); auto.
  - rewrite (Write_string_as_transfer busfile fuel dat addr Hsize).
    pose proof (transfer_cases busfile P
                  (fun fd => sys_write fd (c_str dat) (size dat)) (size dat) addr
                  "I2CBus::Write(dat, addr)" "Write length error." s fuel Hm) as Hc.
    pose proof (transfer_ends busfile P
                  (fun fd => sys_write fd (c_str dat) (size dat)) (size dat) addr
                  "I2CBus::Write(dat, addr)" "Write length error." s k fuel
                  Hk Hfuel Hm) as He.
    destruct (run P _ s) as [o s']. cbn [fst snd] in *.
    inversion Hc as [rt s1 Hfd | cl rt s1 Hfd Hio | cl rt s1 Hfd Hio Hlen
                     | cl s1 Hfd Hio Hlen | s1 Hfd];
      subst; clear Hc; try contradiction; calls_of_session.
    + split; [intros (e & [= <-] & _ & Hp); discriminate Hp
             | intros (n & [=] & _)].
    + split; [intros (e & [= <-] & Hty & _); discriminate Hty
             | intros (n & [=] & _)].
    + split; [intros _; eexists; split; [reflexivity | exact Hlen] | eauto].
    + split; [intros (e & [=] & _) | intros (n & [= <-] & Hn); contradiction].
  - rewrite Write_string_transfer, Write_transfer.
    rewrite (int_of_size_t_size dat Hsize).
    apply transfer_same_failure. exact Hm.
Qed.

Lemma C8_Write_string_uses_payload_length_witness :
  size "on" <= INT_MAX /\ close_settles two_bytes_written 0 /\ (0 < 1)%nat
  /\ mtx (I2CBus 0 [] []) = false
  /\ Write_string_law BBB_I2C1_FILE two_bytes_written 1 "on" x50 (I2CBus 0 [] []).
Proof.
  split; [discriminate |].
  split; [apply scripted_settles; reflexivity |].
  split; [lia |]. split; [reflexivity |].
  apply (C8_Write_string_uses_payload_length BBB_I2C1_FILE two_bytes_written 0 1).
  - discriminate.
  - apply scripted_settles; reflexivity.
  - lia.
  - reflexivity.
Defined.

(** ** The convenience variant of [Xfer] *)



(** ** The receive buffer after a failed [Read] *)

(** C10.  When [Read(data, len, addr)] throws its "Read length error."
    exception, the bytes that [::read] transferred are in the caller's
    buffer: the start of the buffer holds them and the rest of the buffer is
    as before; nothing is rolled back. *)
Theorem C10_failed_Read_keeps_received_bytes
        (busfile : string) (P : Platform) (k fuel : nat) (s : state)
        (len : Z) (addr : byte) :
  close_settles P k -> (k < fuel)%nat -> mtx s = false ->
  failed_Read_keeps_bytes busfile P fuel len addr s.
Proof.
  intros Hk Hfuel Hm. unfold failed_Read_keeps_bytes. rewrite Read_transfer.
  pose proof (transfer_cases busfile P
                (fun fd => sys_read fd (size_t_of_int len)) len addr
                "I2CBus::Read(data, len, addr)" "Read length error." s fuel Hm) as Hc.
  destruct (run P _ s) as [o s']. cbn [fst snd] in *.
  intros e He Hp.
  inversion Hc as [rt s1 Hfd | cl rt s1 Hfd Hio | cl rt s1 Hfd Hio Hlen ? ? ? ? ? ? Hdata
                   | cl s1 Hfd Hio Hlen | s1 Hfd];
    subst; clear Hc; try discriminate;
    match goal with
    | H : Raised _ = Raised _ |- _ => injection H as <-
    end; try discriminate Hp.
  calls_of_session.
  eexists _, _. split; [reflexivity |]. split; [exact Hlen |].
  rewrite Hdata. cbn [after data].
  split; [reflexivity |]. split; [apply overwrite_firstn | apply overwrite_skipn].
Qed.

Lemma C10_failed_Read_keeps_received_bytes_witness :
  close_settles scenario_B 0 /\ (0 < 1)%nat
  /\ mtx (I2CBus 0 [x00; x00; x00; x00] []) = false
  /\ failed_Read_keeps_bytes BBB_I2C1_FILE scenario_B 1 4 x50
                             (I2CBus 0 [x00; x00; x00; x00] []).
Proof.
  split; [apply scripted_settles; reflexivity |].
  split; [lia |]. split; [reflexivity |].
  apply (C10_failed_Read_keeps_received_bytes BBB_I2C1_FILE scenario_B 0 1).
  - apply scripted_settles; reflexivity.
  - lia.
  - reflexivity.
Defined.

(** The buffer of scenario B after the failed [Read]. *)
Example scenario_B_buffer :
  data (snd (run scenario_B (Read BBB_I2C1_FILE 1 4 x50)
                 (I2CBus 0 [x00; x00; x00; x00] [])))
  = [x01; x02; x00; x00].
Proof. reflexivity. Qed.

(** ** The scenarios of the specification *)

Example scenario_A_run :
  fst (run scenario_A (Write BBB_I2C1_FILE 1 [x10] 1 x50) (I2CBus 0 [] []))
  = Returned tt.
Proof. reflexivity. Qed.

Example scenario_C_run :
  exists e s',
    run scenario_C (Read BBB_I2C1_FILE 1 4 x77) (I2CBus 0 [] []) = (Raised e, s')
    /\ exc_type e = T_I2CNotFoundException
    /\ procname e = "Unable to find device address 0x77"
    /\ file s' = -1
    /\ map fst (trace s')
       = [sys_open BBB_I2C1_FILE O_RDWR; sys_ioctl 3 I2C_SLAVE 119;
          sys_close 3; sys_time].
Proof. eexists _, _. split; [reflexivity |]. repeat split. Qed.

Example scenario_D_run :
  let r := run scenario_D (Xfer BBB_I2C1_FILE 1 [x00] 1 2 x50)
               (I2CBus 0 [x00; x00] []) in
  fst r = Returned tt
  /\ data (snd r) = [x0a; x0b]
  /\ file (snd r) = -1
  /\ map fst (trace (snd r))
     = [sys_open BBB_I2C1_FILE O_RDWR; sys_ioctl 3 I2C_SLAVE 80;
        sys_write 3 [x00] 1; sys_read 3 2; sys_close 3].
Proof. cbv zeta. repeat split. Qed.

Example scenario_E_run :
  exists e s',
    run scenario_E (Xfer BBB_I2C1_FILE 1 [x00] 1 2 x50) (I2CBus 0 [x00; x00] [])
    = (Raised e, s')
    /\ exc_type e = T_I2CException
    /\ procname e = "Write length error."
    /\ file s' = -1
    /\ map fst (trace s')
       = [sys_open BBB_I2C1_FILE O_RDWR; sys_ioctl 3 I2C_SLAVE 80;
          sys_write 3 [x00] 1; sys_close 3; sys_time].
Proof. eexists _, _. split; [reflexivity |]. repeat split. Qed.

(** * Further properties *)

(** ** The text of the address in the exception of [Open] *)

Lemma hex_upper_w2_parse (addr : byte) :
  parse_hex2 (hex_upper_w2 (Byte.to_N addr)) = Some (Byte.to_N addr).
Proof. destruct addr; reflexivity. Qed.

Lemma append_inj_l (p x y : string) : p ++ x = p ++ y -> x = y.
Proof.
  induction p as [| a p IH]; cbn; intros H; [exact H |].
  injection H as H. apply IH. exact H.
Qed.

Lemma to_N_inj (a b : byte) : Byte.to_N a = Byte.to_N b -> a = b.
Proof.
  intros H. apply (f_equal Byte.of_N) in H.
  rewrite !Byte.of_to_N in H. congruence.
Qed.

(** X1.  The text that [Open] builds for a device that does not answer ends
    with the address as two uppercase hexadecimal digits: read back, the two
    digits give the address, so two addresses never give the same text. *)
Theorem X1_address_text_round_trip (addr addr' : byte) :
  Open_no_device addr
  = "Unable to find device address 0x" ++ hex_upper_w2 (Byte.to_N addr)
  /\ String.length (hex_upper_w2 (Byte.to_N addr)) = 2%nat
  /\ parse_hex2 (hex_upper_w2 (Byte.to_N addr)) = Some (Byte.to_N addr)
  /\ (Open_no_device addr = Open_no_device addr' -> addr = addr').
Proof.
  split; [reflexivity |]. split; [reflexivity |].
  split; [apply hex_upper_w2_parse |].
  intros H. unfold Open_no_device in H.
  do 2 apply append_inj_l in H.
  apply to_N_inj.
  pose proof (hex_upper_w2_parse addr) as Ha.
  pose proof (hex_upper_w2_parse addr') as Hb.
  rewrite H in Ha. congruence.
Qed.

(** ** Every public operation is a session of one of two shapes *)

Lemma public_operation_cases (busfile : string) (Q : prog unit -> Prop) :
  (forall fuel c len addr arg1 arg2,
      (forall fd, fd_of (c fd) = Some fd) ->
      (forall fd, is_open (c fd) = false) ->
      (forall fd, is_ioctl (c fd) = false) ->
      (forall fd, is_close (c fd) = false) ->
      (forall fd, is_time (c fd) = false) ->
      Q (transfer busfile fuel c len addr arg1 arg2)) ->
  (forall fuel odat olen ilen i2caddr, Q (Xfer busfile fuel odat olen ilen i2caddr)) ->
  forall p, public_operation busfile p -> Q p.
Proof.
  intros Ht Hx p [fuel len addr | fuel data len addr | fuel dat addr
                  | fuel odat olen ilen i2caddr].
  - rewrite Read_transfer. apply Ht; reflexivity.
  - rewrite Write_transfer. apply Ht; reflexivity.
  - rewrite Write_string_transfer. apply Ht; reflexivity.
  - apply Hx.
Qed.

(** ** When the bus file cannot be opened *)

(** X2.  When [::open] fails (the bus file is missing or may not be opened)
    every public operation throws the generic [I2CException] whose text
    names the bus file; it makes no other platform call than that [::open]
    and the [time] of the exception (no [ioctl], no transfer, no [::close]),
    leaves the result of [::open] in [file], and releases the mutex. *)
Theorem X2_bus_unavailable
        (busfile : string) (P : Platform) (p : prog unit) (s : state) :
  public_operation busfile p -> mtx s = false ->
  bus_unavailable_law busfile P p s.
Proof.
  intros Hp Hm. revert p Hp. apply public_operation_cases.
  - intros fuel c len addr arg1 arg2 _ _ _ _ _. unfold bus_unavailable_law.
    pose proof (transfer_cases busfile P c len addr arg1 arg2 s fuel Hm) as Hc.
    destruct (run P _ s) as [o s']. cbn [fst snd] in *. intros Hfail.
    inversion Hc; subst; clear Hc; try lia.
    eexists. calls_of_session. repeat split; assumption.
  - intros fuel odat olen ilen i2caddr. unfold bus_unavailable_law.
    pose proof (Xfer_cases busfile P odat olen ilen i2caddr s fuel Hm) as Hc.
    destruct (run P _ s) as [o s']. cbn [fst snd] in *. intros Hfail.
    inversion Hc; subst; clear Hc; try lia.
    eexists. calls_of_session. repeat split; assumption.
Qed.

Lemma X2_bus_unavailable_witness :
  public_operation BBB_I2C1_FILE (Read BBB_I2C1_FILE 0 4 x50)
  /\ mtx (I2CBus 0 [] []) = false
  /\ bus_unavailable_law BBB_I2C1_FILE no_bus (Read BBB_I2C1_FILE 0 4 x50)
                         (I2CBus 0 [] []).
Proof.
  split; [constructor |]. split; [reflexivity |].
  apply X2_bus_unavailable; [constructor | reflexivity].
Defined.

(** ** The mutex around a call *)

(** X3.  A public operation called while the mutex is held makes no
    platform call and changes nothing: it waits.  Called with the mutex
    free it is never blocked, and when it ends, by return or by exception,
    the mutex is free again. *)
Theorem X3_mutex_taken_and_released
        (busfile : string) (P : Platform) (p : prog unit) (s : state) :
  public_operation busfile p -> mutex_law P p s.
Proof.
  intros Hp. revert p Hp. apply public_operation_cases.
  - intros fuel c len addr arg1 arg2 _ _ _ _ _. split.
    + intros Hm. unfold transfer. apply run_lock_guard_held. exact Hm.
    + intros Hm.
      pose proof (transfer_cases busfile P c len addr arg1 arg2 s fuel Hm) as Hc.
      destruct (run P _ s) as [o s']. cbn [fst snd] in *.
      inversion Hc; subst; clear Hc;
        (split; [discriminate | intros Hs; first [assumption | contradiction]]).
  - intros fuel odat olen ilen i2caddr. split.
    + intros Hm. unfold Xfer. apply run_lock_guard_held. exact Hm.
    + intros Hm.
      pose proof (Xfer_cases busfile P odat olen ilen i2caddr s fuel Hm) as Hc.
      destruct (run P _ s) as [o s']. cbn [fst snd] in *.
      inversion Hc; subst; clear Hc;
        (split; [discriminate | intros Hs; first [assumption | contradiction]]).
Qed.

Lemma X3_mutex_taken_and_released_witness :
  public_operation BBB_I2C1_FILE (Write BBB_I2C1_FILE 1 [x10] 1 x50)
  /\ mutex_law scenario_A (Write BBB_I2C1_FILE 1 [x10] 1 x50) in_session
  /\ mutex_law scenario_A (Write BBB_I2C1_FILE 1 [x10] 1 x50) (I2CBus 0 [] []).
Proof.
  split; [constructor |].
  split; apply (X3_mutex_taken_and_released BBB_I2C1_FILE); constructor.
Defined.

(** ** The time stamp of an exception *)

Lemma count_cons (kind : syscall -> bool) (e : event) (t : list event) :
  count kind (e :: t) = if kind (fst e) then S (count kind t) else count kind t.
Proof. unfold count, calls. simpl. destruct (kind (fst e)); reflexivity. Qed.

Lemma count_closes_none (kind : syscall -> bool) (fd : Z) (cl : list event) :
  kind (sys_close fd) = false -> closes_of fd cl -> count kind cl = 0%nat.
Proof. intros Hk Hcl. unfold count. rewrite (calls_closes kind fd cl Hk Hcl). reflexivity. Qed.

(** X4.  Whenever a public operation throws, the last platform call it made
    is [time(nullptr)]; it is the only call of [time] in the operation, and
    its answer is the time stamp [when()] of the exception.  When [::open]
    had given a descriptor, the calls just before it are the calls of
    [::close] on that descriptor (at least one, and no [::close] earlier)
    and [file] is [-1]: the exception is stamped after the handle was
    closed.  When [::open] had failed, [time] follows the [::open]. *)
Theorem X4_exception_stamped_last
        (busfile : string) (P : Platform) (p : prog unit) (s : state) :
  public_operation busfile p -> mtx s = false -> time_stamp_law busfile P p s.
Proof.
  intros Hp Hm. revert p Hp. apply public_operation_cases.
  - intros fuel c len addr arg1 arg2 _ _ _ Hclose Htime e.
    pose proof (transfer_cases busfile P c len addr arg1 arg2 s fuel Hm) as Hc.
    destruct (run P _ s) as [o s']. cbn [fst snd] in *. intros ->.
    inversion Hc as [rt s0 Hfd Hrt Ht Hf Hm' Hd
                    | cl rt s0 Hfd Hr2 Hcl Hne Hrt Ht Hf Hm' Hd
                    | cl rt s0 Hfd Hr2 Hr3 Hcl Hne Hrt Ht Hf Hm' Hd | | ];
      subst s0.
    + eexists [_], rt. rewrite (since_app s s' _ Ht).
      split; [reflexivity |]. split; [reflexivity |]. split; [reflexivity |].
      split; [reflexivity | intros; lia].
    + eexists (_ :: _ :: cl), rt. rewrite (since_app s s' _ Ht).
      split; [reflexivity |]. split; [| split; [reflexivity |]].
      * rewrite !count_cons. cbn [fst is_time].
        exact (count_closes_none is_time _ cl eq_refl Hcl).
      * split; [intros; lia |]. intros _. split; [exact Hf |].
        eexists [_; _], cl. split; [reflexivity |]. split; [reflexivity |].
        split; [exact Hcl | exact Hne].
    + eexists (_ :: _ :: _ :: cl), rt. rewrite (since_app s s' _ Ht).
      split; [reflexivity |]. split; [| split; [reflexivity |]].
      * rewrite !count_cons. cbn [fst is_time]. rewrite Htime.
        exact (count_closes_none is_time _ cl eq_refl Hcl).
      * split; [intros; lia |]. intros _. split; [exact Hf |].
        eexists [_; _; _], cl. split; [reflexivity |].
        split; [rewrite !count_cons; cbn [fst is_close]; rewrite Hclose; reflexivity |].
        split; [exact Hcl | exact Hne].
  - intros fuel odat olen ilen i2caddr e.
    pose proof (Xfer_cases busfile P odat olen ilen i2caddr s fuel Hm) as Hc.
    destruct (run P _ s) as [o s']. cbn [fst snd] in *. intros ->.
    inversion Hc as [rt s0 Hfd Hrt Ht Hf Hm' Hd
                    | cl rt s0 Hfd Hr2 Hcl Hne Hrt Ht Hf Hm' Hd
                    | cl rt s0 Hfd Hr2 Hr3 Hcl Hne Hrt Ht Hf Hm' Hd
                    | cl rt s0 Hfd Hr2 Hr3 Hr4 Hcl Hne Hrt Ht Hf Hm' Hd | | ];
      subst s0.
    + eexists [_], rt. rewrite (since_app s s' _ Ht).
      split; [reflexivity |]. split; [reflexivity |]. split; [reflexivity |].
      split; [reflexivity | intros; lia].
    + eexists (_ :: _ :: cl), rt. rewrite (since_app s s' _ Ht).
      split; [reflexivity |]. split; [| split; [reflexivity |]].
      * rewrite !count_cons. cbn [fst is_time].
        exact (count_closes_none is_time _ cl eq_refl Hcl).
      * split; [intros; lia |]. intros _. split; [exact Hf |].
        eexists [_; _], cl. split; [reflexivity |]. split; [reflexivity |].
        split; [exact Hcl | exact Hne].
    + eexists (_ :: _ :: _ :: cl), rt. rewrite (since_app s s' _ Ht).
      split; [reflexivity |]. split; [| split; [reflexivity |]].
      * rewrite !count_cons. cbn [fst is_time].
        exact (count_closes_none is_time _ cl eq_refl Hcl).
      * split; [intros; lia |]. intros _. split; [exact Hf |].
        eexists [_; _; _], cl. split; [reflexivity |]. split; [reflexivity |].
        split; [exact Hcl | exact Hne].
    + eexists (_ :: _ :: _ :: _ :: cl), rt. rewrite (since_app s s' _ Ht).
      split; [reflexivity |]. split; [| split; [reflexivity |]].
      * rewrite !count_cons. cbn [fst is_time].
        exact (count_closes_none is_time _ cl eq_refl Hcl).
      * split; [intros; lia |]. intros _. split; [exact Hf |].
        eexists [_; _; _; _], cl. split; [reflexivity |]. split; [reflexivity |].
        split; [exact Hcl | exact Hne].
Qed.

Lemma X4_exception_stamped_last_witness :
  public_operation BBB_I2C1_FILE (Read BBB_I2C1_FILE 1 1 x50)
  /\ mtx (I2CBus 0 [] []) = false
  /\ time_stamp_law BBB_I2C1_FILE scenario_C (Read BBB_I2C1_FILE 1 1 x50)
                    (I2CBus 0 [] []).
Proof.
  split; [constructor |]. split; [reflexivity |].
  apply (X4_exception_stamped_last BBB_I2C1_FILE); [constructor | reflexivity].
Defined.

(** ** The descriptor of a session *)

Lemma extends_on_refl (fd : Z) (s s' : state) :
  trace s' = trace s -> extends_on fd s s'.
Proof. intros H. exists []. rewrite app_nil_r. split; [exact H | constructor]. Qed.

Lemma extends_on_trans (fd : Z) (s1 s2 s3 : state) :
  extends_on fd s1 s2 -> extends_on fd s2 s3 -> extends_on fd s1 s3.
Proof.
  intros (e1 & H1 & F1) (e2 & H2 & F2). exists (e1 ++ e2)%list.
  rewrite H2, H1, app_assoc. split; [reflexivity |].
  apply Forall_app. split; assumption.
Qed.

Lemma extends_on_after (fd : Z) (c : syscall) (r : reply) (s s' : state) :
  on_descriptor fd (c, r) -> trace s' = trace (after c r s) -> extends_on fd s s'.
Proof.
  intros Hc Ht. exists [(c, r)]. split; [exact Ht | repeat constructor; exact Hc].
Qed.

Lemma extends_on_raise {A : Type} (fd : Z) (P : Platform) (ty : exception_type)
      (msg proc : string) (s : state) :
  extends_on fd s (snd (raise_at (A := A) P ty msg proc s)).
Proof.
  eapply extends_on_after; [| reflexivity]. intros fd' H. discriminate H.
Qed.

Lemma Close_extends_on (P : Platform) (fuel : nat) (s : state) :
  extends_on (file s) s (snd (run P (Close fuel) s)).
Proof.
  destruct (Close_cases P fuel s) as (o & s' & cl & Hrun & _ & _ & Ht & Hcl & _).
  rewrite Hrun. exists cl. split; [exact Ht |].
  eapply Forall_impl; [| exact Hcl].
  intros e He fd' H. rewrite He in H. injection H as <-. reflexivity.
Qed.

Lemma Open_extends_on (busfile : string) (P : Platform) (fuel : nat) (addr : byte)
      (s : state) :
  let fd := ret (P (trace s) (sys_open busfile O_RDWR)) in
  extends_on fd s (snd (run P (Open busfile fuel addr) s))
  /\ (fst (run P (Open busfile fuel addr) s) = Returned tt ->
      file (snd (run P (Open busfile fuel addr) s)) = fd).
Proof.
  intros fd. rewrite Open_run. cbv zeta. fold fd.
  set (s1 := with_file fd (after (sys_open busfile O_RDWR) _ s)).
  assert (H1 : extends_on fd s s1).
  { eapply extends_on_after; [| reflexivity]. intros fd' H. discriminate H. }
  destruct (fd <? 0).
  - split; [| discriminate].
    eapply extends_on_trans; [exact H1 | apply extends_on_raise].
  - set (s2 := after (sys_ioctl fd I2C_SLAVE (uint8 addr)) _ s1).
    assert (H2 : extends_on fd s s2).
    { eapply extends_on_trans; [exact H1 |].
      eapply extends_on_after; [| reflexivity].
      intros fd' H. injection H as <-. reflexivity. }
    destruct (ret _ <? 0); [| split; [exact H2 | reflexivity]].
    pose proof (Close_extends_on P fuel s2) as H3.
    destruct (run P (Close fuel) s2) as [[[] | e | |] s3]; cbn [and_then snd fst] in *.
    + split; [| discriminate].
      eapply extends_on_trans; [exact H2 |].
      eapply extends_on_trans; [exact H3 | apply extends_on_raise].
    + split; [| discriminate]. eapply extends_on_trans; eassumption.
    + split; [| discriminate]. eapply extends_on_trans; eassumption.
    + split; [| discriminate]. eapply extends_on_trans; eassumption.
Qed.

Lemma released_trace {A : Type} (x : outcome A * state) :
  trace (snd (released x)) = trace (snd x).
Proof. destruct x as [[a | e | |] s]; reflexivity. Qed.

Lemma transfer_extends_on (busfile : string) (P : Platform) (fuel : nat)
      (c : Z -> syscall) (len : Z) (addr : byte) (arg1 arg2 : string) (s : state) :
  (forall fd, fd_of (c fd) = Some fd) ->
  mtx s = false ->
  extends_on (ret (P (trace s) (sys_open busfile O_RDWR))) s
             (snd (run P (transfer busfile fuel c len addr arg1 arg2) s)).
Proof.
  intros Hc Hm. rewrite (transfer_run busfile P c len addr arg1 arg2 s fuel Hm).
  set (fd := ret _).
  destruct (Open_extends_on busfile P fuel addr (locked s)) as [H1 Hfile].
  cbn [locked trace] in H1, Hfile. fold fd in H1, Hfile.
  assert (H0 : extends_on fd s (locked s)) by (apply extends_on_refl; reflexivity).
  destruct (run P (Open busfile fuel addr) (locked s)) as [[[] | e | |] s2];
    cbn [and_then snd fst] in *;
    try (eapply extends_on_trans; [exact H0 |];
         eapply extends_on_trans; [exact H1 |];
         apply extends_on_refl; reflexivity).
  specialize (Hfile eq_refl). cbv zeta.
  set (s3 := after (c (file s2)) _ s2).
  assert (H3 : extends_on fd s s3).
  { eapply extends_on_trans; [exact H0 |].
    eapply extends_on_trans; [exact H1 |].
    eapply extends_on_after; [| reflexivity].
    intros fd' H. cbn [fst] in H. rewrite Hc in H. injection H as <-. exact Hfile. }
  pose proof (Close_extends_on P fuel s3) as H4.
  change (file s3) with (file s2) in H4. rewrite Hfile in H4.
  destruct (run P (Close fuel) s3) as [[[] | e | |] s4]; cbn [and_then snd fst] in *;
    try (eapply extends_on_trans; [exact H3 |];
         eapply extends_on_trans; [exact H4 |];
         apply extends_on_refl; reflexivity).
  destruct (ret _ =? len).
  - eapply extends_on_trans; [exact H3 |].
    eapply extends_on_trans; [exact H4 |]. apply extends_on_refl; reflexivity.
  - eapply extends_on_trans; [exact H3 |].
    eapply extends_on_trans; [exact H4 |].
    eapply extends_on_after; [| reflexivity]. intros fd' H. discriminate H.
Qed.

Lemma Xfer_extends_on (busfile : string) (P : Platform) (fuel : nat)
      (odat : list byte) (olen ilen : Z) (i2caddr : byte) (s : state) :
  mtx s = false ->
  extends_on (ret (P (trace s) (sys_open busfile O_RDWR))) s
             (snd (run P (Xfer busfile fuel odat olen ilen i2caddr) s)).
Proof.
  intros Hm. rewrite (Xfer_run busfile P odat olen ilen i2caddr s fuel Hm).
  set (fd := ret _).
  destruct (Open_extends_on busfile P fuel i2caddr (locked s)) as [H1 Hfile].
  cbn [locked trace] in H1, Hfile. fold fd in H1, Hfile.
  assert (H0 : extends_on fd s (locked s)) by (apply extends_on_refl; reflexivity).
  destruct (run P (Open busfile fuel i2caddr) (locked s)) as [[[] | e | |] s2];
    cbn [and_then snd fst] in *;
    try (eapply extends_on_trans; [exact H0 |];
         eapply extends_on_trans; [exact H1 |];
         apply extends_on_refl; reflexivity).
  specialize (Hfile eq_refl). cbv zeta.
  set (s3 := after (sys_write (file s2) odat (size_t_of_int olen)) _ s2).
  assert (H3 : extends_on fd s s3).
  { eapply extends_on_trans; [exact H0 |].
    eapply extends_on_trans; [exact H1 |].
    eapply extends_on_after; [| reflexivity].
    intros fd' H. injection H as <-. exact Hfile. }
  destruct (ret _ =? olen).
  - set (s4 := after (sys_read (file s3) (size_t_of_int ilen)) _ s3).
    assert (H4 : extends_on fd s s4).
    { eapply extends_on_trans; [exact H3 |].
      eapply extends_on_after; [| reflexivity].
      intros fd' H. injection H as <-. exact Hfile. }
    pose proof (Close_extends_on P fuel s4) as H5.
    change (file s4) with (file s2) in H5. rewrite Hfile in H5.
    destruct (run P (Close fuel) s4) as [[[] | e | |] s5]; cbn [and_then snd fst] in *;
      try (eapply extends_on_trans; [exact H4 |];
           eapply extends_on_trans; [exact H5 |];
           apply extends_on_refl; reflexivity).
    destruct (ret _ =? ilen).
    + eapply extends_on_trans; [exact H4 |].
      eapply extends_on_trans; [exact H5 |]. apply extends_on_refl; reflexivity.
    + eapply extends_on_trans; [exact H4 |].
      eapply extends_on_trans; [exact H5 |].
      eapply extends_on_after; [| reflexivity]. intros fd' H. discriminate H.
  - pose proof (Close_extends_on P fuel s3) as H5.
    change (file s3) with (file s2) in H5. rewrite Hfile in H5.
    destruct (run P (Close fuel) s3) as [[[] | e | |] s5]; cbn [and_then snd fst] in *;
      try (eapply extends_on_trans; [exact H3 |];
           eapply extends_on_trans; [exact H5 |];
           apply extends_on_refl; reflexivity).
    eapply extends_on_trans; [exact H3 |].
    eapply extends_on_trans; [exact H5 |].
    eapply extends_on_after; [| reflexivity]. intros fd' H. discriminate H.
Qed.

(** X5.  Whatever the platform answers and however the operation ends
    (return, exception, blocked by the mutex, or still retrying
    [::close]), every [ioctl], [::read], [::write] and [::close] a public
    operation makes is made on the descriptor that its own [::open] just
    returned: never on a descriptor left in [file] by an earlier call. *)
Theorem X5_calls_on_own_descriptor
        (busfile : string) (P : Platform) (p : prog unit) (s : state) :
  public_operation busfile p -> own_descriptor_law busfile P p s.
Proof.
  intros Hp. unfold own_descriptor_law. cbv zeta.
  assert (H : extends_on (ret (P (trace s) (sys_open busfile O_RDWR))) s
                         (snd (run P p s))).
  { destruct (mtx s) eqn:Hm.
    - assert (Hb : run P p s = (Blocked, s)).
      { revert p Hp. apply public_operation_cases; intros;
          [unfold transfer | unfold Xfer]; apply run_lock_guard_held; exact Hm. }
      rewrite Hb. apply extends_on_refl. reflexivity.
    - revert p Hp. apply public_operation_cases.
      + intros fuel c len addr arg1 arg2 Hc _ _ _ _.
        apply transfer_extends_on; assumption.
      + intros. apply Xfer_extends_on; assumption. }
  destruct H as (ext & Ht & Hall). rewrite (since_app _ _ _ Ht).
  intros c r fd Hin Hfd. rewrite Forall_forall in Hall.
  exact (Hall (c, r) Hin fd Hfd).
Qed.

Lemma X5_calls_on_own_descriptor_witness :
  public_operation BBB_I2C1_FILE (Xfer BBB_I2C1_FILE 1 [x10] 1 2 x50)
  /\ own_descriptor_law BBB_I2C1_FILE scenario_D
                        (Xfer BBB_I2C1_FILE 1 [x10] 1 2 x50)
                        (mkState 7 false 0 [] []).
Proof.
  split; [constructor |].
  apply X5_calls_on_own_descriptor. constructor.
Defined.

(** ** [Close] when [::close] is not interrupted *)

Lemma Close_quiet (P : Platform) (fuel : nat) (s : state) :
  file s <> -1 ->
  close_interrupted (P (trace s) (sys_close (file s))) = false ->
  run P (Close fuel) s = (Returned tt, quiet_close P s).
Proof.
  intros Hf Hq. rewrite (Close_open P fuel s Hf). cbv zeta.
  unfold close_interrupted in Hq. rewrite Hq. reflexivity.
Qed.

(** X6.  When the first [::close(file)] of [Close] fails with an error
    other than [EINTR] (or succeeds), [Close] calls [::close] exactly once
    and returns normally with [file == -1], whatever the fuel: the failure
    is not retried and not reported by an exception; it is visible only in
    [errno], which is [0] after a [::close] that succeeded. *)
Theorem X6_Close_swallows_close_errors (P : Platform) (fuel : nat) (s : state) :
  file s <> -1 ->
  close_interrupted (P (trace s) (sys_close (file s))) = false ->
  Close_quiet_law P fuel s.
Proof.
  intros Hf Hq. unfold Close_quiet_law. cbv zeta.
  rewrite (Close_quiet P fuel s Hf Hq). cbn [fst snd].
  split; [reflexivity |]. split; [apply since_app; reflexivity |].
  split; [reflexivity |]. split; [reflexivity |]. split; reflexivity.
Qed.

Lemma X6_Close_swallows_close_errors_witness :
  file in_session <> -1
  /\ close_interrupted (close_fails (trace in_session) (sys_close (file in_session)))
     = false
  /\ Close_quiet_law close_fails 0 in_session.
Proof.
  split; [discriminate |]. split; [reflexivity |].
  apply X6_Close_swallows_close_errors; [discriminate | reflexivity].
Defined.

(** ** Sessions on a platform that does not interrupt [::close] *)

Lemma never_interrupts_quiet (P : Platform) (fuel : nat) (s : state) :
  never_interrupts P -> 0 <= file s ->
  run P (Close fuel) s = (Returned tt, quiet_close P s).
Proof. intros HP Hf. apply Close_quiet; [lia | apply HP]. Qed.

Lemma Open_calm (busfile : string) (P : Platform) (fuel : nat) (addr : byte)
      (s : state) :
  never_interrupts P ->
  run P (Open busfile fuel addr) s =
  let c1 := sys_open busfile O_RDWR in
  let r1 := P (trace s) c1 in
  let s1 := with_file (ret r1) (after c1 r1 s) in
  if ret r1 <? 0 then
    raise_at P T_I2CException Open_arg1 (Open_no_bus busfile) s1
  else
    let c2 := sys_ioctl (ret r1) I2C_SLAVE (uint8 addr) in
    let r2 := P (trace s1) c2 in
    let s2 := after c2 r2 s1 in
    if ret r2 <? 0 then
      raise_at P T_I2CNotFoundException Open_arg1 (Open_no_device addr)
               (quiet_close P s2)
    else (Returned tt, s2).
Proof.
  intros HP. rewrite Open_run. cbv zeta.
  destruct (Z.ltb_spec (ret (P (trace s) (sys_open busfile O_RDWR))) 0) as [Hfd | Hfd];
    [reflexivity |].
  destruct (ret _ <? 0); [| reflexivity].
  rewrite never_interrupts_quiet; [reflexivity | exact HP |].
  cbn [after with_file file]. lia.
Qed.

Lemma transfer_calm (busfile : string) (P : Platform) (fuel : nat)
      (c : Z -> syscall) (len : Z) (addr : byte) (arg1 arg2 : string) (s : state) :
  never_interrupts P -> mtx s = false ->
  run P (transfer busfile fuel c len addr arg1 arg2) s =
  let c1 := sys_open busfile O_RDWR in
  let r1 := P (trace s) c1 in
  let s1 := with_file (ret r1) (after c1 r1 (locked s)) in
  if ret r1 <? 0 then
    released (raise_at P T_I2CException Open_arg1 (Open_no_bus busfile) s1)
  else
    let c2 := sys_ioctl (ret r1) I2C_SLAVE (uint8 addr) in
    let r2 := P (trace s1) c2 in
    let s2 := after c2 r2 s1 in
    if ret r2 <? 0 then
      released (raise_at P T_I2CNotFoundException Open_arg1 (Open_no_device addr)
                         (quiet_close P s2))
    else
      let c3 := c (ret r1) in
      let r3 := P (trace s2) c3 in
      let s4 := quiet_close P (after c3 r3 s2) in
      if ret r3 =? len then (Returned tt, unlocked s4)
      else released (raise_at P T_I2CException arg1 arg2 s4).
Proof.
  intros HP Hm. rewrite (transfer_run busfile P c len addr arg1 arg2 s fuel Hm).
  rewrite (Open_calm busfile P fuel addr (locked s) HP). cbv zeta.
  cbn [locked trace].
  destruct (Z.ltb_spec (ret (P (trace s) (sys_open busfile O_RDWR))) 0) as [Hfd | Hfd];
    [reflexivity |].
  destruct (ret _ <? 0); [reflexivity |].
  cbn [and_then]. cbv zeta.
  rewrite never_interrupts_quiet; [| exact HP | cbn [after with_file file]; lia].
  cbn [and_then after with_file file].
  destruct (ret _ =? len); reflexivity.
Qed.

Lemma Xfer_calm (busfile : string) (P : Platform) (fuel : nat)
      (odat : list byte) (olen ilen : Z) (i2caddr : byte) (s : state) :
  never_interrupts P -> mtx s = false ->
  run P (Xfer busfile fuel odat olen ilen i2caddr) s =
  let c1 := sys_open busfile O_RDWR in
  let r1 := P (trace s) c1 in
  let s1 := with_file (ret r1) (after c1 r1 (locked s)) in
  if ret r1 <? 0 then
    released (raise_at P T_I2CException Open_arg1 (Open_no_bus busfile) s1)
  else
    let c2 := sys_ioctl (ret r1) I2C_SLAVE (uint8 i2caddr) in
    let r2 := P (trace s1) c2 in
    let s2 := after c2 r2 s1 in
    if ret r2 <? 0 then
      released (raise_at P T_I2CNotFoundException Open_arg1 (Open_no_device i2caddr)
                         (quiet_close P s2))
    else
      let c3 := sys_write (ret r1) odat (size_t_of_int olen) in
      let r3 := P (trace s2) c3 in
      let s3 := after c3 r3 s2 in
      if ret r3 =? olen then
        let c4 := sys_read (ret r1) (size_t_of_int ilen) in
        let r4 := P (trace s3) c4 in
        let s5 := quiet_close P (after c4 r4 s3) in
        if ret r4 =? ilen then (Returned tt, unlocked s5)
        else released (raise_at P T_I2CException Xfer_arg1 "Read length error." s5)
      else
        released (raise_at P T_I2CException Xfer_arg1 "Write length error."
                           (quiet_close P s3)).
Proof.
  intros HP Hm. rewrite (Xfer_run busfile P odat olen ilen i2caddr s fuel Hm).
  rewrite (Open_calm busfile P fuel i2caddr (locked s) HP). cbv zeta.
  cbn [locked trace].
  destruct (Z.ltb_spec (ret (P (trace s) (sys_open busfile O_RDWR))) 0) as [Hfd | Hfd];
    [reflexivity |].
  destruct (ret _ <? 0); [reflexivity |].
  cbn [and_then]. cbv zeta. cbn [after with_file file].
  destruct (ret _ =? olen).
  - rewrite never_interrupts_quiet; [| exact HP | cbn [after with_file file]; lia].
    cbn [and_then after with_file file].
    destruct (ret _ =? ilen); reflexivity.
  - rewrite never_interrupts_quiet; [| exact HP | cbn [after with_file file]; lia].
    reflexivity.
Qed.

(** Computes the calls of a session whose final state is explicit. *)
Ltac explicit_since :=
  cbn [released raise_at fst snd];
  erewrite since_app
    by (cbn [trace after with_file with_errno unlocked locked quiet_close closed_once];
        rewrite <- ?app_assoc; cbn [app]; reflexivity).

(** X7.  On a platform that never interrupts [::close], every public
    operation ends, by return or by exception, whatever the fuel of the
    retry loop; it calls [::close] exactly once, on the descriptor that
    [::open] returned, when [::open] gave one, and not at all when
    [::open] failed. *)
Theorem X7_one_close_per_session
        (busfile : string) (P : Platform) (p : prog unit) (s : state) :
  never_interrupts P -> public_operation busfile p -> mtx s = false ->
  closes_once_law busfile P p s.
Proof.
  intros HP Hp Hm. revert p Hp. apply public_operation_cases.
  - intros fuel c len addr arg1 arg2 _ _ _ Hclose _.
    unfold closes_once_law. cbv zeta.
    rewrite (transfer_calm busfile P fuel c len addr arg1 arg2 s HP Hm). cbv zeta.
    destruct (Z.ltb_spec (ret (P (trace s) (sys_open busfile O_RDWR))) 0)
      as [Hfd | Hfd].
    + explicit_since. split; [right; eauto |]. split; [reflexivity | lia].
    + destruct (ret _ <? 0).
      * explicit_since. split; [right; eauto |].
        split; [reflexivity |]. intros _. cbn. tauto.
      * destruct (ret _ =? len).
        -- explicit_since. split; [left; reflexivity |].
           rewrite !count_cons. cbn [fst is_close]. rewrite Hclose.
           split; [reflexivity |]. intros _. cbn. tauto.
        -- explicit_since. split; [right; eauto |].
           rewrite !count_cons. cbn [fst is_close]. rewrite Hclose.
           split; [reflexivity |]. intros _. cbn. tauto.
  - intros fuel odat olen ilen i2caddr.
    unfold closes_once_law. cbv zeta.
    rewrite (Xfer_calm busfile P fuel odat olen ilen i2caddr s HP Hm). cbv zeta.
    destruct (Z.ltb_spec (ret (P (trace s) (sys_open busfile O_RDWR))) 0)
      as [Hfd | Hfd].
    + explicit_since. split; [right; eauto |]. split; [reflexivity | lia].
    + destruct (ret _ <? 0).
      * explicit_since. split; [right; eauto |].
        split; [reflexivity |]. intros _. cbn. tauto.
      * destruct (ret _ =? olen); [destruct (ret _ =? ilen) |].
        -- explicit_since. split; [left; reflexivity |].
           split; [reflexivity |]. intros _. cbn. tauto.
        -- explicit_since. split; [right; eauto |].
           split; [reflexivity |]. intros _. cbn. tauto.
        -- explicit_since. split; [right; eauto |].
           split; [reflexivity |]. intros _. cbn. tauto.
Qed.

Lemma scripted_never_interrupts (script : list reply) :
  forallb (fun r => negb (close_interrupted r)) script = true ->
  never_interrupts (scripted script).
Proof.
  intros H h fd. unfold scripted.
  destruct (nth_in_or_default (List.length h) script done) as [Hin | ->].
  - rewrite forallb_forall in H. apply negb_true_iff. apply H. exact Hin.
  - reflexivity.
Qed.

Lemma X7_one_close_per_session_witness :
  never_interrupts scenario_A
  /\ public_operation BBB_I2C1_FILE (Read BBB_I2C1_FILE 0 1 x50)
  /\ mtx (I2CBus 0 [] []) = false
  /\ closes_once_law BBB_I2C1_FILE scenario_A (Read BBB_I2C1_FILE 0 1 x50)
                     (I2CBus 0 [] []).
Proof.
  split; [apply scripted_never_interrupts; reflexivity |].
  split; [constructor |]. split; [reflexivity |].
  apply X7_one_close_per_session;
    [apply scripted_never_interrupts; reflexivity | constructor | reflexivity].
Defined.

(** ** What is left in [errno] *)

Lemma succeed_never_interrupts (P : Platform) :
  close_and_time_succeed P -> never_interrupts P.
Proof.
  intros H h fd. unfold close_interrupted.
  destruct (Z.ltb_spec (ret (P h (sys_close fd))) 0) as [Hlt | Hge]; [| reflexivity].
  pose proof (proj1 (H h) fd). lia.
Qed.

(** Decides the tests of [errno]'s updates after [::close] and [time]. *)
Ltac succeeded H :=
  cbn [released raise_at fst snd errno after with_file with_errno unlocked locked
       quiet_close closed_once file trace];
  repeat match goal with
         | |- context [ret (?P ?h sys_time) <? 0] =>
             destruct (Z.ltb_spec (ret (P h sys_time)) 0);
             [pose proof (proj2 (H h)); lia |]
         | |- context [ret (?P ?h (sys_close ?fd)) <? 0] =>
             destruct (Z.ltb_spec (ret (P h (sys_close fd))) 0);
             [pose proof (proj1 (H h) fd); lia |]
         end.

(** X8.  On a platform where [::close] and [time] succeed, a public
    operation that got a descriptor from [::open] always leaves [errno == 0]:
    [Close] resets it before the exception is built, so the error that a
    failed [ioctl], [::read] or [::write] left in [errno] is never seen by
    the caller.  Only the error of a failed [::open] survives the call. *)
Theorem X8_errno_of_failed_transfer_is_lost
        (busfile : string) (P : Platform) (p : prog unit) (s : state) :
  close_and_time_succeed P -> public_operation busfile p -> mtx s = false ->
  errno_law busfile P p s.
Proof.
  intros HP Hp Hm. pose proof (succeed_never_interrupts P HP) as Hq.
  revert p Hp. apply public_operation_cases.
  - intros fuel c len addr arg1 arg2 _ _ _ _ _.
    unfold errno_law. cbv zeta.
    rewrite (transfer_calm busfile P fuel c len addr arg1 arg2 s Hq Hm). cbv zeta.
    destruct (Z.ltb_spec (ret (P (trace s) (sys_open busfile O_RDWR))) 0)
      as [Hfd | Hfd].
    + succeeded HP. split; [intros _ | lia].
      destruct (Z.ltb_spec (ret (P (trace s) (sys_open busfile O_RDWR))) 0);
        [reflexivity | lia].
    + destruct (ret _ <? 0); [| destruct (ret _ =? len)];
        succeeded HP; (split; [lia | reflexivity]).
  - intros fuel odat olen ilen i2caddr.
    unfold errno_law. cbv zeta.
    rewrite (Xfer_calm busfile P fuel odat olen ilen i2caddr s Hq Hm). cbv zeta.
    destruct (Z.ltb_spec (ret (P (trace s) (sys_open busfile O_RDWR))) 0)
      as [Hfd | Hfd].
    + succeeded HP. split; [intros _ | lia].
      destruct (Z.ltb_spec (ret (P (trace s) (sys_open busfile O_RDWR))) 0);
        [reflexivity | lia].
    + destruct (ret _ <? 0);
        [| destruct (ret _ =? olen); [destruct (ret _ =? ilen) |]];
        succeeded HP; (split; [lia | reflexivity]).
Qed.

Lemma X8_errno_of_failed_transfer_is_lost_witness :
  close_and_time_succeed device_absent
  /\ public_operation BBB_I2C1_FILE (Read BBB_I2C1_FILE 0 1 x50)
  /\ mtx (I2CBus 7 [] []) = false
  /\ errno_law BBB_I2C1_FILE device_absent (Read BBB_I2C1_FILE 0 1 x50)
               (I2CBus 7 [] []).
Proof.
  assert (H : close_and_time_succeed device_absent)
    by (intros h; split; [intros fd |]; cbn; lia).
  split; [exact H |]. split; [constructor |]. split; [reflexivity |].
  apply X8_errno_of_failed_transfer_is_lost; [exact H | constructor | reflexivity].
Defined.

(** ** A negative length *)

Lemma size_t_of_int_negative (len : Z) :
  INT_MIN <= len < 0 -> size_t_of_int len = len + 2 ^ 32.
Proof.
  unfold INT_MIN, size_t_of_int. intros H.
  rewrite <- (Z_mod_plus_full len 1 (2 ^ 32)).
  apply Z.mod_small. lia.
Qed.

Lemma transfer_accepts (busfile : string) (P : Platform) (k fuel : nat)
      (c : Z -> syscall) (len : Z) (addr : byte) (arg1 arg2 : string) (s : state) :
  close_settles P k -> (k < fuel)%nat -> mtx s = false -> len < 0 ->
  negative_length_law busfile P (transfer busfile fuel c len addr arg1 arg2)
                      c arg1 arg2 len addr s.
Proof.
  intros Hk Hfuel Hm Hneg. unfold negative_length_law. cbv zeta. intros Hfd Hr2.
  pose proof (transfer_cases busfile P c len addr arg1 arg2 s fuel Hm) as Hc.
  pose proof (transfer_ends busfile P c len addr arg1 arg2 s k fuel Hk Hfuel Hm) as He.
  destruct (run P (transfer busfile fuel c len addr arg1 arg2) s) as [o s'].
  cbn [fst snd] in *.
  inversion Hc as [rt s0 Hfd' Hrt Ht Hf Hm' Hd
                  | cl rt s0 Hfd' Hr2' Hcl Hne Hrt Ht Hf Hm' Hd
                  | cl rt s0 Hfd' Hr2' Hr3 Hcl Hne Hrt Ht Hf Hm' Hd
                  | cl s0 Hfd' Hr2' Hr3 Hcl Hne Ht Hf Hm' Hd
                  | s0 Hfd' ];
    subst; try lia; try contradiction.
  - rewrite (since_app s s' _ Ht).
    split; [cbn; tauto |]. split; [intros Hx; contradiction |].
    intros _. eexists. split; [reflexivity |].
    apply in_or_app. right. apply in_or_app. right. left. reflexivity.
  - rewrite (since_app s s' _ Ht).
    split; [cbn; tauto |]. split; [intros _; split; [lia | reflexivity] |].
    intros Hx. contradiction.
Qed.

(** X9.  [Read] and [Write] do not reject a negative [len] (here on the
    32-bit target, where [size_t] has 32 bits): converted to [size_t] it
    asks the platform for [len + 2^32] bytes, and the count check compares
    the result of the platform call with the negative [len] itself.  So the
    operation returns normally exactly when [::read] or [::write] failed
    with that value (with [len == -1]: whenever it failed), and in every
    other case, also when the call succeeded, it throws the generic
    [I2CException] built from its own name and [Read length error.] or
    [Write length error.]. *)
Theorem X9_negative_length_accepts_failure
        (busfile : string) (P : Platform) (k fuel : nat) (len : Z) (addr : byte)
        (s : state) :
  close_settles P k -> (k < fuel)%nat -> mtx s = false -> INT_MIN <= len < 0 ->
  negative_length_law busfile P (Read busfile fuel len addr)
                      (fun fd => sys_read fd (len + 2 ^ 32))
                      "I2CBus::Read(data, len, addr)" "Read length error."
                      len addr s
  /\ forall data,
      negative_length_law busfile P (Write busfile fuel data len addr)
                          (fun fd => sys_write fd data (len + 2 ^ 32))
                          "I2CBus::Write(data, len, addr)" "Write length error."
                          len addr s.
Proof.
  intros Hk Hfuel Hm Hlen.
  rewrite <- (size_t_of_int_negative len Hlen). split; [| intros data].
  - rewrite Read_transfer. apply (transfer_accepts busfile P k); [assumption .. | lia].
  - rewrite Write_transfer. apply (transfer_accepts busfile P k); [assumption .. | lia].
Qed.

Lemma X9_negative_length_accepts_failure_witness :
  close_settles read_fails 0 /\ (0 < 1)%nat /\ mtx (I2CBus 0 [] []) = false
  /\ INT_MIN <= -1 < 0
  /\ negative_length_law BBB_I2C1_FILE read_fails (Read BBB_I2C1_FILE 1 (-1) x50)
                         (fun fd => sys_read fd (-1 + 2 ^ 32))
                         "I2CBus::Read(data, len, addr)" "Read length error."
                         (-1) x50 (I2CBus 0 [] []).
Proof.
  assert (Hk : close_settles read_fails 0) by (apply scripted_settles; reflexivity).
  split; [exact Hk |]. split; [lia |]. split; [reflexivity |].
  split; [unfold INT_MIN; lia |].
  apply (X9_negative_length_accepts_failure BBB_I2C1_FILE read_fails 0 1 (-1) x50
           (I2CBus 0 [] []) Hk); [lia | reflexivity | unfold INT_MIN; lia].
Defined.

Example negative_length_run :
  run read_fails (Read BBB_I2C1_FILE 1 (-1) x50) (I2CBus 0 [] []) =
  (Returned tt,
   {| file := -1; mtx := false; errno := 0; data := [];
      trace := [(sys_open BBB_I2C1_FILE O_RDWR, ok 3);
                (sys_ioctl 3 I2C_SLAVE 80, ok 0);
                (sys_read 3 4294967295, fail 5);
                (sys_close 3, ok 0)] |}).
Proof. reflexivity. Qed.

(** ** The life of a bus object *)

Lemma count_le (k1 k2 : syscall -> bool) (t : list event) :
  (forall c, k1 c = true -> k2 c = true) -> (count k1 t <= count k2 t)%nat.
Proof.
  intros H. induction t as [| e t IH]; [apply Nat.le_refl |].
  rewrite !count_cons. destruct (k1 (fst e)) eqn:E.
  - rewrite (H _ E). lia.
  - destruct (k2 (fst e)); lia.
Qed.

Lemma is_close_of_is_close (fd : Z) (c : syscall) :
  is_close_of fd c = true -> is_close c = true.
Proof. destruct c; cbn; auto. Qed.

(** A session on a platform that does not interrupt [::close]. *)
Lemma calm_session (busfile : string) (P : Platform) (p : prog unit) (s : state) :
  open_posix P -> never_interrupts P -> public_operation busfile p ->
  mtx s = false ->
  (fst (run P p s) = Returned tt \/ exists e, fst (run P p s) = Raised e)
  /\ file (snd (run P p s)) = -1
  /\ mtx (snd (run P p s)) = false
  /\ count is_close (since s (snd (run P p s)))
     = (if ret (P (trace s) (sys_open busfile O_RDWR)) <? 0 then 0%nat else 1%nat).
Proof.
  intros Hposix HP Hp Hm.
  pose proof (Hposix (trace s) busfile O_RDWR) as Hge.
  revert p Hp. apply public_operation_cases.
  - intros fuel c len addr arg1 arg2 _ _ _ Hclose _.
    rewrite (transfer_calm busfile P fuel c len addr arg1 arg2 s HP Hm). cbv zeta.
    destruct (Z.ltb_spec (ret (P (trace s) (sys_open busfile O_RDWR))) 0)
      as [Hfd | Hfd].
    + explicit_since. split; [right; eauto |].
      split; [cbn; lia |]. split; reflexivity.
    + destruct (ret _ <? 0); [| destruct (ret _ =? len)]; explicit_since;
        rewrite ?count_cons; cbn [fst is_close]; rewrite ?Hclose;
        (split; [first [left; reflexivity | right; eauto] |]);
        (split; [reflexivity |]); split; reflexivity.
  - intros fuel odat olen ilen i2caddr.
    rewrite (Xfer_calm busfile P fuel odat olen ilen i2caddr s HP Hm). cbv zeta.
    destruct (Z.ltb_spec (ret (P (trace s) (sys_open busfile O_RDWR))) 0)
      as [Hfd | Hfd].
    + explicit_since. split; [right; eauto |].
      split; [cbn; lia |]. split; reflexivity.
    + destruct (ret _ <? 0);
        [| destruct (ret _ =? olen); [destruct (ret _ =? ilen) |]]; explicit_since;
        (split; [first [left; reflexivity | right; eauto] |]);
        (split; [reflexivity |]); split; reflexivity.
Qed.

(** X10.  On a platform whose [::open] gives a descriptor or [-1] and whose
    [::close] is not interrupted, take a bus object, call one public
    operation on it, and destroy it.  The operation ends, by return or by
    exception, with [file == -1]; so the destructor returns without a
    platform call.  Over the whole life [::close] is called exactly once
    when [::open] gave a descriptor, and never when [::open] failed: no
    descriptor is closed twice.  (When [::close] is interrupted the retry
    loop of [Close] closes the same descriptor again: that case is not
    covered here.) *)
Theorem X10_destructor_has_nothing_to_close
        (busfile : string) (P : Platform) (fuel : nat) (p : prog unit)
        (s : state) :
  open_posix P -> never_interrupts P -> public_operation busfile p ->
  mtx s = false ->
  lifecycle_law busfile P p fuel s.
Proof.
  intros Hposix HP Hp Hm.
  destruct (calm_session busfile P p s Hposix HP Hp Hm) as (Hend & Hf & Hmtx & Hcount).
  unfold lifecycle_law, I2CBus_destructor. cbv zeta.
  rewrite (Close_not_open P fuel _ Hf). cbn [fst snd].
  assert (Hsame : since s (with_errno 0 (snd (run P p s))) = since s (snd (run P p s)))
    by reflexivity.
  rewrite Hsame.
  split; [exact Hend |]. split; [exact Hf |]. split; [reflexivity |].
  split; [apply since_app; cbn [with_errno trace]; rewrite app_nil_r; reflexivity |].
  split; [exact Hf |]. split; [exact Hmtx |]. split; [exact Hcount |].
  intros fd.
  apply Nat.le_trans with (m := count is_close (since s (snd (run P p s)))).
  - apply count_le. apply is_close_of_is_close.
  - rewrite Hcount. destruct (ret _ <? 0); lia.
Qed.

Lemma X10_destructor_has_nothing_to_close_witness :
  open_posix scenario_C /\ never_interrupts scenario_C
  /\ public_operation BBB_I2C1_FILE (Read BBB_I2C1_FILE 1 1 x50)
  /\ mtx (I2CBus 0 [] []) = false
  /\ lifecycle_law BBB_I2C1_FILE scenario_C (Read BBB_I2C1_FILE 1 1 x50) 5
                    (I2CBus 0 [] []).
Proof.
  assert (Hp : open_posix scenario_C) by (apply scripted_open_posix; reflexivity).
  assert (Hq : never_interrupts scenario_C)
    by (apply scripted_never_interrupts; reflexivity).
  split; [exact Hp |]. split; [exact Hq |]. split; [constructor |].
  split; [reflexivity |].
  apply X10_destructor_has_nothing_to_close;
    [exact Hp | exact Hq | constructor | reflexivity].
Defined.

(** ** Concurrent runs and sequential runs *)

Lemma exec_app (P : Platform) (l1 l2 : list thread) (g : config) :
  exec P (l1 ++ l2) g = exec P l2 (exec P l1 g).
Proof. apply fold_left_app. Qed.

Lemma exec_snoc (P : Platform) (l : list thread) (t : thread) (g : config) :
  exec P (l ++ [t]) g = step P t (exec P l g).
Proof. apply exec_app. Qed.

Lemma step_other_thread (P : Platform) (t : thread) (g : config) :
  thread_of t (step P (other t) g) = thread_of t g.
Proof.
  unfold step. destruct (t_prog (thread_of (other t) g)) as [x | e | | a k];
    try reflexivity.
  destruct (perform P a (view (other t) g)) as [[r s'] |]; [| reflexivity].
  destruct t; reflexivity.
Qed.

Lemma exec_other_thread (P : Platform) (t : thread) (m : nat) : forall g,
  thread_of t (exec P (repeat (other t) m) g) = thread_of t g.
Proof.
  induction m as [| m IH]; intros g; [reflexivity |].
  cbn [repeat]. rewrite exec_cons, IH. apply step_other_thread.
Qed.

Lemma step_finished (P : Platform) (t : thread) (g : config) :
  finished (prog_of t g) -> step P t g = g.
Proof.
  unfold prog_of, step. destruct (t_prog (thread_of t g)); cbn; tauto.
Qed.

Lemma step_waiting_held (P : Platform) (t : thread) (g : config) :
  waiting (prog_of t g) -> c_mtx g = true -> step P t g = g.
Proof.
  unfold prog_of, step. intros Hw Hm.
  destruct (t_prog (thread_of t g)) as [x | e | | [] k]; cbn in Hw; try contradiction.
  cbn. rewrite Hm. reflexivity.
Qed.

Lemma step_waiting_free (P : Platform) (t : thread) (g : config) :
  waiting (prog_of t g) -> c_mtx g = false -> holding (prog_of t (step P t g)).
Proof.
  unfold step. intros Hw Hm. unfold prog_of in Hw.
  destruct (t_prog (thread_of t g)) as [x | e | | [] k]; cbn in Hw; try contradiction.
  cbn [perform view mtx]. rewrite Hm. rewrite prog_of_commit_same. apply Hw.
Qed.

Lemma step_inside (P : Platform) (t : thread) (g : config) :
  holding (prog_of t g) \/ finished (prog_of t g) ->
  holding (prog_of t (step P t g)) \/ finished (prog_of t (step P t g)).
Proof.
  intros [Hh | Hf]; [| rewrite step_finished; auto].
  unfold step. unfold prog_of in Hh.
  destruct (t_prog (thread_of t g)) as [x | e | | a k] eqn:Hp;
    try (left; unfold prog_of; rewrite Hp; exact Hh).
  destruct a; cbn in Hh; try contradiction; cbn [perform];
    rewrite prog_of_commit_same; auto.
Qed.

Lemma exec_inside (P : Platform) (t : thread) (n : nat) : forall g,
  holding (prog_of t g) \/ finished (prog_of t g) ->
  holding (prog_of t (exec P (repeat t n) g))
  \/ finished (prog_of t (exec P (repeat t n) g)).
Proof.
  induction n as [| n IH]; intros g H; [exact H |].
  cbn [repeat]. rewrite exec_cons. apply IH, step_inside, H.
Qed.

(** A thread that found the mutex free is inside its session, or past it,
    after any number of its own steps. *)
Lemma own_steps_leave_waiting (P : Platform) (t : thread) (n : nat) (g : config) :
  waiting (prog_of t g) -> c_mtx g = false ->
  holding (prog_of t (exec P (repeat t (S n)) g))
  \/ finished (prog_of t (exec P (repeat t (S n)) g)).
Proof.
  intros Hw Hm. cbn [repeat]. rewrite exec_cons.
  apply exec_inside. left. apply step_waiting_free; assumption.
Qed.

Lemma exec_serializable (P : Platform) (g0 : config) :
  invariant g0 -> (forall t, waiting (prog_of t g0)) -> c_mtx g0 = false ->
  forall schedule, serializable P g0 schedule.
Proof.
  intros Hinv0 Hw0 Hm0 schedule.
  induction schedule as [| x schedule IH] using rev_ind.
  - exists T1, 0%nat, 0%nat. split; [reflexivity | left; reflexivity].
  - destruct IH as (a & n & m & Heq & Hside). unfold serializable.
    rewrite exec_snoc, Heq.
    destruct (thread_cases a x) as [-> | ->]; destruct Hside as [-> | Hfin].
    + exists a, (S n), 0%nat. split; [| left; reflexivity].
      change (repeat (other a) 0) with (@nil thread).
      rewrite !app_nil_r, <- repeat_snoc, exec_snoc. reflexivity.
    + exists a, n, m. split; [| right; exact Hfin].
      apply step_finished. rewrite exec_app. unfold prog_of.
      rewrite exec_other_thread. exact Hfin.
    + change (repeat (other a) 0) with (@nil thread).
      rewrite app_nil_r. destruct n as [| n].
      * exists (other a), 1%nat, 0%nat. split; [reflexivity | left; reflexivity].
      * set (g := exec P (repeat a (S n)) g0).
        assert (Hinv : invariant g) by (apply invariant_exec; exact Hinv0).
        assert (Hwb : waiting (prog_of (other a) g)).
        { unfold prog_of, g. rewrite <- (other_other a) at 2.
          rewrite exec_other_thread. apply Hw0. }
        destruct (own_steps_leave_waiting P a n g0 (Hw0 a) Hm0) as [Hh | Hf].
        -- exists a, (S n), 0%nat.
           change (repeat (other a) 0) with (@nil thread). rewrite app_nil_r.
           split; [| left; reflexivity].
           apply step_waiting_held; [exact Hwb |].
           destruct (c_mtx g) eqn:Hm; [exact Hm |].
           exfalso. exact (inv_free g Hinv Hm a Hh).
        -- exists a, (S n), 1%nat. split; [| right; exact Hf].
           change (repeat (other a) 1) with [other a]. rewrite exec_snoc.
           reflexivity.
    + exists a, n, (S m). split; [| right; exact Hfin].
      rewrite <- repeat_snoc, app_assoc, exec_snoc. reflexivity.
Qed.

(** X11.  Two threads that call public operations on one bus: whatever the
    schedule of their steps, and at every moment of the run, the
    configuration reached (bus, log of platform calls, buffers, [errno]s,
    what is left of the two programs) is the one reached when one thread
    takes all its steps first and the other moves only after the first has
    left its operation. *)
Theorem X11_every_schedule_is_serializable
        (busfile : string) (P : Platform) (p1 p2 : prog unit)
        (schedule : list thread) (errno1 errno2 : Z) (data1 data2 : list byte) :
  public_operation busfile p1 -> public_operation busfile p2 ->
  serializable P (start p1 p2 errno1 errno2 data1 data2) schedule.
Proof.
  intros H1 H2.
  pose proof (waiting_public_operation busfile p1 H1) as Hw1.
  pose proof (waiting_public_operation busfile p2 H2) as Hw2.
  apply exec_serializable.
  - apply invariant_start; assumption.
  - intros []; assumption.
  - reflexivity.
Qed.

Lemma X11_every_schedule_is_serializable_witness :
  public_operation BBB_I2C1_FILE (Write BBB_I2C1_FILE 1 [x01; x02] 2 x50)
  /\ public_operation BBB_I2C1_FILE (Write_string BBB_I2C1_FILE 1 "abc" x50)
  /\ serializable two_writes
       (start (Write BBB_I2C1_FILE 1 [x01; x02] 2 x50)
              (Write_string BBB_I2C1_FILE 1 "abc" x50) 0 0 [] [])
       taking_turns.
Proof.
  split; [constructor |]. split; [constructor |].
  apply (X11_every_schedule_is_serializable BBB_I2C1_FILE); constructor.
Defined.

Lemma exec_to_end (P : Platform) (t : thread) (n m : nat) (g : config) :
  finished (prog_of t (exec P (repeat t n) g)) -> (n <= m)%nat ->
  exec P (repeat t m) g = exec P (repeat t n) g.
Proof.
  intros Hf Hle. replace m with (n + (m - n))%nat by lia.
  rewrite repeat_app, exec_app. apply exec_idle, step_finished, Hf.
Qed.

(** The steps of a thread that ran alone until it had finished are the run
    of its program. *)
Lemma exec_alone_finished (P : Platform) (t : thread) (n : nat) (g : config) :
  finished (prog_of t (exec P (repeat t n) g)) ->
  view t (exec P (repeat t n) g) = snd (run P (prog_of t g) (view t g))
  /\ ended_as (fst (run P (prog_of t g) (view t g)))
              (prog_of t (exec P (repeat t n) g))
  /\ thread_of (other t) (exec P (repeat t n) g) = thread_of (other t) g.
Proof.
  intros Hf. destruct (exec_alone P t (prog_of t g) g eq_refl) as [N H].
  specialize (H (Nat.max n N) (Nat.le_max_r n N)). cbv zeta in H.
  rewrite (exec_to_end P t n (Nat.max n N) g Hf (Nat.le_max_l n N)) in H.
  exact H.
Qed.

Lemma serial_sequential (P : Platform) (g0 : config) (a : thread) (n m : nat) :
  finished (prog_of a (exec P (repeat a n ++ repeat (other a) m) g0)) ->
  finished (prog_of (other a) (exec P (repeat a n ++ repeat (other a) m) g0)) ->
  sequential_result P a g0 (exec P (repeat a n ++ repeat (other a) m) g0).
Proof.
  rewrite exec_app. set (g1 := exec P (repeat a n) g0). intros Hfa Hfb.
  assert (Hta : thread_of a (exec P (repeat (other a) m) g1) = thread_of a g1)
    by apply exec_other_thread.
  unfold prog_of in Hfa. rewrite Hta in Hfa.
  destruct (exec_alone_finished P a n g0 Hfa) as (Hva & Hea & Hb0). fold g1 in Hva, Hea, Hb0.
  destruct (exec_alone_finished P (other a) m g1 Hfb) as (Hvb & Heb & _).
  assert (Hview : view (other a) g1 = handover (view a g1) (thread_of (other a) g1))
    by reflexivity.
  unfold prog_of in Hvb, Heb. rewrite Hview, Hva, Hb0 in Hvb, Heb.
  unfold sequential_result. cbv zeta.
  split; [exact Hvb |].
  split; [rewrite Hta, <- Hva; reflexivity |].
  split; [rewrite Hta, <- Hva; reflexivity |].
  split; [| exact Heb].
  unfold prog_of at 2. rewrite Hta. exact Hea.
Qed.

(** X12.  Two threads that call public operations on one bus, run under any
    schedule until both have left their operation: the result is exactly
    that of calling the two operations one after the other, in one of the
    two orders.  The platform saw the same calls, each caller's buffer and
    [errno] hold the same values, each operation returned or threw the same
    exception, and the bus is left as the second call left it. *)
Theorem X12_concurrent_calls_equal_sequential_calls
        (busfile : string) (P : Platform) (p1 p2 : prog unit)
        (schedule : list thread) (errno1 errno2 : Z) (data1 data2 : list byte) :
  public_operation busfile p1 -> public_operation busfile p2 ->
  finished (prog_of T1 (exec P schedule (start p1 p2 errno1 errno2 data1 data2))) ->
  finished (prog_of T2 (exec P schedule (start p1 p2 errno1 errno2 data1 data2))) ->
  exists a,
    sequential_result P a (start p1 p2 errno1 errno2 data1 data2)
                      (exec P schedule (start p1 p2 errno1 errno2 data1 data2)).
Proof.
  intros H1 H2 Hf1 Hf2.
  pose proof (waiting_public_operation busfile p1 H1) as Hw1.
  pose proof (waiting_public_operation busfile p2 H2) as Hw2.
  set (g0 := start p1 p2 errno1 errno2 data1 data2) in *.
  assert (Hs : serializable P g0 schedule).
  { apply exec_serializable.
    - apply invariant_start; assumption.
    - intros []; assumption.
    - reflexivity. }
  destruct Hs as (a & n & m & Heq & _). exists a. rewrite Heq in *.
  apply serial_sequential; destruct a; assumption.
Qed.

Lemma X12_concurrent_calls_equal_sequential_calls_witness :
  public_operation BBB_I2C1_FILE (Write BBB_I2C1_FILE 1 [x01; x02] 2 x50)
  /\ public_operation BBB_I2C1_FILE (Write_string BBB_I2C1_FILE 1 "abc" x50)
  /\ finished (prog_of T1 (exec two_writes taking_turns
                 (start (Write BBB_I2C1_FILE 1 [x01; x02] 2 x50)
                        (Write_string BBB_I2C1_FILE 1 "abc" x50) 0 0 [] [])))
  /\ finished (prog_of T2 (exec two_writes taking_turns
                 (start (Write BBB_I2C1_FILE 1 [x01; x02] 2 x50)
                        (Write_string BBB_I2C1_FILE 1 "abc" x50) 0 0 [] [])))
  /\ exists a,
      sequential_result two_writes a
        (start (Write BBB_I2C1_FILE 1 [x01; x02] 2 x50)
               (Write_string BBB_I2C1_FILE 1 "abc" x50) 0 0 [] [])
        (exec two_writes taking_turns
              (start (Write BBB_I2C1_FILE 1 [x01; x02] 2 x50)
                     (Write_string BBB_I2C1_FILE 1 "abc" x50) 0 0 [] [])).
Proof.
  split; [constructor |]. split; [constructor |].
  split; [vm_compute; exact I |]. split; [vm_compute; exact I |].
  apply (X12_concurrent_calls_equal_sequential_calls BBB_I2C1_FILE);
    [constructor | constructor | vm_compute; exact I | vm_compute; exact I].
Defined.

(** ** A [::close] that is always interrupted *)

Lemma retry_spins (P : Platform) (fuel : nat) : forall s,
  always_interrupts P ->
  exists s', run P (TEMP_FAILURE_RETRY fuel close_file) s = (Spinning, s')
             /\ mtx s' = mtx s.
Proof.
  induction fuel as [| fuel IH]; intros s HP.
  - exists s. split; reflexivity.
  - rewrite retry_step. cbv zeta. rewrite HP.
    destruct (IH (closed_once (P (trace s) (sys_close (file s))) s) HP)
      as (s' & Hrun & Hm).
    exists s'. split; [exact Hrun | exact Hm].
Qed.

Lemma Close_spins (P : Platform) (fuel : nat) (s : state) :
  always_interrupts P -> 0 <= file s ->
  exists s', run P (Close fuel) s = (Spinning, s') /\ mtx s' = mtx s.
Proof.
  intros HP Hf. rewrite Close_open by lia. cbv zeta.
  pose proof (HP (trace s) (file s)) as Hi. unfold interrupted in Hi.
  apply andb_true_iff in Hi. destruct Hi as [Hret Herr].
  apply Z.eqb_eq in Hret. rewrite Hret, Herr. cbn [Z.ltb Z.compare andb].
  destruct (retry_spins P fuel
              (closed_once (P (trace s) (sys_close (file s))) (with_errno 0 s)) HP)
    as (s' & Hrun & Hm).
  rewrite Hrun. exists s'. split; [reflexivity | exact Hm].
Qed.

Lemma public_operation_waits (busfile : string) (P : Platform) (p : prog unit)
      (s : state) :
  public_operation busfile p -> mtx s = true -> run P p s = (Blocked, s).
Proof.
  intros Hp Hm. revert p Hp. apply public_operation_cases; intros;
    [unfold transfer | unfold Xfer]; apply run_lock_guard_held; exact Hm.
Qed.

(** Runs [Close] in a session whose descriptor is open. *)
Ltac close_spins HP :=
  match goal with
  | |- context [run ?P (Close ?fuel) ?s2] =>
      let s' := fresh "s'" in
      let Hrun := fresh "Hrun" in
      let Hm := fresh "Hm" in
      destruct (Close_spins P fuel s2 HP) as (s' & Hrun & Hm);
      [cbn [after with_file locked file]; lia |];
      rewrite Hrun; cbn [and_then released fst snd];
      split; [reflexivity |]; split; [exact Hm |];
      intros p' Hp'; apply (public_operation_waits _ _ _ _ Hp'); exact Hm
  end.

(** X13.  On a platform whose [::close] fails with [EINTR] every time, a
    public operation that got a descriptor from [::open] never leaves the
    retry loop of [Close]: whatever the bound on the retries it is still
    retrying, with the mutex held, and every public operation called on the
    bus meanwhile only waits. *)
Theorem X13_interrupted_close_holds_the_mutex
        (busfile : string) (P : Platform) (p : prog unit) (s : state) :
  always_interrupts P -> public_operation busfile p -> mtx s = false ->
  0 <= ret (P (trace s) (sys_open busfile O_RDWR)) ->
  stuck_law busfile P p s.
Proof.
  intros HP Hp Hm Hfd. revert p Hp. apply public_operation_cases.
  - intros fuel c len addr arg1 arg2 _ _ _ _ _. unfold stuck_law. cbv zeta.
    rewrite (transfer_run busfile P c len addr arg1 arg2 s fuel Hm), Open_run.
    cbv zeta. cbn [locked trace].
    destruct (Z.ltb_spec (ret (P (trace s) (sys_open busfile O_RDWR))) 0);
      [lia |].
    destruct (ret _ <? 0); [| cbn [and_then]; cbv zeta]; close_spins HP.
  - intros fuel odat olen ilen i2caddr. unfold stuck_law. cbv zeta.
    rewrite (Xfer_run busfile P odat olen ilen i2caddr s fuel Hm), Open_run.
    cbv zeta. cbn [locked trace].
    destruct (Z.ltb_spec (ret (P (trace s) (sys_open busfile O_RDWR))) 0);
      [lia |].
    destruct (ret _ <? 0); [| cbn [and_then]; cbv zeta; destruct (ret _ =? olen)];
      close_spins HP.
Qed.

Lemma X13_interrupted_close_holds_the_mutex_witness :
  always_interrupts close_always_interrupted
  /\ public_operation BBB_I2C1_FILE (Read BBB_I2C1_FILE 9 1 x50)
  /\ mtx (I2CBus 0 [] []) = false
  /\ 0 <= ret (close_always_interrupted (trace (I2CBus 0 [] []))
                 (sys_open BBB_I2C1_FILE O_RDWR))
  /\ stuck_law BBB_I2C1_FILE close_always_interrupted
               (Read BBB_I2C1_FILE 9 1 x50) (I2CBus 0 [] []).
Proof.
  assert (H : always_interrupts close_always_interrupted)
    by (intros h fd; reflexivity).
  split; [exact H |]. split; [constructor |]. split; [reflexivity |].
  split; [cbn; lia |].
  apply X13_interrupted_close_holds_the_mutex;
    [exact H | constructor | reflexivity | cbn; lia].
Defined.

(** ** The exceptions of the public operations *)

Lemma transfer_exceptions_law (busfile : string) (P : Platform) (k fuel : nat)
      (c : Z -> syscall) (len : Z) (addr : byte) (arg1 arg2 : string) (s : state) :
  close_settles P k -> (k < fuel)%nat -> mtx s = false ->
  exceptions_law busfile P (transfer busfile fuel c len addr arg1 arg2)
                 c arg1 arg2 len addr s.
Proof.
  intros Hk Hfuel Hm. unfold exceptions_law. cbv zeta.
  pose proof (transfer_cases busfile P c len addr arg1 arg2 s fuel Hm) as Hc.
  pose proof (transfer_ends busfile P c len addr arg1 arg2 s k fuel Hk Hfuel Hm) as He.
  destruct (run P (transfer busfile fuel c len addr arg1 arg2) s) as [o s'].
  cbn [fst snd] in *.
  inversion Hc; subst; clear Hc; try contradiction.
  - split; [intros e [= <-]; left; repeat split |].
    split; [intros _; eexists; repeat split |].
    repeat split; intros; lia.
  - split; [intros e [= <-]; right; left; repeat split |].
    split; [intros; lia |].
    split; [intros _ _; eexists; repeat split |].
    repeat split; intros; lia.
  - split; [intros e [= <-]; right; right; split; [reflexivity | left; reflexivity] |].
    split; [intros; lia |]. split; [intros; lia |].
    split; [intros _ _ _; eexists; repeat split |].
    intros; contradiction.
  - split; [intros e [=] |].
    split; [intros; lia |]. split; [intros; lia |].
    split; [intros; contradiction |]. reflexivity.
Qed.

Lemma Xfer_exceptions_law_holds (busfile : string) (P : Platform) (k fuel : nat)
      (odat : list byte) (olen ilen : Z) (i2caddr : byte) (s : state) :
  close_settles P k -> (k < fuel)%nat -> mtx s = false ->
  Xfer_exceptions_law busfile P fuel odat olen ilen i2caddr s.
Proof.
  intros Hk Hfuel Hm. unfold Xfer_exceptions_law. cbv zeta.
  pose proof (Xfer_cases busfile P odat olen ilen i2caddr s fuel Hm) as Hc.
  pose proof (Xfer_ends busfile P odat olen ilen i2caddr s k fuel Hk Hfuel Hm) as He.
  destruct (run P (Xfer busfile fuel odat olen ilen i2caddr) s) as [o s'].
  cbn [fst snd] in *.
  inversion Hc; subst; clear Hc; try contradiction.
  - split; [intros e [= <-]; left; repeat split |].
    split; [intros _; eexists; repeat split |].
    repeat split; intros; lia.
  - split; [intros e [= <-]; right; left; repeat split |].
    split; [intros; lia |].
    split; [intros _ _; eexists; repeat split |].
    repeat split; intros; lia.
  - split; [intros e [= <-]; right; right; split; [reflexivity | left; reflexivity] |].
    split; [intros; lia |]. split; [intros; lia |].
    split; [intros _ _ _; eexists; repeat split |].
    split; intros; contradiction.
  - split; [intros e [= <-]; right; right;
            split; [reflexivity | right; left; reflexivity] |].
    split; [intros; lia |]. split; [intros; lia |].
    split; [intros; contradiction |].
    split; [intros _ _ _ _; eexists; repeat split |].
    intros; contradiction.
  - split; [intros e [=] |].
    split; [intros; lia |]. split; [intros; lia |].
    split; [intros; contradiction |].
    split; [intros; contradiction |]. reflexivity.
Qed.

(** X14.  Which exception a public operation throws is decided by the
    platform's answers: a failed [::open] gives the generic [I2CException]
    that names the bus file, a refused address the [I2CNotFoundException]
    that names the address of the call (both are built in [Open], with the
    name of [Open] as first argument), and a count other than the one asked
    for gives the generic [I2CException] built from the operation's own name
    and [Read length error.] or [Write length error.]; with all answers as
    asked the operation returns.  So each operation throws nothing but the
    exceptions of its own catalogue: [Read] never a write error or another
    operation's name, and [Xfer] its write error or its read error. *)
Theorem X14_exceptions_of_the_public_operations
        (busfile : string) (P : Platform) (k fuel : nat) (s : state) :
  close_settles P k -> (k < fuel)%nat -> mtx s = false ->
  (forall len addr,
      exceptions_law busfile P (Read busfile fuel len addr)
                     (fun fd => sys_read fd (size_t_of_int len))
                     "I2CBus::Read(data, len, addr)" "Read length error."
                     len addr s)
  /\ (forall data len addr,
        exceptions_law busfile P (Write busfile fuel data len addr)
                       (fun fd => sys_write fd data (size_t_of_int len))
                       "I2CBus::Write(data, len, addr)" "Write length error."
                       len addr s)
  /\ (forall dat addr,
        exceptions_law busfile P (Write_string busfile fuel dat addr)
                       (fun fd => sys_write fd (c_str dat)
                                    (size_t_of_int (int_of_size_t (size dat))))
                       "I2CBus::Write(dat, addr)" "Write length error."
                       (int_of_size_t (size dat)) addr s)
  /\ (forall odat olen ilen i2caddr,
        Xfer_exceptions_law busfile P fuel odat olen ilen i2caddr s).
Proof.
  intros Hk Hfuel Hm. split; [| split; [| split]]; intros.
  - rewrite Read_transfer. apply transfer_exceptions_law with (k := k); assumption.
  - rewrite Write_transfer. apply transfer_exceptions_law with (k := k); assumption.
  - rewrite Write_string_transfer.
    apply transfer_exceptions_law with (k := k); assumption.
  - apply Xfer_exceptions_law_holds with (k := k); assumption.
Qed.

Lemma X14_exceptions_of_the_public_operations_witness :
  close_settles scenario_C 0 /\ (0 < 1)%nat /\ mtx (I2CBus 0 [] []) = false
  /\ exceptions_law BBB_I2C1_FILE scenario_C (Read BBB_I2C1_FILE 1 1 x50)
                     (fun fd => sys_read fd (size_t_of_int 1))
                     "I2CBus::Read(data, len, addr)" "Read length error."
                     1 x50 (I2CBus 0 [] [])
  /\ Xfer_exceptions_law BBB_I2C1_FILE scenario_C 1 [x10] 1 2 x50 (I2CBus 0 [] []).
Proof.
  assert (Hk : close_settles scenario_C 0) by (apply scripted_settles; reflexivity).
  split; [exact Hk |]. split; [lia |]. split; [reflexivity |].
  destruct (X14_exceptions_of_the_public_operations BBB_I2C1_FILE scenario_C 0 1
              (I2CBus 0 [] []) Hk) as (HR & _ & _ & HX); [lia | reflexivity |].
  split; [apply HR | apply HX].
Defined.
